(** * Reputation bot: ledger, reconciler and persistence

    A shallow embedding of [reputation_bot.py].  Python [str] values are
    lists of Unicode code points, [int] values are [Z], the keyed
    dictionaries are finite maps, and the two dictionaries whose insertion
    order the program observes (the vote log, which the removal handler
    walks, and the audit-channel table, whose keys collide when written as
    JSON) are ordered dictionaries. *)

From stdpp Require Import gmap list sorting.
From Stdlib Require Import ZArith NArith Ascii String.

Local Open Scope Z_scope.

(** ** Python strings *)

Module Py.

(** A [str]: its code points. *)
Definition pystr : Type := list N.

(** A literal of the source, written as a Rocq string of ASCII characters. *)
Definition lit (s : string) : pystr :=
  List.map N_of_ascii (list_ascii_of_string s).

Definition in_range (lo hi c : N) : bool := ((lo <=? c) && (c <=? hi))%N.

(** [str.isspace] on one code point; the same set is [\s] in a [str]
    pattern of [re], and what [str.strip()] and [str.split()] remove. *)
Definition isspace (c : N) : bool :=
  in_range 9 13 c || in_range 28 32 c || (c =? 133)%N || (c =? 160)%N
  || (c =? 5760)%N || in_range 8192 8202 c || (c =? 8232)%N || (c =? 8233)%N
  || (c =? 8239)%N || (c =? 8287)%N || (c =? 12288)%N.

Definition is_digit (c : N) : bool := in_range 48 57 c.
Definition is_ascii_upper (c : N) : bool := in_range 65 90 c.
Definition is_ascii_lower (c : N) : bool := in_range 97 122 c.

(** [s[:n]] *)
Definition slice_to (n : nat) (s : pystr) : pystr := take n s.

Fixpoint lstrip (p : N → bool) (s : pystr) : pystr :=
  match s with
  | c :: s' => if p c then lstrip p s' else s
  | [] => []
  end.

Definition rstrip (p : N → bool) (s : pystr) : pystr :=
  reverse (lstrip p (reverse s)).

(** [s.strip(chars)], the characters given as a predicate. *)
Definition strip_chars (p : N → bool) (s : pystr) : pystr :=
  rstrip p (lstrip p s).

(** [s.strip()] *)
Definition strip (s : pystr) : pystr := strip_chars isspace s.

(** [s.split()]: the maximal runs of non-space characters. *)
Fixpoint split_ws_from (cur : pystr) (s : pystr) : list pystr :=
  match s with
  | [] => match cur with [] => [] | _ => [reverse cur] end
  | c :: s' =>
      if isspace c
      then match cur with
           | [] => split_ws_from [] s'
           | _ => reverse cur :: split_ws_from [] s'
           end
      else split_ws_from (c :: cur) s'
  end.

Definition split_ws (s : pystr) : list pystr := split_ws_from [] s.

(** [s.split(sep)] for a one-character separator. *)
Fixpoint split_on_from (sep : N) (cur : pystr) (s : pystr) : list pystr :=
  match s with
  | [] => [reverse cur]
  | c :: s' =>
      if (c =? sep)%N
      then reverse cur :: split_on_from sep [] s'
      else split_on_from sep (c :: cur) s'
  end.

Definition split_on (sep : N) (s : pystr) : list pystr :=
  split_on_from sep [] s.

Definition digit_of (d : N) : N := (48 + d)%N.

Fixpoint digits_of_uint (u : Decimal.uint) : pystr :=
  match u with
  | Decimal.Nil => []
  | Decimal.D0 u => digit_of 0 :: digits_of_uint u
  | Decimal.D1 u => digit_of 1 :: digits_of_uint u
  | Decimal.D2 u => digit_of 2 :: digits_of_uint u
  | Decimal.D3 u => digit_of 3 :: digits_of_uint u
  | Decimal.D4 u => digit_of 4 :: digits_of_uint u
  | Decimal.D5 u => digit_of 5 :: digits_of_uint u
  | Decimal.D6 u => digit_of 6 :: digits_of_uint u
  | Decimal.D7 u => digit_of 7 :: digits_of_uint u
  | Decimal.D8 u => digit_of 8 :: digits_of_uint u
  | Decimal.D9 u => digit_of 9 :: digits_of_uint u
  end.

(** [str(n)] for an [int]. *)
Definition str_of_int (z : Z) : pystr :=
  match Z.to_int z with
  | Decimal.Pos u => digits_of_uint u
  | Decimal.Neg u => 45%N :: digits_of_uint u
  end.

Section Upper.
(** [str.upper] maps every code point on its own.  The ASCII part is
    written out; the full-case table of the non-ASCII code points belongs
    to the Python runtime and is taken as given. *)
Variable unicode_upper : N → pystr.

Definition upper_char (c : N) : pystr :=
  if is_ascii_lower c then [(c - 32)%N]
  else if (c <? 128)%N then [c]
  else unicode_upper c.

Definition upper (s : pystr) : pystr := s ≫= upper_char.
End Upper.

End Py.

Export Py.

(** ** The fragment of [re] the program uses *)

Module Re.

(** Patterns: literal characters, bracket classes, [^], concatenation,
    capture group 1, and a greedy bounded or unbounded repetition of a
    class ([{lo,hi}] and [+]). *)
Inductive regex : Type :=
  | Chr (c : N)
  | Cls (p : N → bool)
  | Bol
  | Seq (r1 r2 : regex)
  | Grp (r : regex)
  | Rep (p : N → bool) (lo : nat) (hi : option nat).

(** What a successful match leaves: the end position, the unread text and
    the text of group 1. *)
Definition cont (R : Type) : Type := nat → pystr → option pystr → option R.

Definition exhausted (hi : option nat) : bool :=
  match hi with Some O => true | _ => false end.

(** Greedy repetition with backtracking: take one more character of the
    class when allowed, and fall back to stopping here when the rest of
    the pattern does not match after it. *)
Fixpoint rep_class {R} (p : N → bool) (lo : nat) (hi : option nat)
    (pos : nat) (s : pystr) (g : option pystr) (k : cont R) : option R :=
  let stop := if (lo =? 0)%nat then k pos s g else None in
  match s with
  | c :: s' =>
      if p c && negb (exhausted hi)
      then match rep_class p (pred lo) (pred <$> hi) (S pos) s' g k with
           | Some r => Some r
           | None => stop
           end
      else stop
  | [] => stop
  end.

Fixpoint rmatch {R} (r : regex) (pos : nat) (s : pystr) (g : option pystr)
    (k : cont R) : option R :=
  match r with
  | Chr c =>
      match s with
      | x :: s' => if (x =? c)%N then k (S pos) s' g else None
      | [] => None
      end
  | Cls p =>
      match s with
      | x :: s' => if p x then k (S pos) s' g else None
      | [] => None
      end
  | Bol => if (pos =? 0)%nat then k pos s g else None
  | Seq r1 r2 => rmatch r1 pos s g (λ pos' s' g', rmatch r2 pos' s' g' k)
  | Grp r1 =>
      rmatch r1 pos s g (λ pos' s' _, k pos' s' (Some (take (pos' - pos) s)))
  | Rep p lo hi => rep_class p lo hi pos s g k
  end.

Record rmatch_result : Type := MatchResult {
  m_start : nat;
  m_end : nat;
  group0 : pystr;
  group1 : option pystr;
  m_rest : pystr
}.

(** A match of [r] that starts exactly at [pos], where [s] is the text
    from [pos] on. *)
Definition match_at (r : regex) (pos : nat) (s : pystr) : option rmatch_result :=
  rmatch r pos s None
    (λ pos' s' g, Some (MatchResult pos pos' (take (pos' - pos) s) g s')).

(** [re.search]: the leftmost position at which the pattern matches. *)
Fixpoint search_from (r : regex) (pos : nat) (s : pystr) : option rmatch_result :=
  match match_at r pos s with
  | Some m => Some m
  | None =>
      match s with
      | [] => None
      | _ :: s' => search_from r (S pos) s'
      end
  end.

Definition search (r : regex) (s : pystr) : option rmatch_result :=
  search_from r 0 s.

(** [re.sub(r, repl, s)] and [re.split(r, s)] for a pattern that never
    matches the empty string (every pattern of the program reads at least
    one character): the non-overlapping matches from left to right. *)
Fixpoint sub_from (fuel : nat) (r : regex) (repl : pystr) (pos : nat)
    (s : pystr) : pystr :=
  match fuel with
  | O => s
  | S fuel' =>
      match match_at r pos s with
      | Some m =>
          if (pos <? m_end m)%nat
          then repl ++ sub_from fuel' r repl (m_end m) (m_rest m)
          else match s with
               | [] => []
               | c :: s' => c :: sub_from fuel' r repl (S pos) s'
               end
      | None =>
          match s with
          | [] => []
          | c :: s' => c :: sub_from fuel' r repl (S pos) s'
          end
      end
  end.

Definition sub (r : regex) (repl s : pystr) : pystr :=
  sub_from (S (List.length s)) r repl 0 s.

Fixpoint split_from (fuel : nat) (r : regex) (pos : nat) (cur : pystr)
    (s : pystr) : list pystr :=
  match fuel with
  | O => [reverse cur ++ s]
  | S fuel' =>
      match match_at r pos s with
      | Some m =>
          if (pos <? m_end m)%nat
          then reverse cur :: split_from fuel' r (m_end m) [] (m_rest m)
          else match s with
               | [] => [reverse cur]
               | c :: s' => split_from fuel' r (S pos) (c :: cur) s'
               end
      | None =>
          match s with
          | [] => [reverse cur]
          | c :: s' => split_from fuel' r (S pos) (c :: cur) s'
          end
      end
  end.

Definition split (r : regex) (s : pystr) : list pystr :=
  split_from (S (List.length s)) r 0 [] s.

(** A literal string as a pattern. *)
Fixpoint chars (s : pystr) (r : regex) : regex :=
  match s with
  | [] => r
  | c :: s' => Seq (Chr c) (chars s' r)
  end.

Definition one_or_more (p : N → bool) : regex := Rep p 1 None.
Definition between (lo hi : nat) (p : N → bool) : regex := Rep p lo (Some hi).

End Re.

(** ** Helper functions of the program *)

(** [[A-Za-z0-9 ]] *)
Definition symbol_class (c : N) : bool :=
  is_ascii_upper c || is_ascii_lower c || is_digit c || (c =? 32)%N.

(** [[a-fA-F0-9]] *)
Definition hex_class (c : N) : bool :=
  in_range 97 102 c || in_range 65 70 c || is_digit c.

(** [[1-9A-HJ-NP-Za-km-z]] *)
Definition base58_class (c : N) : bool :=
  in_range 49 57 c || in_range 65 72 c || in_range 74 78 c
  || in_range 80 90 c || in_range 97 107 c || in_range 109 122 c.

(** [ETHEREUM_PATTERN = 0x[a-fA-F0-9]{40}] *)
Definition ETHEREUM_PATTERN : Re.regex :=
  Re.Seq (Re.Chr 48) (Re.Seq (Re.Chr 120) (Re.between 40 40 hex_class)).

(** [SOLANA_PATTERN = [1-9A-HJ-NP-Za-km-z]{32,44}] *)
Definition SOLANA_PATTERN : Re.regex := Re.between 32 44 base58_class.

Definition symbol_group : Re.regex := Re.Grp (Re.between 2 20 symbol_class).

(** [\*\*\$([A-Za-z0-9 ]{2,20})\*\*] *)
Definition bold_dollar_pattern : Re.regex :=
  Re.chars (lit "**$") (Re.Seq symbol_group (Re.Seq (Re.Chr 42) (Re.Chr 42))).

(** [\$([A-Za-z0-9 ]{2,20})] *)
Definition dollar_pattern : Re.regex := Re.Seq (Re.Chr 36) symbol_group.

(** [\[([A-Za-z0-9 ]{2,20})\]\(] *)
Definition markdown_pattern : Re.regex :=
  Re.Seq (Re.Chr 91) (Re.Seq symbol_group (Re.Seq (Re.Chr 93) (Re.Chr 40))).

(** [\(([A-Za-z0-9 ]{2,20})\)] *)
Definition paren_pattern : Re.regex :=
  Re.Seq (Re.Chr 40) (Re.Seq symbol_group (Re.Chr 41)).

(** [^[\s\U00010000-\U0010ffff]+] *)
Definition leading_glyphs_pattern : Re.regex :=
  Re.Seq Re.Bol
    (Re.one_or_more (λ c, isspace c || in_range 65536 1114111 c)).

(** [[\s\-–—]+] *)
Definition separator_pattern : Re.regex :=
  Re.one_or_more
    (λ c, isspace c || (c =? 45)%N || (c =? 8211)%N || (c =? 8212)%N).

(** The characters of [strip('.,:;!?*$')]. *)
Definition punctuation (c : N) : bool :=
  bool_decide (c ∈ lit ".,:;!?*$").

(** [m.group(1)] of a pattern that has the group. *)
Definition group_1 (m : Re.rmatch_result) : pystr := default [] (Re.group1 m).

(** An embed as far as the address extractor reads it; an absent title,
    description or footer text is the empty string, which the truth tests
    of the source treat alike. *)
Record embed : Type := Embed {
  title : pystr;
  description : pystr;
  fields : list (pystr * pystr);
  footer_text : pystr
}.

Definition extract_token_address (e : embed) : pystr :=
  let text := title e ++ description e in
  let text := foldl (λ acc f, acc ++ (f.1 ++ f.2)) text (fields e) in
  let text := text ++ footer_text e in
  match Re.search SOLANA_PATTERN text with
  | Some m => Re.group0 m
  | None =>
      match Re.search ETHEREUM_PATTERN text with
      | Some m => Re.group0 m
      | None => lit "unknown"
      end
  end.

Section Extractor.
Variable unicode_upper : N → pystr.

Definition extract_token_symbol (text : pystr) : pystr :=
  match text with
  | [] => []
  | _ =>
  match Re.search bold_dollar_pattern text with
  | Some m => upper unicode_upper (strip (group_1 m))
  | None =>
  match Re.search dollar_pattern text with
  | Some m => upper unicode_upper (group_1 m)
  | None =>
  match Re.search markdown_pattern text with
  | Some m => upper unicode_upper (strip (group_1 m))
  | None =>
  match Re.search paren_pattern text with
  | Some m => upper unicode_upper (strip (group_1 m))
  | None =>
      let clean_text := Re.sub leading_glyphs_pattern [] text in
      match Re.split separator_pattern clean_text with
      | [] => []
      | part :: _ =>
          match strip_chars punctuation part with
          | [] => []
          | symbol => upper unicode_upper (slice_to 20 symbol)
          end
      end
  end end end end end.
End Extractor.

(** A case table that leaves the non-ASCII code points alone; the closed
    examples below run on ASCII text, where the table is never read. *)
Definition no_unicode_case : N → pystr := λ c, [c].

(** ** Ordered dictionaries

    A Python [dict] where the program depends on its insertion order:
    assignment to a present key keeps the key's place, assignment to a new
    key appends. *)

Module OrdDict.
Section Ops.
Context {K V : Type} `{EqDecision K}.

Definition t : Type := list (K * V).

Fixpoint get (k : K) (d : t) : option V :=
  match d with
  | [] => None
  | (k', v) :: d' => if decide (k' = k) then Some v else get k d'
  end.

Fixpoint set (k : K) (v : V) (d : t) : t :=
  match d with
  | [] => [(k, v)]
  | (k', v') :: d' =>
      if decide (k' = k) then (k', v) :: d' else (k', v') :: set k v d'
  end.
End Ops.
Arguments t : clear implicits.
End OrdDict.

(** ** Data model *)

Inductive vote_kind : Type := Good | Bad.

Global Instance vote_kind_eq_dec : EqDecision vote_kind.
Proof. solve_decision. Defined.

Definition opposite (vt : vote_kind) : vote_kind :=
  match vt with Good => Bad | Bad => Good end.

(** The value under [bot.reputation[author]["tokens"][address]]; an entry
    loaded from an old file may lack ["symbol"]. *)
Record token_data : Type := TokenData {
  tgood : Z;
  tbad : Z;
  goodvoters : list Z;
  badvoters : list Z;
  symbol : option pystr
}.

(** The value under [bot.reputation[author]]. *)
Record user_data : Type := UserData {
  good : Z;
  bad : Z;
  tokens : gmap pystr token_data
}.

(** An entry of [bot.reputation_log]. *)
Record vote : Type := Vote {
  vote_id : pystr;
  voter_id : Z;
  author_id : Z;
  token_address : pystr;
  vote_type : vote_kind;
  message_id : Z;
  timestamp : pystr;
  reversed : bool
}.

(** An entry of [bot.token_messages]. *)
Record message_info : Type := MessageInfo {
  author : Z;
  info_token_address : pystr;
  token_symbol : pystr
}.

(** A key of [bot.reputation_log_channels]: the guild id as the command
    stores it, or its text as a JSON file gives it back. *)
Inductive guild_key : Type :=
  | IntKey (n : Z)
  | StrKey (s : pystr).

Global Instance guild_key_eq_dec : EqDecision guild_key.
Proof. solve_decision. Defined.

Record bot_state : Type := BotState {
  reputation : gmap pystr user_data;
  reputation_log : OrdDict.t pystr vote;
  current_votes : gmap pystr vote;
  disabled_voters : gset Z;
  reputation_log_channels : OrdDict.t guild_key Z;
  token_messages : gmap Z message_info
}.

Definition initial_state : bot_state :=
  BotState ∅ [] ∅ ∅ [] ∅.

(** *** Field access by vote type: [d[vote_type]], [d[f"{vote_type}voters"]] *)

Definition user_count (vt : vote_kind) (u : user_data) : Z :=
  match vt with Good => good u | Bad => bad u end.

Definition set_user_count (vt : vote_kind) (n : Z) (u : user_data) : user_data :=
  match vt with
  | Good => UserData n (bad u) (tokens u)
  | Bad => UserData (good u) n (tokens u)
  end.

Definition set_tokens (m : gmap pystr token_data) (u : user_data) : user_data :=
  UserData (good u) (bad u) m.

Definition token_count (vt : vote_kind) (t : token_data) : Z :=
  match vt with Good => tgood t | Bad => tbad t end.

Definition set_token_count (vt : vote_kind) (n : Z) (t : token_data) : token_data :=
  match vt with
  | Good => TokenData n (tbad t) (goodvoters t) (badvoters t) (symbol t)
  | Bad => TokenData (tgood t) n (goodvoters t) (badvoters t) (symbol t)
  end.

Definition voters (vt : vote_kind) (t : token_data) : list Z :=
  match vt with Good => goodvoters t | Bad => badvoters t end.

Definition set_voters (vt : vote_kind) (l : list Z) (t : token_data) : token_data :=
  match vt with
  | Good => TokenData (tgood t) (tbad t) l (badvoters t) (symbol t)
  | Bad => TokenData (tgood t) (tbad t) (goodvoters t) l (symbol t)
  end.

Definition set_symbol (s : option pystr) (t : token_data) : token_data :=
  TokenData (tgood t) (tbad t) (goodvoters t) (badvoters t) s.

Definition set_reversed (b : bool) (v : vote) : vote :=
  Vote (vote_id v) (voter_id v) (author_id v) (token_address v) (vote_type v)
    (message_id v) (timestamp v) b.

Definition set_reputation (r : gmap pystr user_data) (s : bot_state) : bot_state :=
  BotState r (reputation_log s) (current_votes s) (disabled_voters s)
    (reputation_log_channels s) (token_messages s).

Definition set_ledger (l : OrdDict.t pystr vote) (c : gmap pystr vote)
    (s : bot_state) : bot_state :=
  BotState (reputation s) l c (disabled_voters s)
    (reputation_log_channels s) (token_messages s).

(** [l.remove(x)]: the first occurrence goes (the program calls it only
    after an [in] test). *)
Fixpoint list_remove (x : Z) (l : list Z) : list Z :=
  match l with
  | [] => []
  | y :: l' => if decide (y = x) then l' else y :: list_remove x l'
  end.

Definition contains (x : Z) (l : list Z) : bool := bool_decide (x ∈ l).

(** ** What the handlers do to the outside, and what it answers *)

Inductive response : Type :=
  | AdminRequired
  | AmountMustBePositive
  | VotesAdded (amount : Z)
  | LogChannelSet (channel : Z)
  | VoterToggled (user : Z) (now_disabled : bool)
  | RemovalReport (success reversed_ids invalid : list pystr).

Inductive effect : Type :=
  | ReactionRemoved (message user : Z)
  | DirectNotice (user : Z)
  | ChannelNotice (message user : Z)
  | ErrorLogged
  | AuditEmbed (channel : Z) (heading : pystr)
  | DataSaved
  | Responded (r : response)
  | RepMessagePosted (message member : Z) (total_good total_bad : Z)
  | ReactionAdded (message : Z) (emoji : pystr).

Inductive dm_answer : Type := DmDelivered | DmForbidden | DmFailed.

(** The answers of the chat platform to the calls a handler makes. *)
Record platform : Type := Platform {
  remove_fails : bool;
  dm : dm_answer;
  ctx_send_fails : bool;
  channel_exists : Z → bool;
  log_send_fails : bool
}.

Definition GREEN : pystr := [128994%N].
Definition RED : pystr := [128308%N].

Definition is_vote_emoji (e : pystr) : bool :=
  bool_decide (e = GREEN) || bool_decide (e = RED).

Definition vote_of_emoji (e : pystr) : vote_kind :=
  if bool_decide (e = GREEN) then Good else Bad.

(** [bot.reputation_log_channels.get(guild_id)] followed by
    [guild.get_channel]: the channel to write to, if any. *)
Definition log_channel (env : platform) (guild : Z) (s : bot_state) : option Z :=
  match OrdDict.get (IntKey guild) (reputation_log_channels s) with
  | Some ch => if bool_decide (ch ≠ 0) && channel_exists env ch then Some ch else None
  | None => None
  end.

(** ** Data management *)

(** The five files; [None] is a file that does not exist.  A file holds
    the value that [json.load] gives back for what [json.dumps] wrote:
    dictionaries with text keys, lists, integers, text and booleans come
    back equal, a key that was an [int] comes back as its text, and the
    set of disabled voters is written as a list.  The storage is taken to
    accept every write. *)
Record files : Type := Files {
  reputation_json : option (gmap pystr user_data);
  reputation_log_json : option (OrdDict.t pystr vote);
  disabled_voters_json : option (list Z);
  reputation_log_channels_json : option (list (pystr * Z));
  current_votes_json : option (gmap pystr vote)
}.

Definition no_files : files := Files None None None None None.

(** [json.dumps] turns an [int] key into its text. *)
Definition json_key (k : guild_key) : pystr :=
  match k with IntKey n => str_of_int n | StrKey s => s end.

Definition save_data (s : bot_state) : files :=
  Files (Some (reputation s))
        (Some (reputation_log s))
        (Some (elements (disabled_voters s)))
        (Some (prod_map json_key id <$> reputation_log_channels s))
        (Some (current_votes s)).

(** [token_address[:6] + "..." if token_address != "unknown" else "unknown"] *)
Definition default_symbol (token_address : pystr) : pystr :=
  if bool_decide (token_address ≠ lit "unknown")
  then slice_to 6 token_address ++ lit "..."
  else lit "unknown".

Definition backfill_token (token_address : pystr) (t : token_data) : token_data :=
  match symbol t with
  | None => set_symbol (Some (default_symbol token_address)) t
  | Some _ => t
  end.

Definition backfill_user (u : user_data) : user_data :=
  set_tokens (map_imap (λ a t, Some (backfill_token a t)) (tokens u)) u.

(** [json.load] of an object: the pairs assigned in turn. *)
Definition load_channels (l : list (pystr * Z)) : OrdDict.t guild_key Z :=
  foldl (λ d kv, OrdDict.set (StrKey kv.1) kv.2 d) [] l.

(** [load_data]: the files are read in turn into the globals; the first
    missing file ends the load with what was read so far, and only a
    complete load is followed by the symbol backfill. *)
Definition load_data (d : files) (s : bot_state) : bot_state :=
  match reputation_json d with
  | None => s
  | Some r =>
  let s := set_reputation r s in
  match reputation_log_json d with
  | None => s
  | Some l =>
  let s := set_ledger l (current_votes s) s in
  match disabled_voters_json d with
  | None => s
  | Some dv =>
  let s := BotState (reputation s) (reputation_log s) (current_votes s)
             (list_to_set dv) (reputation_log_channels s) (token_messages s) in
  match reputation_log_channels_json d with
  | None => s
  | Some ch =>
  let s := BotState (reputation s) (reputation_log s) (current_votes s)
             (disabled_voters s) (load_channels ch) (token_messages s) in
  match current_votes_json d with
  | None => s
  | Some cv =>
  let s := set_ledger (reputation_log s) cv s in
  set_reputation (backfill_user <$> reputation s) s
  end end end end end.

(** ** Commands *)

(** One generated vote: [uuid.uuid4()] and [datetime.now().isoformat()]
    come from outside and are part of the call. *)
Definition stamp : Type := (pystr * pystr)%type.

Definition empty_user : user_data := UserData 0 0 ∅.

(** [repadd]: the [i]-th round of the loop draws [fresh i]. *)
Definition repadd_round (author voter : Z) (vt : vote_kind)
    (s : bot_state) (st : stamp) : bot_state :=
  let author_key := str_of_int author in
  let v := Vote st.1 voter author (lit "admin_added") vt 0 st.2 false in
  let log := OrdDict.set st.1 v (reputation_log s) in
  let rep := alter (λ u, set_user_count vt (user_count vt u + 1) u)
               author_key (reputation s) in
  BotState rep log (<[st.1 := v]> (current_votes s)) (disabled_voters s)
    (reputation_log_channels s) (token_messages s).

Definition repadd (env : platform) (is_admin : bool) (caller guild : Z)
    (user : Z) (amount : Z) (vt : vote_kind) (fresh : nat → stamp)
    (s : bot_state) : bot_state * list effect :=
  if negb is_admin then (s, [Responded AdminRequired])
  else if bool_decide (amount ≤ 0) then (s, [Responded AmountMustBePositive])
  else
    let author_key := str_of_int user in
    let s :=
      match reputation s !! author_key with
      | None => set_reputation (<[author_key := empty_user]> (reputation s)) s
      | Some _ => s
      end in
    let s := foldl (repadd_round user caller vt) s
               (fresh <$> seq 0 (Z.to_nat amount)) in
    let heading := lit "Votes Added by Admin" in
    match log_channel env guild s with
    | Some ch =>
        if log_send_fails env then (s, [DataSaved])
        else (s, [DataSaved; AuditEmbed ch heading; Responded (VotesAdded amount)])
    | None => (s, [DataSaved; Responded (VotesAdded amount)])
    end.

Definition replogs (is_admin : bool) (guild channel : Z) (s : bot_state)
    : bot_state * list effect :=
  if negb is_admin then (s, [Responded AdminRequired])
  else
    (BotState (reputation s) (reputation_log s) (current_votes s)
       (disabled_voters s)
       (OrdDict.set (IntKey guild) channel (reputation_log_channels s))
       (token_messages s),
     [DataSaved; Responded (LogChannelSet channel)]).

Definition repdisable (is_admin : bool) (user : Z) (s : bot_state)
    : bot_state * list effect :=
  if negb is_admin then (s, [Responded AdminRequired])
  else
    let now_disabled := negb (bool_decide (user ∈ disabled_voters s)) in
    let dv := if now_disabled then disabled_voters s ∪ {[user]}
              else disabled_voters s ∖ {[user]} in
    (BotState (reputation s) (reputation_log s) (current_votes s) dv
       (reputation_log_channels s) (token_messages s),
     [DataSaved; Responded (VoterToggled user now_disabled)]).

(** *** repremove *)

Record removal_results : Type := RemovalResults {
  success : list pystr;
  invalid : list pystr;
  already_reversed : list pystr
}.

(** [max(0, d[vote_type] - 1)] *)
Definition floor_decrement (n : Z) : Z := Z.max 0 (n - 1).

(** Lines 426-431: the token side of an admin removal. *)
Definition remove_from_token (v : vote) (u : user_data) : user_data :=
  if bool_decide (token_address v ≠ lit "admin_added") then
    match tokens u !! token_address v with
    | Some t =>
        let vt := vote_type v in
        let t := set_token_count vt (floor_decrement (token_count vt t)) t in
        let t :=
          if contains (voter_id v) (voters vt t)
          then set_voters vt (list_remove (voter_id v) (voters vt t)) t
          else t in
        set_tokens (<[token_address v := t]> (tokens u)) u
    | None => u
    end
  else u.

(** Lines 423-431: "Remove from counts". *)
Definition remove_from_counts (v : vote) (rep : gmap pystr user_data)
    : gmap pystr user_data :=
  let author_key := str_of_int (author_id v) in
  match rep !! author_key with
  | Some u =>
      let vt := vote_type v in
      let u := set_user_count vt (floor_decrement (user_count vt u)) u in
      <[author_key := remove_from_token v u]> rep
  | None => rep
  end.

(** One round of the loop over [raw_ids]. *)
Definition repremove_round (acc : bot_state * removal_results) (vid : pystr)
    : bot_state * removal_results :=
  let '(s, res) := acc in
  match OrdDict.get vid (reputation_log s) with
  | None =>
      (s, RemovalResults (success res) (invalid res ++ [vid]) (already_reversed res))
  | Some v =>
      if reversed v
      then (s, RemovalResults (success res) (invalid res) (already_reversed res ++ [vid]))
      else
        let rep := remove_from_counts v (reputation s) in
        let log := OrdDict.set vid (set_reversed true v) (reputation_log s) in
        let cur := delete vid (current_votes s) in
        (BotState rep log cur (disabled_voters s) (reputation_log_channels s)
           (token_messages s),
         RemovalResults (success res ++ [vid]) (invalid res) (already_reversed res))
  end.

(** [[vid.strip() for vid in vote_ids.split(',')]] *)
Definition raw_ids (vote_ids : pystr) : list pystr :=
  strip <$> split_on 44 vote_ids.

Definition repremove (is_admin : bool) (vote_ids : pystr) (s : bot_state)
    : bot_state * list effect :=
  if negb is_admin then (s, [Responded AdminRequired])
  else
    let '(s, res) :=
      foldl repremove_round (s, RemovalResults [] [] []) (raw_ids vote_ids) in
    (s, [DataSaved;
         Responded (RemovalReport (success res) (already_reversed res) (invalid res))]).

(** ** Reaction events *)

Record reaction_add : Type := ReactionAdd {
  ra_user : Z;
  ra_user_bot : bool;
  ra_message : Z;
  ra_emoji : pystr;
  ra_guild : Z;
  ra_stamp : stamp
}.

(** Lines 513-534: the author reacted to the message about themselves. *)
Definition reject_self_vote (env : platform) (message user : Z) : list effect :=
  if remove_fails env then [ErrorLogged]
  else
    ReactionRemoved message user ::
    match dm env with
    | DmDelivered => [DirectNotice user]
    | DmForbidden =>
        if ctx_send_fails env then [ErrorLogged] else [ChannelNotice message user]
    | DmFailed => [ErrorLogged]
    end.

(** Lines 551-568: the token entry the vote goes to, created or with its
    symbol overwritten. *)
Definition open_token (token_address token_symbol : pystr) (u : user_data)
    : token_data :=
  match tokens u !! token_address with
  | None => TokenData 0 0 [] [] (Some token_symbol)
  | Some t => set_symbol (Some token_symbol) t
  end.

(** Lines 570-577: one round of "Remove existing votes". *)
Definition remove_existing (voter : Z)
    (acc : bool * user_data * token_data) (vt : vote_kind)
    : bool * user_data * token_data :=
  let '(existing_votes, u, t) := acc in
  if contains voter (voters vt t) then
    let t := set_voters vt (list_remove voter (voters vt t)) t in
    let t := set_token_count vt (token_count vt t - 1) t in
    let u := set_user_count vt (user_count vt u - 1) u in
    (true, u, t)
  else acc.

(** Lines 579-582: "Add new vote". *)
Definition add_new_vote (voter : Z) (new_vote : vote_kind)
    (u : user_data) (t : token_data) : user_data * token_data :=
  let t := set_voters new_vote (voters new_vote t ++ [voter]) t in
  let t := set_token_count new_vote (token_count new_vote t + 1) t in
  let u := set_user_count new_vote (user_count new_vote u + 1) u in
  (u, t).

(** Lines 551-582 on the author's entry: the token entry is opened, the
    voter's standing votes on it are taken out, the new vote is counted. *)
Definition cast_vote (voter : Z) (new_vote : vote_kind)
    (address sym : pystr) (u : user_data) : bool * user_data :=
  let t := open_token address sym u in
  let '(existing_votes, u, t) :=
    foldl (remove_existing voter) (false, u, t) [Good; Bad] in
  let '(u, t) := add_new_vote voter new_vote u t in
  (existing_votes, set_tokens (<[address := t]> (tokens u)) u).

Definition on_reaction_add (env : platform) (ev : reaction_add) (s : bot_state)
    : bot_state * list effect :=
  if ra_user_bot ev || bool_decide (ra_user ev ∈ disabled_voters s) then (s, [])
  else
  match token_messages s !! ra_message ev with
  | None => (s, [])
  | Some message_info =>
  if bool_decide (ra_user ev = author message_info)
  then (s, reject_self_vote env (ra_message ev) (ra_user ev))
  else if negb (is_vote_emoji (ra_emoji ev)) then (s, [])
  else
    let author_id := author message_info in
    let address := info_token_address message_info in
    let voter_id := ra_user ev in
    let new_vote := vote_of_emoji (ra_emoji ev) in
    let author_key := str_of_int author_id in
    let '(existing_votes, u) :=
      cast_vote voter_id new_vote address (token_symbol message_info)
        (default empty_user (reputation s !! author_key)) in
    let vote_data :=
      Vote (ra_stamp ev).1 voter_id author_id address new_vote
        (ra_message ev) (ra_stamp ev).2 false in
    let s :=
      BotState (<[author_key := u]> (reputation s))
        (OrdDict.set (ra_stamp ev).1 vote_data (reputation_log s))
        (<[(ra_stamp ev).1 := vote_data]> (current_votes s))
        (disabled_voters s) (reputation_log_channels s) (token_messages s) in
    let heading :=
      if existing_votes then lit "Vote Switched" else lit "Vote Added" in
    match log_channel env (ra_guild ev) s with
    | Some ch =>
        if log_send_fails env then (s, [ErrorLogged])
        else (s, [AuditEmbed ch heading; DataSaved])
    | None => (s, [DataSaved])
    end
  end.

Inductive member_answer : Type :=
  | MemberNotFound
  | Member (is_bot : bool).

Record reaction_remove : Type := ReactionRemove {
  rr_guild : Z;
  rr_guild_found : bool;
  rr_user : Z;
  rr_member : member_answer;
  rr_message : Z;
  rr_emoji_name : pystr
}.

(** The test of lines 672-677 on one log entry. *)
Definition matches (voter author : Z) (address : pystr)
    (vt : vote_kind) (message : Z) (v : vote) : bool :=
  bool_decide (voter_id v = voter) && bool_decide (author_id v = author)
  && bool_decide (token_address v = address)
  && bool_decide (vote_type v = vt) && bool_decide (message_id v = message)
  && negb (reversed v).

(** Lines 671-681: "Update logs".  Every entry of the log is visited in
    insertion order; a matching entry is marked and leaves
    [bot.current_votes]. *)
Fixpoint update_logs (test : vote → bool) (log : OrdDict.t pystr vote)
    (cur : gmap pystr vote) : OrdDict.t pystr vote * gmap pystr vote :=
  match log with
  | [] => ([], cur)
  | (vid, v) :: log' =>
      if test v then
        let '(log'', cur') := update_logs test log' (delete vid cur) in
        ((vid, set_reversed true v) :: log'', cur')
      else
        let '(log'', cur') := update_logs test log' cur in
        ((vid, v) :: log'', cur')
  end.

(** Lines 666-668: "Remove vote", on the author's entry [u] and its
    token entry [t]. *)
Definition retract_vote (voter : Z) (vt : vote_kind) (address : pystr)
    (u : user_data) (t : token_data) : user_data :=
  let t := set_voters vt (list_remove voter (voters vt t)) t in
  let t := set_token_count vt (floor_decrement (token_count vt t)) t in
  let u := set_user_count vt (floor_decrement (user_count vt u)) u in
  set_tokens (<[address := t]> (tokens u)) u.

Definition on_raw_reaction_remove (env : platform) (ev : reaction_remove)
    (s : bot_state) : bot_state * list effect :=
  if negb (rr_guild_found ev) || bool_decide (rr_user ev ∈ disabled_voters s)
  then (s, [])
  else
  match rr_member ev with
  | MemberNotFound => (s, [])
  | Member is_bot =>
  if is_bot then (s, [])
  else
  match token_messages s !! rr_message ev with
  | None => (s, [])
  | Some message_info =>
  if bool_decide (rr_user ev = author message_info) then (s, [])
  else if negb (is_vote_emoji (rr_emoji_name ev)) then (s, [])
  else
    let author_id := author message_info in
    let address := info_token_address message_info in
    let voter_id := rr_user ev in
    let vt := vote_of_emoji (rr_emoji_name ev) in
    let author_key := str_of_int author_id in
    match reputation s !! author_key with
    | None => (s, [])
    | Some u =>
    match tokens u !! address with
    | None => (s, [])
    | Some t =>
    if contains voter_id (voters vt t) then
      let u := retract_vote voter_id vt address u t in
      let '(log, cur) :=
        update_logs (matches voter_id author_id address vt (rr_message ev))
          (reputation_log s) (current_votes s) in
      let s :=
        BotState (<[author_key := u]> (reputation s)) log cur
          (disabled_voters s) (reputation_log_channels s) (token_messages s) in
      match log_channel env (rr_guild ev) s with
      | Some ch =>
          if log_send_fails env then (s, [ErrorLogged])
          else (s, [AuditEmbed ch (lit "Vote Removed"); DataSaved])
      | None => (s, [DataSaved])
      end
    else (s, [])
    end end
  end end.

(** The ids the loop of "Update logs" marks: those of the log entries
    that pass the test. *)
Definition matched (test : vote → bool) (log : OrdDict.t pystr vote)
    (vid : pystr) : bool :=
  existsb (λ kv, bool_decide (kv.1 = vid) && test kv.2) log.

Definition mark_reversed (test : vote → bool) (v : vote) : vote :=
  if test v then set_reversed true v else v.

(** *** on_message *)

Definition SPECIAL_USER_ID : Z := 1081815963990761542.

(** What the platform answers when the handler posts its voting message
    for an embed and adds the two reactions to it: [channel.send] raises,
    or the message gets an id and then both reactions are added, or the
    first [add_reaction] raises, or the second. *)
Inductive reactions_answer : Type := BothAdded | GreenFails | RedFails.

Inductive post_answer : Type :=
  | SendFails
  | Posted (id : Z) (reactions : reactions_answer).

Record message : Type := Message {
  msg_author : Z;
  content : pystr;
  embeds : list embed;
  (** [message.guild.members]: name and id; [None] is a message outside
      a guild, where [message.guild] is [None] *)
  guild_members : option (list (pystr * Z));
  (** the platform's answer to the post made for the embed at a position
      of [message.embeds] *)
  post : nat → post_answer
}.

Definition find_member (name : pystr) (members : list (pystr * Z)) : option Z :=
  snd <$> List.find (λ m, bool_decide (m.1 = name)) members.

Section OnMessage.
Variable unicode_upper : N → pystr.

(** The loop over the embeds, [i] being the position of the first of
    [es] in [message.embeds].  An embed with a footer whose first word
    names a member gets a voting message; the handler returns after the
    first one whose two reactions were added.  An exception (no word in
    the footer, no guild, a failing [channel.send] or [add_reaction]) is
    caught inside the loop, logged, and the loop goes on with the next
    embed; [bot.token_messages] is written between [channel.send] and the
    reactions, so an entry written before a failing reaction stays. *)
Fixpoint track_first_embed (m : message) (i : nat) (es : list embed) (s : bot_state)
    : bot_state * list effect :=
  match es with
  | [] => (s, [])
  | e :: es' =>
      match footer_text e with
      | [] => track_first_embed m (S i) es' s
      | _ =>
          match split_ws (footer_text e) with
          | [] =>
              let '(s', effs) := track_first_embed m (S i) es' s in
              (s', ErrorLogged :: effs)
          | username :: _ =>
              match guild_members m with
              | None =>
                  let '(s', effs) := track_first_embed m (S i) es' s in
                  (s', ErrorLogged :: effs)
              | Some members =>
              match find_member username members with
              | None => track_first_embed m (S i) es' s
              | Some member =>
                  let address := extract_token_address e in
                  let sym := extract_token_symbol unicode_upper (content m) in
                  let sym :=
                    if bool_decide (address = lit "unknown")
                       || bool_decide (sym = [])
                    then default_symbol address
                    else sym in
                  let u := default (UserData 0 0 ∅)
                             (reputation s !! str_of_int member) in
                  match post m i with
                  | SendFails =>
                      let '(s', effs) := track_first_embed m (S i) es' s in
                      (s', ErrorLogged :: effs)
                  | Posted id reactions =>
                      let s1 :=
                        BotState (reputation s) (reputation_log s)
                          (current_votes s) (disabled_voters s)
                          (reputation_log_channels s)
                          (<[id := MessageInfo member address sym]>
                             (token_messages s)) in
                      let posted := RepMessagePosted id member (good u) (bad u) in
                      match reactions with
                      | BothAdded =>
                          (s1, [posted; ReactionAdded id GREEN; ReactionAdded id RED])
                      | GreenFails =>
                          let '(s', effs) := track_first_embed m (S i) es' s1 in
                          (s', posted :: ErrorLogged :: effs)
                      | RedFails =>
                          let '(s', effs) := track_first_embed m (S i) es' s1 in
                          (s', posted :: ReactionAdded id GREEN :: ErrorLogged :: effs)
                      end
                  end
              end
              end
          end
      end
  end.

Definition on_message (m : message) (s : bot_state) : bot_state * list effect :=
  if bool_decide (msg_author m = SPECIAL_USER_ID)
  then track_first_embed m 0 (embeds m) s
  else (s, []).
End OnMessage.

(** ** Well-formed aggregates *)

(** The voter lists of a token entry: no voter twice in a list, none in
    both lists. *)
Definition token_ok (t : token_data) : Prop :=
  NoDup (goodvoters t) ∧ NoDup (badvoters t)
  ∧ ∀ v, v ∈ goodvoters t → v ∉ badvoters t.

Definition user_ok (u : user_data) : Prop :=
  ∀ a t, tokens u !! a = Some t → token_ok t.

Definition reputation_ok (rep : gmap pystr user_data) : Prop :=
  ∀ key u, rep !! key = Some u → user_ok u.

(** No voter is in both voter lists of a token entry. *)
Definition mutually_exclusive (rep : gmap pystr user_data) : Prop :=
  ∀ key u a t v,
    rep !! key = Some u → tokens u !! a = Some t →
    ¬ (v ∈ goodvoters t ∧ v ∈ badvoters t).

(** Equal counters and equal voter sets; the order inside a voter list
    and the symbol are left out of the comparison. *)
Definition token_equiv (t t' : token_data) : Prop :=
  tgood t' = tgood t ∧ tbad t' = tbad t
  ∧ goodvoters t' ≡ₚ goodvoters t ∧ badvoters t' ≡ₚ badvoters t.

Definition user_equiv (u u' : user_data) : Prop :=
  good u' = good u ∧ bad u' = bad u
  ∧ ∀ a, option_Forall2 token_equiv (tokens u !! a) (tokens u' !! a).

Definition aggregates_equiv (rep rep' : gmap pystr user_data) : Prop :=
  ∀ key, option_Forall2 user_equiv (rep !! key) (rep' !! key).

(** Two deliveries of one reaction: the same actor, message and glyph;
    the generated id and time differ. *)
Definition same_reaction (ev ev' : reaction_add) : Prop :=
  ra_user ev' = ra_user ev ∧ ra_user_bot ev' = ra_user_bot ev
  ∧ ra_message ev' = ra_message ev ∧ ra_emoji ev' = ra_emoji ev.

(** ** The bot as a machine

    The process holds the globals in memory and the five files on disk.
    Every handler reads and writes the globals between two of its [await]
    points, so the handlers are run one after another on the memory; when
    a handler reaches [save_data] the files are rewritten from the memory
    it leaves. *)

Record world : Type := World {
  mem : bot_state;
  disk : files
}.

Definition boot : world := World initial_state no_files.

Inductive event : Type :=
  | OnMessage (m : message)
  | OnReactionAdd (env : platform) (ev : reaction_add)
  | OnRawReactionRemove (env : platform) (ev : reaction_remove)
  | RepAdd (env : platform) (is_admin : bool) (caller guild user amount : Z)
      (vt : vote_kind) (fresh : nat → stamp)
  | RepLogs (is_admin : bool) (guild channel : Z)
  | RepDisable (is_admin : bool) (user : Z)
  | RepRemove (is_admin : bool) (vote_ids : pystr)
  | OnReady
  | Restart.

Definition saved (effs : list effect) : bool :=
  existsb (λ e, match e with DataSaved => true | _ => false end) effs.

Definition commit (w : world) (r : bot_state * list effect) : world * list effect :=
  (World r.1 (if saved r.2 then save_data r.1 else disk w), r.2).

Section Machine.
Variable unicode_upper : N → pystr.

Definition step (w : world) (e : event) : world * list effect :=
  match e with
  | OnMessage m => commit w (on_message unicode_upper m (mem w))
  | OnReactionAdd env ev => commit w (on_reaction_add env ev (mem w))
  | OnRawReactionRemove env ev => commit w (on_raw_reaction_remove env ev (mem w))
  | RepAdd env is_admin caller guild user amount vt fresh =>
      commit w (repadd env is_admin caller guild user amount vt fresh (mem w))
  | RepLogs is_admin guild channel => commit w (replogs is_admin guild channel (mem w))
  | RepDisable is_admin user => commit w (repdisable is_admin user (mem w))
  | RepRemove is_admin vote_ids => commit w (repremove is_admin vote_ids (mem w))
  | OnReady => (World (load_data (disk w) (mem w)) (disk w), [])
  | Restart => (World (load_data (disk w) initial_state) (disk w), [])
  end.

(** The world after a sequence of events, from a first start with no
    files. *)
Definition run_from (w : world) (es : list event) : world :=
  foldl (λ w e, (step w e).1) w es.

Definition run (es : list event) : world := run_from boot es.
End Machine.

(** The invariant of the machine: the aggregates in memory and those of
    the saved file are well formed. *)
Definition world_ok (w : world) : Prop :=
  reputation_ok (reputation (mem w))
  ∧ ∀ r, reputation_json (disk w) = Some r → reputation_ok r.

(** *** A small scene used by the closed examples

    The short ids stand for the generated uuids, which the program uses as
    dictionary keys only. *)

Module Scene.
Definition quiet : platform := Platform false DmDelivered false (λ _, true) false.
Definition alice : Z := 100.
Definition vera : Z := 201.
Definition walt : Z := 202.
Definition guild : Z := 1.
Definition voting_message : Z := 5000.

(** The special bot posts an embed whose footer names alice; no address
    is in it, so the token is ["unknown"]. *)
Definition call : message :=
  Message SPECIAL_USER_ID (lit "")
    [Embed (lit "New call") (lit "") [] (lit "alice today")]
    (Some [(lit "alice", alice); (lit "vera", vera); (lit "walt", walt)])
    (λ _, Posted voting_message BothAdded).

Definition adds (user : Z) (emoji : pystr) (id : string) : event :=
  OnReactionAdd quiet
    (ReactionAdd user false voting_message emoji guild (lit id, lit "2025-01-01T00:00:00+00:00")).

Definition removes (user : Z) (emoji : pystr) : event :=
  OnRawReactionRemove quiet
    (ReactionRemove guild true user (Member false) voting_message emoji).

Definition adds_at (user : Z) (emoji : pystr) (id now : string) : event :=
  OnReactionAdd quiet
    (ReactionAdd user false voting_message emoji guild (lit id, lit now)).

Definition vera_removes_green : reaction_remove :=
  ReactionRemove guild true vera (Member false) voting_message GREEN.

Definition admin_removes (ids : string) : event := RepRemove true (lit ids).

(** vera votes good; while she is disabled she takes her reaction back,
    which is not processed; enabled again she votes good once more. *)
Definition two_active_good_votes : list event :=
  [OnMessage call;
   adds_at vera GREEN "v1" "2025-01-01T00:00:00+00:00";
   RepDisable true vera;
   removes vera GREEN;
   RepDisable true vera;
   adds_at vera GREEN "v2" "2025-01-02T00:00:00+00:00"].

(** A state as an old set of files can leave it: a logged vote for an
    author who has no entry in the reputation data. *)
Definition orphan_vote : vote :=
  Vote (lit "v9") vera alice (lit "unknown") Good voting_message
    (lit "2024-12-31T00:00:00+00:00") false.

(** Two token entries as an old [reputation.json] has them, without the
    symbol field, next to a current one. *)
Definition legacy_state : bot_state :=
  BotState
    {[str_of_int alice :=
        UserData 2 1
          {[lit "unknown" := TokenData 1 0 [vera] [] None;
            lit "0xAbCdEf0123" := TokenData 1 0 [walt] [] None;
            lit "So1anaAddr" := TokenData 0 1 [] [vera] (Some (lit "SOL"))]}]}
    [(lit "v9", orphan_vote)] {[lit "v9" := orphan_vote]} {[walt]} [] ∅.

Definition orphan_state : bot_state :=
  BotState ∅ [(lit "v9", orphan_vote)] {[lit "v9" := orphan_vote]} ∅ [] ∅.

Definition thumbs_up : pystr := [128077%N].

(** alice reacts to the message about herself with a glyph that is no
    vote. *)
Definition self_thumbs : reaction_add :=
  ReactionAdd alice false voting_message thumbs_up guild
    (lit "v0", lit "2025-01-01T00:00:00+00:00").
End Scene.

(** ** Notions used by the further properties *)

(** The text the address extractor searches: title, description, every
    field's name and value, footer text. *)
Definition embed_text (e : embed) : pystr :=
  foldl (λ acc f, acc ++ (f.1 ++ f.2)) (title e ++ description e) (fields e)
  ++ footer_text e.

(** A pattern without a capture group. *)
Fixpoint no_group (r : Re.regex) : Prop :=
  match r with
  | Re.Grp _ => False
  | Re.Seq r1 r2 => no_group r1 ∧ no_group r2
  | _ => True
  end.

(** A pattern with the symbol group once, and literal text around it. *)
Fixpoint one_symbol_group (r : Re.regex) : Prop :=
  match r with
  | Re.Grp r1 => r1 = Re.between 2 20 symbol_class
  | Re.Seq r1 r2 =>
      (no_group r1 ∧ one_symbol_group r2) ∨ (one_symbol_group r1 ∧ no_group r2)
  | _ => False
  end.

Definition is_ascii (c : N) : Prop := (c < 128)%N.

(** [[1-9a-fA-F]]: a hex digit other than 0. *)
Definition nonzero_hex (c : N) : bool :=
  in_range 49 57 c || in_range 97 102 c || in_range 65 70 c.

(** A captured symbol: 2 to 20 characters of [[A-Za-z0-9 ]]. *)
Definition symbol_label (lbl : pystr) : Prop :=
  Forall (λ c, symbol_class c = true) lbl ∧ (2 ≤ List.length lbl ≤ 20)%nat.

(** [str.upper] on one ASCII character. *)
Definition ascii_upper (c : N) : N := if is_ascii_lower c then (c - 32)%N else c.

(** A property of every entry of [bot.reputation], in memory and in the
    saved file. *)
Definition rep_Forall (P : user_data → Prop) (rep : gmap pystr user_data) : Prop :=
  ∀ key u, rep !! key = Some u → P u.

Definition world_Forall (P : user_data → Prop) (w : world) : Prop :=
  rep_Forall P (reputation (mem w))
  ∧ ∀ r, reputation_json (disk w) = Some r → rep_Forall P r.

(** Every token entry has its symbol. *)
Definition user_symbols (u : user_data) : Prop :=
  ∀ a t, tokens u !! a = Some t → symbol t ≠ None.

(** No counter of the entry is below zero. *)
Definition user_nonneg (u : user_data) : Prop :=
  0 ≤ good u ∧ 0 ≤ bad u
  ∧ ∀ a t, tokens u !! a = Some t → 0 ≤ tgood t ∧ 0 ≤ tbad t.

Definition is_reaction_add (e : event) : bool :=
  match e with OnReactionAdd _ _ => true | _ => false end.

(** The record of an id as far as it is active: in the log and not
    reversed. *)
Definition active_record (log : OrdDict.t pystr vote) (id : pystr) : option vote :=
  match OrdDict.get id log with
  | Some v => if reversed v then None else Some v
  | None => None
  end.

(** [bot.current_votes] is the active part of [bot.reputation_log], and
    the log has each id once. *)
Definition ledger_synced (log : OrdDict.t pystr vote) (cur : gmap pystr vote) : Prop :=
  NoDup log.*1 ∧ ∀ id, cur !! id = active_record log id.

Definition world_synced (w : world) : Prop :=
  ledger_synced (reputation_log (mem w)) (current_votes (mem w))
  ∧ (disk w = no_files
     ∨ ∃ s0, disk w = save_data s0
             ∧ ledger_synced (reputation_log s0) (current_votes s0)).

(** The record the reaction handler writes for an event. *)
Definition vote_record (ev : reaction_add) (info : message_info) : vote :=
  Vote (ra_stamp ev).1 (ra_user ev) (author info) (info_token_address info)
    (vote_of_emoji (ra_emoji ev)) (ra_message ev) (ra_stamp ev).2 false.

(** The record [repadd] writes for a stamp. *)
Definition admin_record (author voter : Z) (vt : vote_kind) (st : stamp) : vote :=
  Vote st.1 voter author (lit "admin_added") vt 0 st.2 false.

(** The removal of the reaction that [ev] added, as the platform reports
    it for a member who is no bot. *)
Definition removal_of (ev : reaction_add) : reaction_remove :=
  ReactionRemove (ra_guild ev) true (ra_user ev) (Member false)
    (ra_message ev) (ra_emoji ev).

Definition indicator (b : bool) : Z := if b then 1 else 0.

(** The token entry a vote of [ev] meets: the one under the author and
    address of the tracked message, or a blank one. *)
Definition standing_user (s : bot_state) (info : message_info) : user_data :=
  default empty_user (reputation s !! str_of_int (author info)).

Definition standing_token (s : bot_state) (info : message_info) : token_data :=
  default (TokenData 0 0 [] [] None)
    (tokens (standing_user s info) !! info_token_address info).

(** The reaction of [ev] reaches the vote accounting: the actor is no bot
    and not disabled, the message is tracked with [info], the actor is not
    its author and the glyph is one of the two. *)
Definition counted (ev : reaction_add) (s : bot_state) (info : message_info) : Prop :=
  ra_user_bot ev = false
  ∧ (ra_user ev ∉ disabled_voters s)
  ∧ token_messages s !! ra_message ev = Some info
  ∧ ra_user ev ≠ author info
  ∧ is_vote_emoji (ra_emoji ev) = true.

(** The removal of [ev] reaches the retraction: guild and member are
    found, the member is no bot and not disabled, the message is tracked
    with [info], the member is not its author, the glyph is one of the two,
    and the member stands in the voter list of the glyph's type of the
    token entry [t] of the author's entry [u]. *)
Definition retracted (ev : reaction_remove) (s : bot_state)
    (info : message_info) (u : user_data) (t : token_data) : Prop :=
  rr_guild_found ev = true
  ∧ (rr_user ev ∉ disabled_voters s)
  ∧ rr_member ev = Member false
  ∧ token_messages s !! rr_message ev = Some info
  ∧ rr_user ev ≠ author info
  ∧ is_vote_emoji (rr_emoji_name ev) = true
  ∧ reputation s !! str_of_int (author info) = Some u
  ∧ tokens u !! info_token_address info = Some t
  ∧ rr_user ev ∈ voters (vote_of_emoji (rr_emoji_name ev)) t.

(** ** Read-only commands *)

(** [list.sort(key=...)] and [sorted(..., key=...)]: the keys are compared
    with [<] and elements with equal keys keep their order.  Insertion
    from the right, each element going past the elements whose key is
    strictly smaller, is such a sort. *)
Section Sort.
Context {A K : Type}.
Variable klt : K → K → bool.
Variable key : A → K.

Fixpoint insert_by (x : A) (l : list A) : list A :=
  match l with
  | [] => [x]
  | y :: l' => if klt (key y) (key x) then y :: insert_by x l' else x :: y :: l'
  end.

Definition sort_by (l : list A) : list A := foldr insert_by [] l.
End Sort.

(** [reverse=True]: the comparison is turned around, equal keys still keep
    their order. *)
Definition reversed_order {K : Type} (klt : K → K → bool) : K → K → bool :=
  λ a b, klt b a.

(** [<] on [str]: by code points, a proper prefix first. *)
Fixpoint str_lt (a b : pystr) : bool :=
  match a, b with
  | _, [] => false
  | [], _ :: _ => true
  | x :: a', y :: b' => (x <? y)%N || ((x =? y)%N && str_lt a' b')
  end.

(** [<] on tuples of three [int]. *)
Definition tuple_lt (a b : Z * Z * Z) : bool :=
  let '(a1, a2, a3) := a in
  let '(b1, b2, b3) := b in
  (a1 <? b1) || ((a1 =? b1) && ((a2 <? b2) || ((a2 =? b2) && (a3 <? b3)))).

(** [d.items()] of a dictionary kept as a finite map: the entries in the
    order [order] of its keys. *)
Definition dict_items {V : Type} (order : list pystr) (d : gmap pystr V)
    : list (pystr * V) :=
  omap (λ k, pair k <$> d !! k) order.

(** [order] is an iteration order of [d]: its keys, each once. *)
Definition iterates {V : Type} (order : list pystr) (d : gmap pystr V) : Prop :=
  order ≡ₚ (map_to_list d).*1.

(** *** repboard *)

Record board_entry : Type := BoardEntry {
  be_member : Z;
  be_score : Z;
  be_good : Z;
  be_bad : Z
}.

(** The embed of the leaderboard: the line for nobody, or the thumbnail
    member, the rows (the medal of a row is its position) and the count of
    the last line. *)
Inductive board : Type :=
  | NoParticipants
  | Board (thumbnail : Z) (rows : list board_entry) (participants : nat).

(** One round of the loop over [bot.reputation.items()]; [get_member]
    answers for [int(user_id_str)] and [guild.get_member] together, [None]
    when the key is no number or the guild has no such member. *)
Definition board_row (get_member : pystr → option Z) (kv : pystr * user_data)
    : option board_entry :=
  match get_member kv.1 with
  | None => None
  | Some member =>
      if bool_decide (good kv.2 = 0) && bool_decide (bad kv.2 = 0) then None
      else Some (BoardEntry member (good kv.2 - bad kv.2) (good kv.2) (bad kv.2))
  end.

Definition board_key (e : board_entry) : Z * Z * Z :=
  (- be_score e, - be_good e, be_bad e).

Definition repboard (get_member : pystr → option Z) (order : list pystr)
    (s : bot_state) : board :=
  let rep_list :=
    sort_by tuple_lt board_key
      (omap (board_row get_member) (dict_items order (reputation s))) in
  match rep_list with
  | [] => NoParticipants
  | top :: _ => Board (be_member top) (take 10 rep_list) (List.length rep_list)
  end.

(** *** create_rep_embed and rep *)

(** A block of the "Top Tokens" field: the symbol, the address when the
    symbol is a link, and the three numbers; the medal is the position. *)
Record token_field : Type := TokenField {
  tf_symbol : pystr;
  tf_link : option pystr;
  tf_good : Z;
  tf_bad : Z;
  tf_score : Z
}.

Record profile : Type := Profile {
  total_score : Z;
  total_good : Z;
  total_bad : Z;
  top_tokens : option (list token_field)
}.

Definition token_votes (kv : pystr * token_data) : Z := tgood kv.2 + tbad kv.2.

Definition token_field_of (kv : pystr * token_data) : token_field :=
  let token_symbol := default (slice_to 6 kv.1 ++ lit "...") (symbol kv.2) in
  TokenField token_symbol
    (if bool_decide (kv.1 = lit "unknown") || bool_decide (token_symbol = [])
     then None else Some kv.1)
    (tgood kv.2) (tbad kv.2) (tgood kv.2 - tbad kv.2).

Definition create_rep_embed (order : list pystr) (target_user : Z) (s : bot_state)
    : profile :=
  let user_data := default empty_user (reputation s !! str_of_int target_user) in
  let token_entries :=
    sort_by (reversed_order Z.ltb) token_votes
      (dict_items order (tokens user_data)) in
  Profile (good user_data - bad user_data) (good user_data) (bad user_data)
    (match token_entries with
     | [] => None
     | _ => Some (token_field_of <$> take 5 token_entries)
     end).

Definition rep (order : list pystr) (caller : Z) (user : option Z) (s : bot_state)
    : profile :=
  create_rep_embed order (default caller user) s.

(** *** repmanager *)

Record vote_field : Type := VoteField {
  vf_vote : vote;
  vf_symbol : pystr
}.

(** What the command answers; [ManagerRaised] is the exception of
    [datetime.fromisoformat], which ends the command with no answer. *)
Inductive manager_reply : Type :=
  | ManagerDenied
  | NoVotesFound
  | VoteManager (fields : list vote_field)
  | ManagerRaised.

Definition vote_symbol (s : bot_state) (v : vote) : pystr :=
  if bool_decide (token_address v ≠ lit "admin_added")
  then
    let author_data := reputation s !! str_of_int (author_id v) in
    let token_data := author_data ≫= λ u, tokens u !! token_address v in
    default (slice_to 6 (token_address v) ++ lit "...") (token_data ≫= symbol)
  else lit "unknown".

Definition repmanager (fromisoformat_ok : pystr → bool) (order : list pystr)
    (is_admin : bool) (s : bot_state) : manager_reply :=
  if negb is_admin then ManagerDenied
  else
    let all_votes :=
      sort_by (reversed_order str_lt) timestamp
        (dict_items order (current_votes s)).*2 in
    match all_votes with
    | [] => NoVotesFound
    | _ =>
        let shown := take 10 all_votes in
        if forallb (λ v, fromisoformat_ok (timestamp v)) shown
        then VoteManager ((λ v, VoteField v (vote_symbol s v)) <$> shown)
        else ManagerRaised
    end.

(** The orders of the three listings, written out. *)
Definition board_before (a b : board_entry) : Prop :=
  be_score b < be_score a
  ∨ (be_score a = be_score b
     ∧ (be_good b < be_good a ∨ (be_good a = be_good b ∧ be_bad a ≤ be_bad b))).

Definition not_older (v w : vote) : Prop := str_lt (timestamp v) (timestamp w) = false.

(** * Properties *)

(** ** Sanity of the string and pattern layer *)

Example extract_fallback_leading_dash :
  extract_token_symbol no_unicode_case (lit "  - Hello World - rest") = lit "".
Proof. vm_compute. reflexivity. Qed.

Example extract_fallback_glyph_and_punctuation :
  extract_token_symbol no_unicode_case
    (128640%N :: lit "  **hello,world!! - rest") = lit "HELLO,WORLD".
Proof. vm_compute. reflexivity. Qed.

Example extract_bold_too_long :
  extract_token_symbol no_unicode_case (lit "**$abcdefghijklmnopqrstuvwxyz**")
  = lit "ABCDEFGHIJKLMNOPQRST".
Proof. vm_compute. reflexivity. Qed.

Example str_of_int_examples :
  str_of_int 1081815963990761542 = lit "1081815963990761542"
  ∧ str_of_int (-15) = lit "-15" ∧ str_of_int 0 = lit "0".
Proof. vm_compute. repeat split; reflexivity. Qed.

Example raw_ids_example :
  raw_ids (lit " v1, v2 ,,v3") = [lit "v1"; lit "v2"; lit ""; lit "v3"].
Proof. vm_compute. reflexivity. Qed.

(** ** The symbol extractor *)

(** C8, as stated, fails on its second case: the bare-dollar pattern
    allows spaces, so the group of ["$BAR baz"] is the whole of
    ["BAR baz"]. *)
Lemma extract_dollar_not_first_word :
  extract_token_symbol no_unicode_case (lit "$BAR baz") ≠ lit "BAR".
Proof. vm_compute. discriminate. Qed.

(** C8, amended: in precedence order the extractor gives ["FOO"] for
    ["**$FOO**"], ["BAR BAZ"] for ["$BAR baz"], ["BAZ"] for
    ["[BAZ](http://x)"], ["HELLO"] for ["Hello World - rest"] and the empty
    string for the empty input, whatever the case table of the runtime. *)
Theorem extract_token_symbol_literal_cases :
  ∀ unicode_upper : N → pystr,
    extract_token_symbol unicode_upper (lit "**$FOO**") = lit "FOO"
    ∧ extract_token_symbol unicode_upper (lit "$BAR baz") = lit "BAR BAZ"
    ∧ extract_token_symbol unicode_upper (lit "[BAZ](http://x)") = lit "BAZ"
    ∧ extract_token_symbol unicode_upper (lit "Hello World - rest") = lit "HELLO"
    ∧ extract_token_symbol unicode_upper (lit "") = lit "".
Proof. intros unicode_upper. vm_compute. repeat split; reflexivity. Qed.

(** ** Reaction added: order of the checks *)

(** C7, as stated, fails: the author of a tracked message who adds a
    glyph that is no vote has the reaction removed and is sent the notice. *)
Lemma self_reaction_with_other_glyph_not_ignored :
  let s := mem (run no_unicode_case [OnMessage Scene.call]) in
  is_vote_emoji Scene.thumbs_up = false
  ∧ on_reaction_add Scene.quiet Scene.self_thumbs s
    = (s, [ReactionRemoved Scene.voting_message Scene.alice;
           DirectNotice Scene.alice]).
Proof. vm_compute. split; reflexivity. Qed.

Lemma reject_self_vote_nonempty env message user :
  reject_self_vote env message user ≠ [].
Proof.
  unfold reject_self_vote.
  destruct (remove_fails env); [discriminate|]. discriminate.
Qed.

(** C7, amended: the self-vote check comes before the glyph check.  For
    an actor who is no bot and not disabled, on a tracked message: when
    the actor is the message's author the handler takes the self-vote path
    whatever the glyph (the reaction is taken back when the platform allows
    it, a notice or an error log follows, the state stays as it was); an
    unrecognized glyph from anyone else is ignored, with no effect and no
    change of state. *)
Theorem reaction_add_self_check_before_glyph_check :
  ∀ env ev s info,
    ra_user_bot ev = false →
    ra_user ev ∉ disabled_voters s →
    token_messages s !! ra_message ev = Some info →
    (ra_user ev = author info →
       on_reaction_add env ev s
         = (s, reject_self_vote env (ra_message ev) (ra_user ev))
       ∧ reject_self_vote env (ra_message ev) (ra_user ev) ≠ []
       ∧ (remove_fails env = false →
            ReactionRemoved (ra_message ev) (ra_user ev)
              ∈ (on_reaction_add env ev s).2))
    ∧ (ra_user ev ≠ author info → is_vote_emoji (ra_emoji ev) = false →
         on_reaction_add env ev s = (s, [])).
Proof.
  intros env ev s info Hbot Hdis Hinfo.
  unfold on_reaction_add. rewrite Hbot, Hinfo. simpl.
  rewrite (bool_decide_eq_false_2 _ Hdis). split.
  - intros Hself. rewrite (bool_decide_eq_true_2 _ Hself).
    split; [reflexivity|]. split; [apply reject_self_vote_nonempty|].
    intros Hrm. simpl. unfold reject_self_vote. rewrite Hrm. apply list_elem_of_here.
  - intros Hother Hglyph. rewrite (bool_decide_eq_false_2 _ Hother).
    rewrite Hglyph. reflexivity.
Qed.

Lemma reaction_add_self_check_before_glyph_check_witness :
  let s := mem (run no_unicode_case [OnMessage Scene.call]) in
  let ev := Scene.self_thumbs in
  (ra_user ev = Scene.alice →
     on_reaction_add Scene.quiet ev s
       = (s, reject_self_vote Scene.quiet (ra_message ev) (ra_user ev))
     ∧ reject_self_vote Scene.quiet (ra_message ev) (ra_user ev) ≠ []
     ∧ (remove_fails Scene.quiet = false →
          ReactionRemoved (ra_message ev) (ra_user ev)
            ∈ (on_reaction_add Scene.quiet ev s).2))
  ∧ (ra_user ev ≠ Scene.alice → is_vote_emoji (ra_emoji ev) = false →
       on_reaction_add Scene.quiet ev s = (s, [])).
Proof.
  intros s ev.
  apply (reaction_add_self_check_before_glyph_check Scene.quiet ev s
           (MessageInfo Scene.alice (lit "unknown") (lit "unknown"))).
  - reflexivity.
  - vm_compute. discriminate.
  - vm_compute. reflexivity.
Defined.

(** ** Ordered dictionaries: reading after writing *)

Section OrdDictFacts.
Context {K V : Type} `{EqDecision K}.
Implicit Types (d : OrdDict.t K V) (k : K) (v : V).

Lemma ord_get_set_eq d k v : OrdDict.get k (OrdDict.set k v d) = Some v.
Proof.
  induction d as [|[k' v'] d IH]; simpl.
  - rewrite decide_True; done.
  - destruct (decide (k' = k)) as [->|Hne]; simpl.
    + rewrite decide_True; done.
    + rewrite decide_False; done.
Qed.

Lemma ord_get_set_ne d k k' v :
  k ≠ k' → OrdDict.get k' (OrdDict.set k v d) = OrdDict.get k' d.
Proof.
  intros Hne. induction d as [|[k0 v0] d IH]; simpl.
  - rewrite decide_False; done.
  - destruct (decide (k0 = k)) as [->|Hne0]; simpl.
    + rewrite !decide_False; done.
    + destruct (decide (k0 = k')); done.
Qed.
End OrdDictFacts.

(** ** The scene reads no case table *)

Lemma scene_call_table_free tbl s :
  on_message tbl Scene.call s = on_message no_unicode_case Scene.call s.
Proof. reflexivity. Qed.

(** ** Vote switch *)

(** The reaction handler writes one record and changes no other: no
    record of the log is marked reversed by it and none leaves
    [current_votes]. *)
Lemma on_reaction_add_keeps_records env ev s vid :
  vid ≠ (ra_stamp ev).1 →
  OrdDict.get vid (reputation_log (on_reaction_add env ev s).1)
  = OrdDict.get vid (reputation_log s)
  ∧ current_votes (on_reaction_add env ev s).1 !! vid = current_votes s !! vid.
Proof.
  intros Hne. unfold on_reaction_add.
  destruct (_ || _); [done|].
  destruct (token_messages s !! ra_message ev) as [info|]; [|done].
  case_bool_decide; [done|]. destruct (negb _); [done|].
  destruct (cast_vote _ _ _ _ _) as [e u].
  destruct (log_channel _ _ _); [destruct (log_send_fails env)|]; simpl;
    (split; [by apply ord_get_set_ne | by apply lookup_insert_ne]).
Qed.

(** C1, evaluated where the code departs from it: vera votes good and
    then bad on the same tracked message.  The aggregates move her from
    the good to the bad voters, the new bad record is written, and the
    record of the old good vote is still unreversed in the log and still
    in [current_votes]. *)
Theorem vote_switch_leaves_old_record_active :
  ∀ unicode_upper : N → pystr,
    let s := mem (run unicode_upper
                    [OnMessage Scene.call;
                     Scene.adds Scene.vera GREEN "v1";
                     Scene.adds Scene.vera RED "v2"]) in
    let old :=
      Vote (lit "v1") Scene.vera Scene.alice (lit "unknown") Good
        Scene.voting_message (lit "2025-01-01T00:00:00+00:00") false in
    let new :=
      Vote (lit "v2") Scene.vera Scene.alice (lit "unknown") Bad
        Scene.voting_message (lit "2025-01-01T00:00:00+00:00") false in
    current_votes s !! lit "v1" = Some old
    ∧ OrdDict.get (lit "v1") (reputation_log s) = Some old
    ∧ current_votes s !! lit "v2" = Some new
    ∧ (reputation s !! str_of_int Scene.alice) ≫= (λ u, tokens u !! lit "unknown")
      = Some (TokenData 0 1 [] [Scene.vera] (Some (lit "unknown"))).
Proof. intros unicode_upper. vm_compute. repeat split; reflexivity. Qed.

(** ** Counters below zero *)

(** C3, evaluated where the code departs from it.  vera votes good, then
    bad (her good record stays active); walt votes good; the admin removes
    vera's stale good record, which takes the good counters to 0 while walt
    is still a good voter; walt switches to bad, and the unclamped
    decrement of the reaction handler leaves alice's good counter and the
    token's good counter at -1. *)
Theorem vote_switch_drives_counters_negative :
  ∀ unicode_upper : N → pystr,
    let s := mem (run unicode_upper
                    [OnMessage Scene.call;
                     Scene.adds Scene.vera GREEN "v1";
                     Scene.adds Scene.vera RED "v2";
                     Scene.adds Scene.walt GREEN "v3";
                     Scene.admin_removes "v1";
                     Scene.adds Scene.walt RED "v4"]) in
    good <$> reputation s !! str_of_int Scene.alice = Some (-1)
    ∧ bad <$> reputation s !! str_of_int Scene.alice = Some 2
    ∧ (reputation s !! str_of_int Scene.alice) ≫= (λ u, tokens u !! lit "unknown")
      = Some (TokenData (-1) 2 [] [Scene.vera; Scene.walt] (Some (lit "unknown"))).
Proof. intros unicode_upper. vm_compute. repeat split; reflexivity. Qed.

(** ** Admin removal *)

Lemma repremove_single vote_ids vid s :
  raw_ids vote_ids = [vid] →
  repremove true vote_ids s
  = let r := repremove_round (s, RemovalResults [] [] []) vid in
    (r.1, [DataSaved;
           Responded (RemovalReport (success r.2) (already_reversed r.2) (invalid r.2))]).
Proof.
  intros Hraw. unfold repremove. rewrite Hraw.
  change (foldl repremove_round (s, RemovalResults [] [] []) [vid])
    with (repremove_round (s, RemovalResults [] [] []) vid).
  cbv zeta. simpl negb. cbv iota.
  destruct (repremove_round (s, RemovalResults [] [] []) vid) as [s' res].
  reflexivity.
Qed.

Lemma repremove_round_active s res vid v :
  OrdDict.get vid (reputation_log s) = Some v → reversed v = false →
  repremove_round (s, res) vid
  = (BotState (remove_from_counts v (reputation s))
       (OrdDict.set vid (set_reversed true v) (reputation_log s))
       (delete vid (current_votes s)) (disabled_voters s)
       (reputation_log_channels s) (token_messages s),
     RemovalResults (success res ++ [vid]) (invalid res) (already_reversed res)).
Proof. intros Hget Hrev. unfold repremove_round. rewrite Hget, Hrev. reflexivity. Qed.


Lemma user_count_set_same vt n u : user_count vt (set_user_count vt n u) = n.
Proof. destruct vt; reflexivity. Qed.










(** C10: an active record whose author has no entry in the reputation
    data is still marked reversed (its flag is [true] afterwards, its
    other fields are as before), taken out of [current_votes] and reported
    as removed, and no counter changes. *)
Theorem repremove_author_without_entry :
  ∀ vote_ids vid v s,
    raw_ids vote_ids = [vid] →
    OrdDict.get vid (reputation_log s) = Some v →
    reversed v = false →
    reputation s !! str_of_int (author_id v) = None →
    let r := repremove true vote_ids s in
    r.2 = [DataSaved; Responded (RemovalReport [vid] [] [])]
    ∧ (∃ v', OrdDict.get vid (reputation_log r.1) = Some v'
             ∧ reversed v' = true
             ∧ v' = Vote (vote_id v) (voter_id v) (author_id v) (token_address v)
                      (vote_type v) (message_id v) (timestamp v) true)
    ∧ current_votes r.1 !! vid = None
    ∧ reputation r.1 = reputation s.
Proof.
  intros vote_ids vid v s Hraw Hget Hrev Hnone r. unfold r.
  rewrite (repremove_single _ vid) by done.
  rewrite (repremove_round_active _ _ _ v) by done. simpl.
  split; [reflexivity|]. split.
  { exists (set_reversed true v). split; [apply ord_get_set_eq|].
    split; reflexivity. }
  split; [apply lookup_delete_eq|].
  unfold remove_from_counts. rewrite Hnone. reflexivity.
Qed.

Lemma repremove_author_without_entry_witness :
  let r := repremove true (lit "v9") Scene.orphan_state in
  reversed <$> OrdDict.get (lit "v9") (reputation_log Scene.orphan_state) = Some false
  ∧ r.2 = [DataSaved; Responded (RemovalReport [lit "v9"] [] [])]
  ∧ reversed <$> OrdDict.get (lit "v9") (reputation_log r.1) = Some true
  ∧ current_votes r.1 !! lit "v9" = None
  ∧ reputation r.1 = reputation Scene.orphan_state.
Proof.
  intros r. split; [vm_compute; reflexivity|].
  destruct (repremove_author_without_entry (lit "v9") (lit "v9")
              Scene.orphan_vote Scene.orphan_state)
    as (Hreport & (v' & Hlog & Hrev & _) & Hcur & Hrep).
  - vm_compute. reflexivity.
  - vm_compute. reflexivity.
  - reflexivity.
  - vm_compute. reflexivity.
  - split; [exact Hreport|]. split; [|split; [exact Hcur | exact Hrep]].
    fold r in Hlog. rewrite Hlog. simpl. by rewrite Hrev.
Defined.

(** ** Reaction removed *)

Lemma update_logs_log test log cur :
  (update_logs test log cur).1 = prod_map id (mark_reversed test) <$> log.
Proof.
  revert cur. induction log as [|[vid v] log IH]; intros cur; simpl; [done|].
  unfold mark_reversed at 1. simpl. destruct (test v).
  - specialize (IH (delete vid cur)).
    destruct (update_logs test log (delete vid cur)). simpl in *. by rewrite IH.
  - specialize (IH cur).
    destruct (update_logs test log cur). simpl in *. by rewrite IH.
Qed.

Lemma update_logs_current test log cur vid :
  (update_logs test log cur).2 !! vid
  = if matched test log vid then None else cur !! vid.
Proof.
  revert cur. induction log as [|[k v] log IH]; intros cur; simpl; [done|].
  destruct (test v) eqn:Htest.
  - specialize (IH (delete k cur)).
    destruct (update_logs test log (delete k cur)). simpl in *. rewrite IH.
    unfold matched in *. case_bool_decide as Hk; simpl.
    + subst k. destruct (existsb _ log); [done|]. apply lookup_delete_eq.
    + destruct (existsb _ log); [done|]. by apply lookup_delete_ne.
  - specialize (IH cur).
    destruct (update_logs test log cur). simpl in *. rewrite IH.
    unfold matched. rewrite andb_false_r. done.
Qed.

(** C2, as stated, fails: with two active records of vera's good vote on
    the message (the older "v1", the newer "v2"), her removal of the
    reaction reverses both and takes both out of [current_votes]; the only
    effect is the save, there is no warning. *)
Lemma reaction_remove_reverses_older_match_too :
  let before := mem (run no_unicode_case Scene.two_active_good_votes) in
  let r := on_raw_reaction_remove Scene.quiet Scene.vera_removes_green before in
  (reversed <$> current_votes before !! lit "v1" = Some false
   ∧ reversed <$> current_votes before !! lit "v2" = Some false)
  ∧ reversed <$> OrdDict.get (lit "v1") (reputation_log r.1) = Some true
  ∧ reversed <$> OrdDict.get (lit "v2") (reputation_log r.1) = Some true
  ∧ current_votes r.1 = ∅
  ∧ r.2 = [DataSaved].
Proof. vm_compute. repeat split; reflexivity. Qed.

Lemma matched_true test (log : OrdDict.t pystr vote) vid :
  matched test log vid = true ↔ ∃ v, (vid, v) ∈ log ∧ test v = true.
Proof.
  unfold matched. induction log as [|[k v] log IH]; simpl.
  - split; [done|]. intros (v & Hin & _). by apply elem_of_nil in Hin.
  - rewrite orb_true_iff, andb_true_iff, bool_decide_eq_true, IH. split.
    + intros [[-> Htest]|(v' & Hin & Htest)].
      * exists v. split; [apply list_elem_of_here | done].
      * exists v'. split; [by apply list_elem_of_further | done].
    + intros (v' & Hin & Htest). apply elem_of_cons in Hin as [[= -> ->]|Hin].
      * by left.
      * right. by exists v'.
Qed.

(** C2, amended: when the removal handler finds the voter among the
    voters of the reaction's type, every log record that is not yet
    reversed and agrees with the removal in voter, author, token, type and
    source message is marked reversed (its flag is [true] afterwards, its
    other fields are as before) and its id leaves [current_votes], however
    many such records there are; every other record stays as it was, an id
    under which no such record stands keeps its entry of [current_votes],
    and the only effects are the "Vote Removed" audit message, the save,
    or an error log: no warning about several matches is reported. *)
Theorem reaction_remove_reverses_every_match :
  ∀ env ev s info u t,
    rr_guild_found ev = true →
    rr_user ev ∉ disabled_voters s →
    rr_member ev = Member false →
    token_messages s !! rr_message ev = Some info →
    rr_user ev ≠ author info →
    is_vote_emoji (rr_emoji_name ev) = true →
    reputation s !! str_of_int (author info) = Some u →
    tokens u !! info_token_address info = Some t →
    rr_user ev ∈ voters (vote_of_emoji (rr_emoji_name ev)) t →
    let hit := λ v : vote,
      voter_id v = rr_user ev ∧ author_id v = author info
      ∧ token_address v = info_token_address info
      ∧ vote_type v = vote_of_emoji (rr_emoji_name ev)
      ∧ message_id v = rr_message ev ∧ reversed v = false in
    let r := on_raw_reaction_remove env ev s in
    (reputation_log r.1).*1 = (reputation_log s).*1
    ∧ (∀ i vid v, reputation_log s !! i = Some (vid, v) →
         ∃ v', reputation_log r.1 !! i = Some (vid, v')
               ∧ (hit v →
                  reversed v' = true
                  ∧ v' = Vote (vote_id v) (voter_id v) (author_id v)
                           (token_address v) (vote_type v) (message_id v)
                           (timestamp v) true
                  ∧ current_votes r.1 !! vid = None)
               ∧ (¬ hit v → v' = v))
    ∧ (∀ vid, (∀ v, (vid, v) ∈ reputation_log s → ¬ hit v) →
              current_votes r.1 !! vid = current_votes s !! vid)
    ∧ (r.2 = [DataSaved] ∨ r.2 = [ErrorLogged]
       ∨ ∃ ch, r.2 = [AuditEmbed ch (lit "Vote Removed"); DataSaved]).
Proof.
  intros env ev s info u t Hguild Hdis Hmember Hinfo Hother Hglyph Hu Ht Hin hit r.
  set (test := matches (rr_user ev) (author info) (info_token_address info)
                 (vote_of_emoji (rr_emoji_name ev)) (rr_message ev)).
  assert (Hhit : ∀ v, test v = true ↔ hit v).
  { intros v. unfold test, matches, hit.
    rewrite !andb_true_iff, !bool_decide_eq_true, negb_true_iff. tauto. }
  assert (Hr : reputation_log r.1
               = prod_map id (mark_reversed test) <$> reputation_log s
               ∧ (∀ vid, current_votes r.1 !! vid
                         = if matched test (reputation_log s) vid then None
                           else current_votes s !! vid)
               ∧ (r.2 = [DataSaved] ∨ r.2 = [ErrorLogged]
                  ∨ ∃ ch, r.2 = [AuditEmbed ch (lit "Vote Removed"); DataSaved])).
  { unfold r, on_raw_reaction_remove.
    rewrite Hguild, Hmember, Hinfo, Hglyph, Hu, Ht. simpl.
    rewrite (bool_decide_eq_false_2 _ Hdis), (bool_decide_eq_false_2 _ Hother).
    unfold contains. rewrite (bool_decide_eq_true_2 _ Hin).
    pose proof (update_logs_log test (reputation_log s) (current_votes s)) as Hlog.
    pose proof (update_logs_current test (reputation_log s) (current_votes s)) as Hcur.
    fold test. destruct (update_logs test (reputation_log s) (current_votes s))
      as [log cur]. simpl in Hlog, Hcur.
    destruct (log_channel env (rr_guild ev) _) as [ch|];
      [destruct (log_send_fails env)|]; simpl; (split; [exact Hlog|]);
      (split; [exact Hcur|]); eauto. }
  destruct Hr as (Hlog & Hcur & Heffs).
  split; [|split; [|split; [|exact Heffs]]].
  - rewrite Hlog, <- list_fmap_compose. apply list_fmap_ext.
    intros i [vid v] _. reflexivity.
  - intros i vid v Hi. exists (mark_reversed test v). split.
    { rewrite Hlog. unfold OrdDict.t in *.
      rewrite list_lookup_fmap, Hi. reflexivity. }
    split.
    + intros Hv. pose proof (proj2 (Hhit v) Hv) as Htest.
      unfold mark_reversed. rewrite Htest.
      split; [reflexivity|]. split; [reflexivity|].
      rewrite Hcur.
      assert (Hm : matched test (reputation_log s) vid = true).
      { apply matched_true. exists v. split; [|done].
        by apply (list_elem_of_lookup_2 _ i). }
      by rewrite Hm.
    + intros Hv. unfold mark_reversed.
      destruct (test v) eqn:Htest; [|done].
      destruct Hv. by apply Hhit.
  - intros vid Hnone. rewrite Hcur.
    destruct (matched test (reputation_log s) vid) eqn:Hm; [|done].
    apply matched_true in Hm as (v & Hv & Htest).
    destruct (Hnone v Hv). by apply Hhit.
Qed.

Lemma reaction_remove_reverses_every_match_witness :
  let s := mem (run no_unicode_case Scene.two_active_good_votes) in
  let ev := Scene.vera_removes_green in
  let r := on_raw_reaction_remove Scene.quiet ev s in
  (reversed <$> OrdDict.get (lit "v1") (reputation_log s) = Some false
   ∧ reversed <$> OrdDict.get (lit "v2") (reputation_log s) = Some false)
  ∧ ∃ v1 v2,
      reputation_log r.1 !! 0%nat = Some (lit "v1", v1)
      ∧ reputation_log r.1 !! 1%nat = Some (lit "v2", v2)
      ∧ reversed v1 = true ∧ reversed v2 = true
      ∧ current_votes r.1 !! lit "v1" = None
      ∧ current_votes r.1 !! lit "v2" = None.
Proof.
  intros s ev r.
  split; [split; vm_compute; reflexivity|].
  destruct (reaction_remove_reverses_every_match Scene.quiet ev s
              (MessageInfo Scene.alice (lit "unknown") (lit "unknown"))
              (UserData 1 0 {[lit "unknown" :=
                 TokenData 1 0 [Scene.vera] [] (Some (lit "unknown"))]})
              (TokenData 1 0 [Scene.vera] [] (Some (lit "unknown"))))
    as (Hkeys & Hrecords & _).
  - reflexivity.
  - vm_compute. discriminate.
  - reflexivity.
  - vm_compute. reflexivity.
  - vm_compute. discriminate.
  - vm_compute. reflexivity.
  - vm_compute. reflexivity.
  - vm_compute. reflexivity.
  - apply list_elem_of_here.
  - fold r in Hkeys, Hrecords.
    assert (Hlog : reputation_log s
                   = [(lit "v1", Vote (lit "v1") Scene.vera Scene.alice (lit "unknown")
                                   Good Scene.voting_message
                                   (lit "2025-01-01T00:00:00+00:00") false);
                      (lit "v2", Vote (lit "v2") Scene.vera Scene.alice (lit "unknown")
                                   Good Scene.voting_message
                                   (lit "2025-01-02T00:00:00+00:00") false)]).
    { vm_compute. reflexivity. }
    rewrite Hlog in Hkeys, Hrecords.
    destruct (Hrecords 0%nat _ _ eq_refl) as (v1 & Hv1 & Hhit1 & _).
    destruct (Hrecords 1%nat _ _ eq_refl) as (v2 & Hv2 & Hhit2 & _).
    destruct Hhit1 as (Hr1 & _ & Hc1); [by repeat split|].
    destruct Hhit2 as (Hr2 & _ & Hc2); [by repeat split|].
    exists v1, v2.
    split; [exact Hv1|]. split; [exact Hv2|].
    split; [exact Hr1|]. split; [exact Hr2|]. split; [exact Hc1 | exact Hc2].
Defined.

(** ** Snapshot and restore *)

Lemma backfill_user_lookup u a :
  tokens (backfill_user u) !! a = backfill_token a <$> tokens u !! a.
Proof.
  unfold backfill_user. simpl. rewrite map_lookup_imap.
  destruct (tokens u !! a); reflexivity.
Qed.

Lemma backfill_token_id a t : symbol t ≠ None → backfill_token a t = t.
Proof. unfold backfill_token. destruct (symbol t); done. Qed.

Lemma backfill_user_id u :
  (∀ a t, tokens u !! a = Some t → symbol t ≠ None) → backfill_user u = u.
Proof.
  intros Hsym. destruct u as [g b toks]. unfold backfill_user, set_tokens. simpl.
  f_equal. apply map_eq. intros a. rewrite map_lookup_imap.
  destruct (toks !! a) as [t|] eqn:Ht; simpl; [|done].
  f_equal. apply backfill_token_id. eapply Hsym. exact Ht.
Qed.

Lemma load_save_reputation s s0 :
  reputation (load_data (save_data s) s0) = backfill_user <$> reputation s.
Proof. reflexivity. Qed.

(** C9: [load_data] on the files [save_data] wrote gives back the vote
    log, the active-vote index, and every user and token aggregate with
    the same counters and voters; a token entry keeps its symbol, and one
    that has none gets the first six characters of its address followed by
    ["..."], or ["unknown"] under the address ["unknown"].  When no entry
    lacks its symbol the reputation data are identical. *)
Theorem snapshot_restore_roundtrip :
  ∀ s s0,
    let s' := load_data (save_data s) s0 in
    reputation_log s' = reputation_log s
    ∧ current_votes s' = current_votes s
    ∧ disabled_voters s' = disabled_voters s
    ∧ (∀ key, reputation s !! key = None → reputation s' !! key = None)
    ∧ (∀ key u, reputation s !! key = Some u →
         ∃ u', reputation s' !! key = Some u'
           ∧ good u' = good u ∧ bad u' = bad u
           ∧ (∀ a, tokens u !! a = None → tokens u' !! a = None)
           ∧ ∀ a t, tokens u !! a = Some t →
               tokens u' !! a
               = Some (TokenData (tgood t) (tbad t) (goodvoters t) (badvoters t)
                         (Some match symbol t with
                               | Some sym => sym
                               | None =>
                                   if bool_decide (a = lit "unknown")
                                   then lit "unknown"
                                   else take 6 a ++ lit "..."
                               end)))
    ∧ ((∀ key u a t, reputation s !! key = Some u → tokens u !! a = Some t →
          symbol t ≠ None) →
       reputation s' = reputation s).
Proof.
  intros s s0 s'.
  split; [reflexivity|]. split; [reflexivity|].
  split; [apply list_to_set_elements_L|].
  assert (Hrep : reputation s' = backfill_user <$> reputation s) by reflexivity.
  rewrite Hrep. split; [|split].
  - intros key Hnone. by rewrite lookup_fmap, Hnone.
  - intros key u Hu. exists (backfill_user u).
    split; [by rewrite lookup_fmap, Hu|].
    split; [reflexivity|]. split; [reflexivity|]. split.
    + intros a Ha. by rewrite backfill_user_lookup, Ha.
    + intros a t Ht. rewrite backfill_user_lookup, Ht. simpl. f_equal.
      unfold backfill_token, default_symbol. destruct t as [g b gv bv [sym|]]; simpl.
      * reflexivity.
      * unfold set_symbol, slice_to. simpl. do 2 f_equal.
        repeat case_bool_decide; done.
  - intros Hsym. apply map_eq. intros key. rewrite lookup_fmap.
    destruct (reputation s !! key) as [u|] eqn:Hu; simpl; [|done].
    f_equal. apply backfill_user_id. intros a t Ht.
    eapply Hsym; [exact Hu | exact Ht].
Qed.

Lemma snapshot_restore_roundtrip_witness :
  let s := Scene.legacy_state in
  let s' := load_data (save_data s) initial_state in
  reputation_log s' = reputation_log s
  ∧ current_votes s' = current_votes s
  ∧ (reputation s' !! str_of_int Scene.alice) ≫= (λ u, tokens u !! lit "unknown")
    = Some (TokenData 1 0 [Scene.vera] [] (Some (lit "unknown")))
  ∧ (reputation s' !! str_of_int Scene.alice) ≫= (λ u, tokens u !! lit "0xAbCdEf0123")
    = Some (TokenData 1 0 [Scene.walt] [] (Some (lit "0xAbCd...")))
  ∧ (reputation s' !! str_of_int Scene.alice) ≫= (λ u, tokens u !! lit "So1anaAddr")
    = Some (TokenData 0 1 [] [Scene.vera] (Some (lit "SOL"))).
Proof.
  intros s s'.
  destruct (snapshot_restore_roundtrip s initial_state)
    as (Hlog & Hcur & _ & _ & Hagg & _).
  split; [exact Hlog|]. split; [exact Hcur|].
  destruct (Hagg (str_of_int Scene.alice)
              (UserData 2 1
                 {[lit "unknown" := TokenData 1 0 [Scene.vera] [] None;
                   lit "0xAbCdEf0123" := TokenData 1 0 [Scene.walt] [] None;
                   lit "So1anaAddr" := TokenData 0 1 [] [Scene.vera] (Some (lit "SOL"))]}))
    as (u' & Hu' & _ & _ & _ & Htok).
  { vm_compute. reflexivity. }
  unfold s'. rewrite Hu'. simpl.
  split; [|split].
  - rewrite (Htok (lit "unknown") (TokenData 1 0 [Scene.vera] [] None));
      vm_compute; reflexivity.
  - rewrite (Htok (lit "0xAbCdEf0123") (TokenData 1 0 [Scene.walt] [] None));
      vm_compute; reflexivity.
  - rewrite (Htok (lit "So1anaAddr") (TokenData 0 1 [] [Scene.vera] (Some (lit "SOL"))));
      vm_compute; reflexivity.
Defined.

(** ** Voter lists *)

Lemma list_remove_elem_of x y l : x ∈ list_remove y l → x ∈ l.
Proof.
  induction l as [|z l IH]; simpl; [done|].
  case_decide; [apply list_elem_of_further|].
  intros [->|Hx]%elem_of_cons; [apply list_elem_of_here|].
  apply list_elem_of_further. by apply IH.
Qed.

Lemma list_remove_NoDup y l : NoDup l → NoDup (list_remove y l).
Proof.
  induction 1 as [|x l Hx Hl IH]; simpl; [constructor|].
  case_decide; [done|]. constructor; [|done].
  intros Hin%list_remove_elem_of. done.
Qed.

Lemma list_remove_not_elem_of y l : NoDup l → y ∉ list_remove y l.
Proof.
  induction 1 as [|x l Hx Hl IH]; simpl; [apply not_elem_of_nil|].
  case_decide; [by subst|].
  intros [->|Hy]%elem_of_cons; done.
Qed.

Lemma list_remove_perm y l : y ∈ l → list_remove y l ++ [y] ≡ₚ l.
Proof.
  induction l as [|x l IH]; simpl; intros Hin.
  - by apply elem_of_nil in Hin.
  - case_decide as Hx.
    + subst x. symmetry. apply Permutation_cons_append.
    + apply elem_of_cons in Hin as [Heq|Hin]; [congruence|].
      simpl. constructor. by apply IH.
Qed.

Lemma list_remove_last y l : y ∉ l → list_remove y (l ++ [y]) = l.
Proof.
  induction l as [|x l IH]; simpl; intros Hnot.
  - by rewrite decide_True.
  - rewrite not_elem_of_cons in Hnot. destruct Hnot as [Hne Hnot].
    rewrite decide_False by done. f_equal. by apply IH.
Qed.

Lemma contains_true x l : contains x l = true ↔ x ∈ l.
Proof. unfold contains. apply bool_decide_eq_true. Qed.

Lemma contains_false x l : contains x l = false ↔ x ∉ l.
Proof. unfold contains. apply bool_decide_eq_false. Qed.

(** ** Mutual exclusion of the voter lists *)

Lemma token_ok_voters vt t : token_ok t → NoDup (voters vt t).
Proof. intros (Hg & Hb & _). by destruct vt. Qed.

Lemma token_ok_disjoint vt v t :
  token_ok t → v ∈ voters vt t → v ∉ voters (opposite vt) t.
Proof.
  intros (_ & _ & Hd). destruct vt; simpl; [by apply Hd|].
  intros Hb Hg. by apply (Hd v).
Qed.

Lemma token_ok_set_count vt n t : token_ok (set_token_count vt n t) ↔ token_ok t.
Proof. by destruct vt. Qed.

Lemma token_ok_set_symbol sym t : token_ok (set_symbol sym t) ↔ token_ok t.
Proof. done. Qed.

Lemma voters_set_voters_same vt l t : voters vt (set_voters vt l t) = l.
Proof. by destruct vt. Qed.

Lemma voters_set_voters_opposite vt l t :
  voters (opposite vt) (set_voters vt l t) = voters (opposite vt) t.
Proof. by destruct vt. Qed.

Lemma voters_set_count vt vt' n t : voters vt (set_token_count vt' n t) = voters vt t.
Proof. by destruct vt, vt'. Qed.

Lemma token_ok_remove vt v t :
  token_ok t → token_ok (set_voters vt (list_remove v (voters vt t)) t).
Proof.
  intros (Hg & Hb & Hd). destruct vt; simpl; unfold token_ok; simpl.
  - split; [by apply list_remove_NoDup|]. split; [done|].
    intros x Hx%list_remove_elem_of. by apply Hd.
  - split; [done|]. split; [by apply list_remove_NoDup|].
    intros x Hx Hx'%list_remove_elem_of. by apply (Hd x).
Qed.

Lemma token_ok_append vt v t :
  token_ok t → v ∉ goodvoters t → v ∉ badvoters t →
  token_ok (set_voters vt (voters vt t ++ [v]) t).
Proof.
  intros (Hg & Hb & Hd) Hvg Hvb. destruct vt; simpl; unfold token_ok; simpl.
  - split; [|split; [done|]].
    + apply NoDup_app. split; [done|]. split; [|apply NoDup_singleton].
      intros x Hx ->%list_elem_of_singleton. done.
    + intros x [Hx|Hx]%elem_of_app; [by apply Hd|].
      apply list_elem_of_singleton in Hx. by subst.
  - split; [done|]. split.
    + apply NoDup_app. split; [done|]. split; [|apply NoDup_singleton].
      intros x Hx ->%list_elem_of_singleton. done.
    + intros x Hx [Hx'|Hx']%elem_of_app; [by apply (Hd x)|].
      apply list_elem_of_singleton in Hx'. by subst.
Qed.

Lemma tokens_set_user_count vt n u : tokens (set_user_count vt n u) = tokens u.
Proof. by destruct vt. Qed.

(** One round of "Remove existing votes": afterwards the voter is out of
    the list of that type; the other list is as before. *)
Lemma remove_existing_ok voter e u t vt e' u' t' :
  remove_existing voter (e, u, t) vt = (e', u', t') →
  token_ok t →
  tokens u' = tokens u ∧ token_ok t' ∧ (voter ∉ voters vt t')
  ∧ voters (opposite vt) t' = voters (opposite vt) t.
Proof.
  unfold remove_existing. destruct (contains voter (voters vt t)) eqn:Hc.
  - intros [= <- <- <-] Hok.
    rewrite tokens_set_user_count, token_ok_set_count, !voters_set_count,
      voters_set_voters_same, voters_set_voters_opposite.
    split; [done|]. split; [by apply token_ok_remove|]. split; [|done].
    apply list_remove_not_elem_of. by apply token_ok_voters.
  - intros [= <- <- <-] Hok. by apply contains_false in Hc.
Qed.

Lemma remove_existing_both_ok voter u t e' u' t' :
  foldl (remove_existing voter) (false, u, t) [Good; Bad] = (e', u', t') →
  token_ok t →
  tokens u' = tokens u ∧ token_ok t'
  ∧ (voter ∉ goodvoters t') ∧ (voter ∉ badvoters t').
Proof.
  change (foldl (remove_existing voter) (false, u, t) [Good; Bad])
    with (remove_existing voter (remove_existing voter (false, u, t) Good) Bad).
  destruct (remove_existing voter (false, u, t) Good) as [[e1 u1] t1] eqn:H1.
  intros H2 Hok.
  apply remove_existing_ok in H1 as (Htok1 & Hok1 & Hg1 & _); [|done].
  apply remove_existing_ok in H2 as (Htok2 & Hok2 & Hb2 & Hg2); [|done].
  simpl in *. split; [congruence|]. split; [done|]. split; [|done].
  by rewrite Hg2.
Qed.

Lemma user_ok_set_tokens_insert a t u m :
  (∀ a' t', m !! a' = Some t' → token_ok t') → token_ok t →
  user_ok (set_tokens (<[a := t]> m) u).
Proof.
  intros Hm Ht a' t'. simpl. rewrite lookup_insert.
  case_decide; [by intros [= <-]|]. apply Hm.
Qed.

Lemma open_token_ok a sym u : user_ok u → token_ok (open_token a sym u).
Proof.
  intros Hu. unfold open_token. destruct (tokens u !! a) as [t|] eqn:Ht.
  - apply token_ok_set_symbol. by eapply Hu.
  - repeat split; simpl; [constructor..|]. intros v Hv. by apply elem_of_nil in Hv.
Qed.

Lemma cast_vote_ok voter new_vote a sym u :
  user_ok u → user_ok (cast_vote voter new_vote a sym u).2.
Proof.
  intros Hu. unfold cast_vote.
  destruct (foldl _ _ _) as [[e1 u1] t1] eqn:Hfold.
  apply remove_existing_both_ok in Hfold as (Htok & Hok & Hg & Hb);
    [|by apply open_token_ok].
  unfold add_new_vote. simpl.
  apply user_ok_set_tokens_insert.
  - rewrite tokens_set_user_count, Htok. apply Hu.
  - apply token_ok_set_count. by apply token_ok_append.
Qed.

Lemma retract_vote_ok voter vt a u t :
  user_ok u → tokens u !! a = Some t → user_ok (retract_vote voter vt a u t).
Proof.
  intros Hu Ht. unfold retract_vote. apply user_ok_set_tokens_insert.
  - rewrite tokens_set_user_count. apply Hu.
  - apply token_ok_set_count, token_ok_remove. by eapply Hu.
Qed.

Lemma user_ok_empty : user_ok empty_user.
Proof. intros a t. simpl. by rewrite lookup_empty. Qed.

Lemma reputation_ok_insert key u rep :
  reputation_ok rep → user_ok u → reputation_ok (<[key := u]> rep).
Proof.
  intros Hrep Hu key' u'. rewrite lookup_insert.
  case_decide; [by intros [= <-]|]. apply Hrep.
Qed.

Lemma reputation_ok_default key rep :
  reputation_ok rep → user_ok (default empty_user (rep !! key)).
Proof.
  intros Hrep. destruct (rep !! key) as [u|] eqn:Hu; simpl.
  - by eapply Hrep.
  - apply user_ok_empty.
Qed.

Lemma on_reaction_add_ok env ev s :
  reputation_ok (reputation s) →
  reputation_ok (reputation (on_reaction_add env ev s).1).
Proof.
  intros Hrep. unfold on_reaction_add.
  destruct (_ || _); [done|].
  destruct (token_messages s !! ra_message ev) as [info|]; [|done].
  case_bool_decide; [done|]. destruct (negb _); [done|].
  destruct (cast_vote _ _ _ _ _) as [e u] eqn:Hcast.
  assert (Hu : user_ok u).
  { change u with (e, u).2. rewrite <- Hcast.
    by apply cast_vote_ok, reputation_ok_default. }
  destruct (log_channel _ _ _); [destruct (log_send_fails env)|]; simpl;
    by apply reputation_ok_insert.
Qed.

Lemma on_raw_reaction_remove_ok env ev s :
  reputation_ok (reputation s) →
  reputation_ok (reputation (on_raw_reaction_remove env ev s).1).
Proof.
  intros Hrep. unfold on_raw_reaction_remove.
  destruct (_ || _); [done|].
  destruct (rr_member ev) as [|[|]]; [done..|].
  destruct (token_messages s !! rr_message ev) as [info|]; [|done].
  case_bool_decide; [done|]. destruct (negb _); [done|].
  destruct (reputation s !! _) as [u|] eqn:Hu; [|done].
  destruct (tokens u !! _) as [t|] eqn:Ht; [|done].
  destruct (contains _ _); [|done].
  destruct (update_logs _ _ _) as [log cur].
  assert (user_ok (retract_vote (rr_user ev) (vote_of_emoji (rr_emoji_name ev))
                     (info_token_address info) u t)).
  { apply retract_vote_ok; [by eapply Hrep | done]. }
  destruct (log_channel _ _ _); [destruct (log_send_fails env)|]; simpl;
    by apply reputation_ok_insert.
Qed.

Lemma remove_from_token_ok v u : user_ok u → user_ok (remove_from_token v u).
Proof.
  intros Hu. unfold remove_from_token. case_bool_decide; [|done].
  destruct (tokens u !! token_address v) as [t|] eqn:Ht; [|done].
  apply user_ok_set_tokens_insert; [apply Hu|].
  assert (token_ok t) by by eapply Hu.
  destruct (contains _ _).
  - rewrite voters_set_count.
    pose proof (token_ok_remove (vote_type v) (voter_id v)
                  (set_token_count (vote_type v)
                     (floor_decrement (token_count (vote_type v) t)) t)) as Hrm.
    rewrite voters_set_count in Hrm. apply Hrm. by apply token_ok_set_count.
  - by apply token_ok_set_count.
Qed.

Lemma remove_from_counts_ok v rep :
  reputation_ok rep → reputation_ok (remove_from_counts v rep).
Proof.
  intros Hrep. unfold remove_from_counts.
  destruct (rep !! _) as [u|] eqn:Hu; [|done].
  apply reputation_ok_insert; [done|]. apply remove_from_token_ok.
  intros a t. rewrite tokens_set_user_count. by eapply Hrep.
Qed.

Lemma repremove_round_ok acc vid :
  reputation_ok (reputation acc.1) →
  reputation_ok (reputation (repremove_round acc vid).1).
Proof.
  destruct acc as [s res]. simpl. intros Hrep.
  destruct (OrdDict.get vid (reputation_log s)) as [v|]; [|done].
  destruct (reversed v); [done|]. simpl. by apply remove_from_counts_ok.
Qed.

Lemma repremove_ok is_admin vote_ids s :
  reputation_ok (reputation s) →
  reputation_ok (reputation (repremove is_admin vote_ids s).1).
Proof.
  intros Hrep. unfold repremove. destruct (negb is_admin); [done|].
  assert (Hfold : ∀ ids acc, reputation_ok (reputation acc.1) →
            reputation_ok (reputation (foldl repremove_round acc ids).1)).
  { induction ids as [|vid ids IH]; intros acc Hacc; simpl; [done|].
    by apply IH, repremove_round_ok. }
  specialize (Hfold (raw_ids vote_ids) (s, RemovalResults [] [] []) Hrep).
  destruct (foldl _ _ _) as [s' res]. done.
Qed.

Lemma repadd_round_ok author voter vt s st :
  reputation_ok (reputation s) →
  reputation_ok (reputation (repadd_round author voter vt s st)).
Proof.
  intros Hrep key u. unfold repadd_round. simpl. rewrite lookup_alter.
  case_decide; [|apply Hrep]. subst key.
  destruct (reputation s !! str_of_int author) as [u0|] eqn:Hu0; simpl; [|done].
  intros [= <-] a t. rewrite tokens_set_user_count. by eapply Hrep.
Qed.

Lemma repadd_ok env is_admin caller guild user amount vt fresh s :
  reputation_ok (reputation s) →
  reputation_ok
    (reputation (repadd env is_admin caller guild user amount vt fresh s).1).
Proof.
  intros Hrep. unfold repadd. destruct (negb is_admin); [done|].
  case_bool_decide; [done|].
  set (s0 := match reputation s !! str_of_int user with
             | Some _ => s | None => _ end).
  assert (Hs0 : reputation_ok (reputation s0)).
  { unfold s0. destruct (reputation s !! str_of_int user); [done|].
    simpl. apply reputation_ok_insert; [done | apply user_ok_empty]. }
  assert (Hfold : ∀ sts s1, reputation_ok (reputation s1) →
            reputation_ok (reputation (foldl (repadd_round user caller vt) s1 sts))).
  { induction sts as [|st sts IH]; intros s1 Hs1; simpl; [done|].
    by apply IH, repadd_round_ok. }
  specialize (Hfold (fresh <$> seq 0 (Z.to_nat amount)) s0 Hs0).
  destruct (log_channel _ _ _); [destruct (log_send_fails env)|]; done.
Qed.

Lemma track_first_embed_reputation tbl m i es s :
  reputation (track_first_embed tbl m i es s).1 = reputation s.
Proof.
  revert i s. induction es as [|e es IH]; intros i s; simpl; [done|].
  destruct (footer_text e); [apply IH|].
  destruct (split_ws _) as [|username ?].
  { specialize (IH (S i) s). by destruct (track_first_embed tbl m (S i) es s). }
  destruct (guild_members m) as [members|].
  2: { specialize (IH (S i) s). by destruct (track_first_embed tbl m (S i) es s). }
  destruct (find_member _ _) as [member|]; [|apply IH].
  destruct (post m i) as [|id [| |]].
  - specialize (IH (S i) s). by destruct (track_first_embed tbl m (S i) es s).
  - done.
  - match goal with
    | |- context [track_first_embed tbl m (S i) es ?s1] =>
        specialize (IH (S i) s1); by destruct (track_first_embed tbl m (S i) es s1)
    end.
  - match goal with
    | |- context [track_first_embed tbl m (S i) es ?s1] =>
        specialize (IH (S i) s1); by destruct (track_first_embed tbl m (S i) es s1)
    end.
Qed.

Lemma on_message_reputation tbl m s :
  reputation (on_message tbl m s).1 = reputation s.
Proof.
  unfold on_message. case_bool_decide; [|done].
  apply track_first_embed_reputation.
Qed.

Lemma backfill_user_ok u : user_ok u → user_ok (backfill_user u).
Proof.
  intros Hu a t. rewrite backfill_user_lookup.
  destruct (tokens u !! a) as [t0|] eqn:Ht0; simpl; [|done].
  intros [= <-]. unfold backfill_token.
  destruct (symbol t0); [|apply token_ok_set_symbol]; by eapply Hu.
Qed.

Lemma load_data_ok d s :
  reputation_ok (reputation s) →
  (∀ r, reputation_json d = Some r → reputation_ok r) →
  reputation_ok (reputation (load_data d s)).
Proof.
  intros Hs Hd. unfold load_data.
  destruct (reputation_json d) as [r|]; [|done].
  specialize (Hd r eq_refl).
  destruct (reputation_log_json d); [|done].
  destruct (disabled_voters_json d); [|done].
  destruct (reputation_log_channels_json d); [|done].
  destruct (current_votes_json d); [|done].
  simpl. intros key u. rewrite lookup_fmap.
  destruct (r !! key) as [u0|] eqn:Hu0; simpl; [|done].
  intros [= <-]. apply backfill_user_ok. by eapply Hd.
Qed.

Lemma commit_ok w r :
  world_ok w → reputation_ok (reputation r.1) → world_ok (commit w r).1.
Proof.
  intros [_ Hdisk] Hr. split; simpl; [done|].
  destruct (saved r.2); [|done]. simpl. by intros ? [= <-].
Qed.

Lemma step_ok tbl w e : world_ok w → world_ok (step tbl w e).1.
Proof.
  intros Hw. pose proof Hw as [Hmem Hdisk]. destruct e; simpl.
  - apply commit_ok; [done|]. by rewrite on_message_reputation.
  - apply commit_ok; [done|]. by apply on_reaction_add_ok.
  - apply commit_ok; [done|]. by apply on_raw_reaction_remove_ok.
  - apply commit_ok; [done|]. by apply repadd_ok.
  - apply commit_ok; [done|]. unfold replogs. by destruct (negb _).
  - apply commit_ok; [done|]. unfold repdisable. by destruct (negb _).
  - apply commit_ok; [done|]. by apply repremove_ok.
  - split; simpl; [|done]. by apply load_data_ok.
  - split; simpl; [|done]. apply load_data_ok; [|done].
    intros key u. simpl. by rewrite lookup_empty.
Qed.

Lemma run_from_ok tbl es w : world_ok w → world_ok (run_from tbl w es).
Proof.
  revert w. induction es as [|e es IH]; intros w Hw; simpl; [done|].
  by apply IH, step_ok.
Qed.

Lemma boot_ok : world_ok boot.
Proof. split; simpl; [|done]. intros key u. by rewrite lookup_empty. Qed.

Lemma run_ok tbl es : reputation_ok (reputation (mem (run tbl es))).
Proof. exact (proj1 (run_from_ok tbl es boot boot_ok)). Qed.

(** C4: in every state the machine reaches from its first start, no
    voter is in both voter lists of any token entry; and whatever event
    comes next (a vote, a reaction removal, an admin removal or any other
    handler), the state after it has the property again. *)
Theorem voters_mutually_exclusive :
  ∀ (unicode_upper : N → pystr) (es : list event),
    mutually_exclusive (reputation (mem (run unicode_upper es)))
    ∧ ∀ e, mutually_exclusive
             (reputation (mem (step unicode_upper (run unicode_upper es) e).1)).
Proof.
  intros tbl es.
  assert (Hme : ∀ rep, reputation_ok rep → mutually_exclusive rep).
  { intros rep Hrep key u a t v Hu Ht [Hg Hb].
    destruct (Hrep key u Hu a t Ht) as (_ & _ & Hd). by apply (Hd v). }
  split.
  - apply Hme, run_ok.
  - intros e. apply Hme.
    exact (proj1 (step_ok tbl _ e (run_from_ok tbl es boot boot_ok))).
Qed.

Lemma voters_mutually_exclusive_witness :
  let s := mem (run no_unicode_case
                  [OnMessage Scene.call;
                   Scene.adds Scene.vera GREEN "v1";
                   Scene.adds Scene.walt GREEN "v3";
                   Scene.adds Scene.vera RED "v2"]) in
  (reputation s !! str_of_int Scene.alice) ≫= (λ u, tokens u !! lit "unknown")
  = Some (TokenData 1 1 [Scene.walt] [Scene.vera] (Some (lit "unknown")))
  ∧ ¬ (Scene.vera ∈ [Scene.walt] ∧ Scene.vera ∈ [Scene.vera]).
Proof.
  intros s. split; [vm_compute; reflexivity|].
  destruct (voters_mutually_exclusive no_unicode_case
              [OnMessage Scene.call;
               Scene.adds Scene.vera GREEN "v1";
               Scene.adds Scene.walt GREEN "v3";
               Scene.adds Scene.vera RED "v2"]) as [Hme _].
  apply (Hme (str_of_int Scene.alice)
           (UserData 1 1 {[lit "unknown" :=
              TokenData 1 1 [Scene.walt] [Scene.vera] (Some (lit "unknown"))]})
           (lit "unknown")
           (TokenData 1 1 [Scene.walt] [Scene.vera] (Some (lit "unknown")))
           Scene.vera).
  - vm_compute. reflexivity.
  - vm_compute. reflexivity.
Defined.

(** ** Re-applying a stance *)

Lemma token_equiv_refl t : token_equiv t t.
Proof. by repeat split. Qed.

Lemma user_equiv_refl u : user_equiv u u.
Proof.
  split; [done|]. split; [done|]. intros a.
  destruct (tokens u !! a); constructor. apply token_equiv_refl.
Qed.

Lemma aggregates_equiv_refl rep : aggregates_equiv rep rep.
Proof. intros key. destruct (rep !! key); constructor. apply user_equiv_refl. Qed.

Lemma set_voters_id vt t : set_voters vt (voters vt t) t = t.
Proof. by destruct vt, t. Qed.

Lemma set_symbol_id t : set_symbol (symbol t) t = t.
Proof. by destruct t. Qed.

Lemma set_tokens_id u : set_tokens (tokens u) u = u.
Proof. by destruct u. Qed.

(** The voter holds the stance: the two rounds of removal and the
    addition give the entry back with the voter moved to the end of the
    list, and the counters where they were. *)
Lemma cast_vote_same_stance voter vt a sym u t :
  tokens u !! a = Some t →
  voter ∈ voters vt t →
  voter ∉ voters (opposite vt) t →
  cast_vote voter vt a sym u
  = (true,
     set_tokens
       (<[a := set_symbol (Some sym)
                 (set_voters vt (list_remove voter (voters vt t) ++ [voter]) t)]>
          (tokens u)) u).
Proof.
  intros Ht Hin Hout. unfold cast_vote, open_token. rewrite Ht.
  destruct u as [g b m], t as [tg tb gv bv s0]. simpl in Ht.
  destruct vt; simpl in Hin, Hout; simpl; unfold remove_existing; simpl.
  - rewrite (proj2 (contains_true voter gv) Hin). simpl.
    rewrite (proj2 (contains_false voter bv) Hout). simpl.
    replace (g - 1 + 1) with g by lia. replace (tg - 1 + 1) with tg by lia.
    reflexivity.
  - rewrite (proj2 (contains_false voter gv) Hout). simpl.
    rewrite (proj2 (contains_true voter bv) Hin). simpl.
    replace (b - 1 + 1) with b by lia. replace (tb - 1 + 1) with tb by lia.
    reflexivity.
Qed.

Lemma symbol_set_voters vt l t : symbol (set_voters vt l t) = symbol t.
Proof. by destruct vt. Qed.

Lemma symbol_set_count vt n t : symbol (set_token_count vt n t) = symbol t.
Proof. by destruct vt. Qed.

Lemma remove_existing_symbol voter e u t vt e' u' t' :
  remove_existing voter (e, u, t) vt = (e', u', t') → symbol t' = symbol t.
Proof.
  unfold remove_existing. destruct (contains _ _); intros [= <- <- <-]; [|done].
  by rewrite symbol_set_count, symbol_set_voters.
Qed.

Lemma open_token_symbol a sym u : symbol (open_token a sym u) = Some sym.
Proof. unfold open_token. by destruct (tokens u !! a). Qed.

(** What a cast vote leaves in the author's entry: the voter last in the
    list of the new type, in no other place, under the given symbol. *)
Lemma cast_vote_shape voter vt a sym u :
  user_ok u →
  ∃ m t l,
    tokens (cast_vote voter vt a sym u).2 = <[a := t]> m
    ∧ voters vt t = l ++ [voter] ∧ (voter ∉ l)
    ∧ (voter ∉ voters (opposite vt) t)
    ∧ symbol t = Some sym.
Proof.
  intros Hu. unfold cast_vote.
  change (foldl (remove_existing voter) (false, u, open_token a sym u) [Good; Bad])
    with (remove_existing voter
            (remove_existing voter (false, u, open_token a sym u) Good) Bad).
  destruct (remove_existing voter (false, u, open_token a sym u) Good)
    as [[e1 u1] t1] eqn:H1.
  destruct (remove_existing voter (e1, u1, t1) Bad) as [[e2 u2] t2] eqn:H2.
  pose proof (remove_existing_symbol _ _ _ _ _ _ _ _ H1) as Hs1.
  pose proof (remove_existing_symbol _ _ _ _ _ _ _ _ H2) as Hs2.
  apply remove_existing_ok in H1 as (_ & Hok1 & Hg1 & _); [|by apply open_token_ok].
  apply remove_existing_ok in H2 as (_ & Hok2 & Hb2 & Hg2); [|done].
  simpl in Hg1, Hb2, Hg2. rewrite <- Hg2 in Hg1.
  unfold add_new_vote. simpl. eexists _, _, (voters vt t2).
  split; [reflexivity|].
  rewrite voters_set_count, voters_set_voters_same. split; [done|].
  split; [by destruct vt|].
  rewrite voters_set_count, voters_set_voters_opposite. split; [by destruct vt|].
  rewrite symbol_set_count, symbol_set_voters, Hs2, Hs1. apply open_token_symbol.
Qed.

Lemma cast_vote_again voter vt a sym u m t l :
  tokens u = <[a := t]> m →
  voters vt t = l ++ [voter] → voter ∉ l →
  voter ∉ voters (opposite vt) t →
  symbol t = Some sym →
  (cast_vote voter vt a sym u).2 = u.
Proof.
  intros Htok Hv Hl Hopp Hsym.
  rewrite (cast_vote_same_stance voter vt a sym u t).
  - simpl. rewrite Hv, list_remove_last by done. rewrite <- Hv, set_voters_id.
    rewrite <- Hsym, set_symbol_id, Htok, insert_insert_eq, <- Htok.
    apply set_tokens_id.
  - rewrite Htok. apply lookup_insert_eq.
  - rewrite Hv. apply elem_of_app. right. apply list_elem_of_here.
  - done.
Qed.

Lemma on_reaction_add_same_stance env ev s info u t :
  token_messages s !! ra_message ev = Some info →
  reputation s !! str_of_int (author info) = Some u →
  tokens u !! info_token_address info = Some t →
  ra_user ev ∈ voters (vote_of_emoji (ra_emoji ev)) t →
  ra_user ev ∉ voters (opposite (vote_of_emoji (ra_emoji ev))) t →
  aggregates_equiv (reputation s) (reputation (on_reaction_add env ev s).1).
Proof.
  intros Hinfo Hu Ht Hin Hout. unfold on_reaction_add.
  destruct (_ || _); [apply aggregates_equiv_refl|]. rewrite Hinfo.
  case_bool_decide; [apply aggregates_equiv_refl|].
  destruct (negb _); [apply aggregates_equiv_refl|].
  rewrite Hu. simpl default.
  rewrite (cast_vote_same_stance _ _ _ _ u t) by done.
  set (t' := set_symbol _ _).
  assert (Hequiv : aggregates_equiv (reputation s)
            (<[str_of_int (author info) :=
               set_tokens (<[info_token_address info := t']> (tokens u)) u]>
               (reputation s))).
  { intros key. rewrite lookup_insert. case_decide as Hkey.
    - subst key. rewrite Hu. constructor.
      split; [done|]. split; [done|]. intros a. simpl. rewrite lookup_insert.
      case_decide as Ha.
      + subst a. rewrite Ht. constructor. unfold t'.
        destruct (vote_of_emoji (ra_emoji ev)), t as [tg tb gv bv s0];
          simpl in *; (split; [done|]); (split; [done|]); split;
          try done; by apply list_remove_perm.
      + destruct (tokens u !! a); constructor. apply token_equiv_refl.
    - destruct (reputation s !! key); constructor. apply user_equiv_refl. }
  destruct (log_channel _ _ _); [destruct (log_send_fails env)|]; exact Hequiv.
Qed.

Lemma on_reaction_add_twice env env' ev ev' s :
  reputation_ok (reputation s) →
  same_reaction ev ev' →
  reputation (on_reaction_add env' ev' (on_reaction_add env ev s).1).1
  = reputation (on_reaction_add env ev s).1.
Proof.
  intros Hrep (Huser & Hbot & Hmsg & Hemoji).
  unfold on_reaction_add at 2 3.
  destruct (ra_user_bot ev || bool_decide (ra_user ev ∈ disabled_voters s)) eqn:Hgate.
  { simpl. unfold on_reaction_add. by rewrite Huser, Hbot, Hgate. }
  destruct (token_messages s !! ra_message ev) as [info|] eqn:Hinfo.
  2: { simpl. unfold on_reaction_add. by rewrite Huser, Hbot, Hmsg, Hgate, Hinfo. }
  destruct (bool_decide (ra_user ev = author info)) eqn:Hself.
  { simpl. unfold on_reaction_add.
    by rewrite Huser, Hbot, Hmsg, Hgate, Hinfo, Hself. }
  destruct (negb (is_vote_emoji (ra_emoji ev))) eqn:Hglyph.
  { simpl. unfold on_reaction_add.
    by rewrite Huser, Hbot, Hmsg, Hemoji, Hgate, Hinfo, Hself, Hglyph. }
  set (key := str_of_int (author info)).
  set (u0 := default empty_user (reputation s !! key)).
  assert (Hu0 : user_ok u0) by by apply reputation_ok_default.
  destruct (cast_vote_shape (ra_user ev) (vote_of_emoji (ra_emoji ev))
              (info_token_address info) (token_symbol info) u0 Hu0)
    as (m & t & l & Htok & Hv & Hl & Hopp & Hsym).
  destruct (cast_vote _ _ _ _ u0) as [e u1] eqn:Hcast. simpl in Htok.
  set (s1 := BotState (<[key := u1]> (reputation s)) _ _ _ _ _).
  assert (Hs1 : reputation (on_reaction_add env' ev' s1).1 = reputation s1).
  { unfold on_reaction_add. rewrite Huser, Hbot, Hmsg, Hemoji.
    change (disabled_voters s1) with (disabled_voters s).
    change (token_messages s1) with (token_messages s).
    rewrite Hgate, Hinfo, Hself, Hglyph. fold key.
    change (reputation s1) with (<[key := u1]> (reputation s)).
    rewrite lookup_insert_eq. simpl default.
    pose proof (cast_vote_again _ _ _ _ u1 m t l Htok Hv Hl Hopp Hsym) as Hagain.
    destruct (cast_vote _ _ _ _ u1) as [e' u2]. simpl in Hagain. subst u2.
    destruct (log_channel _ _ _); [destruct (log_send_fails env')|]; simpl;
      by rewrite insert_insert_eq. }
  destruct (log_channel env _ _); [destruct (log_send_fails env)|]; exact Hs1.
Qed.

(** C6: on well-formed aggregates (those of every reachable state), a
    voter who holds a stance on a token and applies it again leaves the
    author's and the token's counters and the two voter sets as they were;
    and a second delivery of the same reaction leaves the reputation data
    exactly as the first delivery left them. *)
Theorem reapplied_stance_is_noop :
  ∀ env ev s,
    reputation_ok (reputation s) →
    (∀ info u t,
       token_messages s !! ra_message ev = Some info →
       reputation s !! str_of_int (author info) = Some u →
       tokens u !! info_token_address info = Some t →
       ra_user ev ∈ voters (vote_of_emoji (ra_emoji ev)) t →
       aggregates_equiv (reputation s) (reputation (on_reaction_add env ev s).1))
    ∧ (∀ env' ev',
         same_reaction ev ev' →
         reputation (on_reaction_add env' ev' (on_reaction_add env ev s).1).1
         = reputation (on_reaction_add env ev s).1).
Proof.
  intros env ev s Hrep. split.
  - intros info u t Hinfo Hu Ht Hin.
    apply (on_reaction_add_same_stance env ev s info u t); try done.
    apply token_ok_disjoint; [|done]. by eapply Hrep.
  - intros env' ev' Hsame. by apply on_reaction_add_twice.
Qed.

Lemma reapplied_stance_is_noop_witness :
  let s := mem (run no_unicode_case
                  [OnMessage Scene.call;
                   Scene.adds Scene.vera GREEN "v1";
                   Scene.adds Scene.walt GREEN "v3"]) in
  let again :=
    ReactionAdd Scene.vera false Scene.voting_message GREEN Scene.guild
      (lit "v5", lit "2025-01-03T00:00:00+00:00") in
  let once_more :=
    ReactionAdd Scene.vera false Scene.voting_message GREEN Scene.guild
      (lit "v6", lit "2025-01-04T00:00:00+00:00") in
  reputation_ok (reputation s)
  ∧ aggregates_equiv (reputation s)
      (reputation (on_reaction_add Scene.quiet again s).1)
  ∧ reputation (on_reaction_add Scene.quiet once_more
                  (on_reaction_add Scene.quiet again s).1).1
    = reputation (on_reaction_add Scene.quiet again s).1.
Proof.
  intros s again once_more.
  assert (Hok : reputation_ok (reputation s)) by apply run_ok.
  split; [exact Hok|].
  destruct (reapplied_stance_is_noop Scene.quiet again s Hok) as [Hnoop Htwice].
  split.
  - apply (Hnoop (MessageInfo Scene.alice (lit "unknown") (lit "unknown"))
             (UserData 2 0 {[lit "unknown" :=
                TokenData 2 0 [Scene.vera; Scene.walt] [] (Some (lit "unknown"))]})
             (TokenData 2 0 [Scene.vera; Scene.walt] [] (Some (lit "unknown")))).
    + vm_compute. reflexivity.
    + vm_compute. reflexivity.
    + vm_compute. reflexivity.
    + apply list_elem_of_here.
  - apply (Htwice Scene.quiet once_more). repeat split.
Defined.

(** * Further properties *)

(** ** The pattern matcher *)

Section Matcher.
Context {R : Type}.
Implicit Types (k : Re.cont R) (s : pystr) (g : option pystr).

(** A successful repetition read [n] characters of the class, [n] within
    the bounds, and went on from there. *)
Lemma rep_class_inv p lo hi pos s g k res :
  Re.rep_class p lo hi pos s g k = Some res →
  ∃ n, (lo ≤ n)%nat ∧ (∀ h, hi = Some h → n ≤ h)%nat ∧ (n ≤ List.length s)%nat
       ∧ Forall (λ c, p c = true) (take n s)
       ∧ k (pos + n)%nat (drop n s) g = Some res.
Proof.
  revert lo hi pos. induction s as [|c s IH]; intros lo hi pos; simpl.
  - destruct (lo =? 0)%nat eqn:Hlo; [|done]. apply Nat.eqb_eq in Hlo.
    intros Hk. exists 0%nat. rewrite Nat.add_0_r.
    repeat split; [lia | intros; lia | lia | constructor | done].
  - assert (Hstop : (if (lo =? 0)%nat then k pos (c :: s) g else None) = Some res →
              ∃ n, (lo ≤ n)%nat ∧ (∀ h, hi = Some h → n ≤ h)%nat
                   ∧ (n ≤ S (List.length s))%nat
                   ∧ Forall (λ c, p c = true) (take n (c :: s))
                   ∧ k (pos + n)%nat (drop n (c :: s)) g = Some res).
    { destruct (lo =? 0)%nat eqn:Hlo; [|done]. apply Nat.eqb_eq in Hlo.
      intros Hk. exists 0%nat. rewrite Nat.add_0_r.
      repeat split; [lia | intros; lia | lia | constructor | done]. }
    destruct (p c && negb (Re.exhausted hi)) eqn:Hc; [|exact Hstop].
    apply andb_true_iff in Hc as [Hpc Hex].
    destruct (Re.rep_class p (pred lo) (pred <$> hi) (S pos) s g k) as [r|] eqn:Hrec;
      [|exact Hstop].
    intros [= <-]. apply IH in Hrec as (n & Hlo & Hhi & Hlen & Hall & Hk).
    exists (S n). repeat split.
    + lia.
    + intros h ->. simpl in Hex. destruct h as [|h]; [done|].
      specialize (Hhi h eq_refl). lia.
    + lia.
    + simpl. constructor; done.
    + simpl. by rewrite Nat.add_succ_r.
Qed.

(** A run of the class that ends the text or is followed by another
    character, with a length inside the bounds, is read whole when the
    rest of the pattern accepts after it. *)
Lemma rep_class_run p lo hi pos run rest g k res :
  Forall (λ c, p c = true) run →
  (lo ≤ List.length run ≤ hi)%nat →
  match rest with [] => True | c :: _ => p c = false end →
  k (pos + List.length run)%nat rest g = Some res →
  Re.rep_class p lo (Some hi) pos (run ++ rest) g k = Some res.
Proof.
  intros Hrun. revert lo hi pos. induction Hrun as [|c run Hc Hrun IH];
    intros lo hi pos Hlen Hrest Hk; simpl in *.
  - assert (lo = 0%nat) as -> by lia. rewrite Nat.add_0_r in Hk.
    destruct rest as [|c rest]; simpl; [done|]. by rewrite Hrest.
  - rewrite Hc. destruct hi as [|hi]; [lia|]. simpl.
    rewrite (IH (pred lo) hi (S pos)); [done | lia | done |].
    by rewrite Nat.add_succ_comm.
Qed.
End Matcher.

Section MatcherPatterns.
Context {R : Type}.
Implicit Types (k : Re.cont R) (s : pystr) (g : option pystr).

(** A pattern without a group reads a prefix of the text and hands the
    group on as it got it. *)
Lemma rmatch_no_group r pos s g k res :
  no_group r →
  Re.rmatch r pos s g k = Some res →
  ∃ n, (n ≤ List.length s)%nat ∧ k (pos + n)%nat (drop n s) g = Some res.
Proof.
  revert pos s g k. induction r as [c|p| |r1 IH1 r2 IH2|r1 IH|p lo hi];
    intros pos s g k Hng; simpl.
  - destruct s as [|x s]; [done|]. destruct (x =? c)%N; [|done].
    intros Hk. exists 1%nat. simpl. rewrite Nat.add_1_r. split; [lia | done].
  - destruct s as [|x s]; [done|]. destruct (p x); [|done].
    intros Hk. exists 1%nat. simpl. rewrite Nat.add_1_r. split; [lia | done].
  - destruct (pos =? 0)%nat; [|done].
    intros Hk. exists 0%nat. rewrite Nat.add_0_r. split; [lia | done].
  - destruct Hng as [Hng1 Hng2]. intros Hm.
    apply IH1 in Hm as (n1 & Hn1 & Hm); [|done].
    apply IH2 in Hm as (n2 & Hn2 & Hm); [|done].
    rewrite length_drop in Hn2. exists (n1 + n2)%nat.
    split; [lia|]. by rewrite <- drop_drop, Nat.add_assoc.
  - done.
  - intros Hm. apply rep_class_inv in Hm as (n & _ & _ & Hn & _ & Hk). eauto.
Qed.

(** A pattern with the symbol group hands on a symbol label. *)
Lemma rmatch_symbol_group r pos s g k res :
  one_symbol_group r →
  Re.rmatch r pos s g k = Some res →
  ∃ n lbl, (n ≤ List.length s)%nat ∧ symbol_label lbl
           ∧ k (pos + n)%nat (drop n s) (Some lbl) = Some res.
Proof.
  revert pos s g k. induction r as [c|p| |r1 IH1 r2 IH2|r1 IH|p lo hi];
    intros pos s g k Hone; simpl; try done.
  - intros Hm. destruct Hone as [[Hng Hone]|[Hone Hng]].
    + apply rmatch_no_group in Hm as (n1 & Hn1 & Hm); [|done].
      apply IH2 in Hm as (n2 & lbl & Hn2 & Hlbl & Hm); [|done].
      rewrite length_drop in Hn2. exists (n1 + n2)%nat, lbl.
      split; [lia|]. split; [done|]. by rewrite <- drop_drop, Nat.add_assoc.
    + apply IH1 in Hm as (n1 & lbl & Hn1 & Hlbl & Hm); [|done].
      apply rmatch_no_group in Hm as (n2 & Hn2 & Hm); [|done].
      rewrite length_drop in Hn2. exists (n1 + n2)%nat, lbl.
      split; [lia|]. split; [done|]. by rewrite <- drop_drop, Nat.add_assoc.
  - simpl in Hone. subst r1. simpl. intros Hm.
    apply rep_class_inv in Hm as (n & Hlo & Hhi & Hn & Hall & Hk).
    specialize (Hhi 20%nat eq_refl).
    replace (pos + n - pos)%nat with n in Hk by lia.
    exists n, (take n s). split; [done|]. split; [|done].
    split; [done|]. rewrite length_take. lia.
Qed.
End MatcherPatterns.

Lemma search_from_inv r pos s m :
  Re.search_from r pos s = Some m →
  ∃ pre s', s = pre ++ s' ∧ Re.match_at r (pos + List.length pre) s' = Some m.
Proof.
  revert pos. induction s as [|c s IH]; intros pos; simpl.
  - destruct (Re.match_at r pos []) eqn:Hm; [|done].
    intros [= <-]. exists [], []. by rewrite Nat.add_0_r.
  - destruct (Re.match_at r pos (c :: s)) eqn:Hm.
    + intros [= <-]. exists [], (c :: s). by rewrite Nat.add_0_r.
    + intros Hs. apply IH in Hs as (pre & s' & -> & Hm').
      exists (c :: pre), s'. split; [done|].
      simpl. by rewrite <- Nat.add_succ_comm.
Qed.

Lemma match_at_no_group r pos s m :
  no_group r →
  Re.match_at r pos s = Some m →
  ∃ n, (n ≤ List.length s)%nat ∧ Re.group0 m = take n s ∧ Re.m_rest m = drop n s.
Proof.
  intros Hng Hm. unfold Re.match_at in Hm.
  apply rmatch_no_group in Hm as (n & Hn & [= <-]); [|done].
  exists n. simpl. replace (pos + n - pos)%nat with n by lia. done.
Qed.

Lemma search_symbol_group r text m :
  one_symbol_group r →
  Re.search r text = Some m →
  symbol_label (group_1 m).
Proof.
  intros Hone Hs. apply search_from_inv in Hs as (pre & s' & _ & Hm).
  unfold Re.match_at in Hm.
  apply rmatch_symbol_group in Hm as (n & lbl & _ & Hlbl & [= <-]); [|done].
  done.
Qed.

(** ** Strings *)

Lemma lstrip_Forall (P : N → Prop) p s : Forall P s → Forall P (lstrip p s).
Proof.
  induction 1 as [|c s Hc Hs IH]; simpl; [constructor|].
  destruct (p c); [done | by constructor].
Qed.

Lemma lstrip_length p s : (List.length (lstrip p s) ≤ List.length s)%nat.
Proof. induction s as [|c s IH]; simpl; [lia|]. destruct (p c); simpl; lia. Qed.

Lemma strip_chars_Forall (P : N → Prop) p s :
  Forall P s → Forall P (strip_chars p s).
Proof.
  intros Hs. unfold strip_chars, rstrip.
  apply Forall_reverse, lstrip_Forall, Forall_reverse. by apply lstrip_Forall.
Qed.

Lemma strip_chars_length p s :
  (List.length (strip_chars p s) ≤ List.length s)%nat.
Proof.
  unfold strip_chars, rstrip. rewrite length_reverse.
  etrans; [apply lstrip_length|]. rewrite length_reverse. apply lstrip_length.
Qed.

Lemma symbol_class_ascii c : symbol_class c = true → is_ascii c.
Proof.
  unfold symbol_class, is_ascii_upper, is_ascii_lower, is_digit, in_range, is_ascii.
  rewrite !orb_true_iff, !andb_true_iff, !N.leb_le, N.eqb_eq. lia.
Qed.

Lemma upper_ascii tbl s :
  Forall is_ascii s → upper tbl s = ascii_upper <$> s.
Proof.
  induction 1 as [|c s Hc Hs IH]; [done|].
  change (upper tbl (c :: s)) with (upper_char tbl c ++ upper tbl s).
  rewrite IH, fmap_cons. unfold upper_char, ascii_upper.
  destruct (is_ascii_lower c); [done|].
  unfold is_ascii in Hc. apply N.ltb_lt in Hc. by rewrite Hc.
Qed.

Lemma ascii_upper_not_lower c :
  is_ascii c → is_ascii (ascii_upper c) ∧ is_ascii_lower (ascii_upper c) = false.
Proof.
  unfold ascii_upper, is_ascii. intros Hc.
  destruct (is_ascii_lower c) eqn:Hl; [|done].
  unfold is_ascii_lower, in_range in *.
  apply andb_true_iff in Hl as [H1%N.leb_le H2%N.leb_le].
  split; [lia|]. apply andb_false_iff. left. apply N.leb_gt. lia.
Qed.

Lemma sub_from_Forall (P : N → Prop) fuel r repl pos s :
  no_group r → Forall P repl → Forall P s →
  Forall P (Re.sub_from fuel r repl pos s).
Proof.
  intros Hng Hrepl. revert pos s.
  induction fuel as [|fuel IH]; intros pos s Hs; simpl; [done|].
  assert (Hstep : Forall P match s with
                           | [] => []
                           | c :: s' => c :: Re.sub_from fuel r repl (S pos) s'
                           end).
  { destruct Hs as [|c s Hc Hs]; [constructor|]. constructor; [done|]. by apply IH. }
  destruct (Re.match_at r pos s) as [m|] eqn:Hm; [|done].
  destruct (pos <? Re.m_end m)%nat; [|done].
  apply match_at_no_group in Hm as (n & _ & _ & ->); [|done].
  apply Forall_app. split; [done|]. by apply IH, Forall_drop.
Qed.

Lemma split_from_Forall (P : N → Prop) fuel r pos cur s :
  no_group r → Forall P cur → Forall P s →
  Forall (Forall P) (Re.split_from fuel r pos cur s).
Proof.
  intros Hng. revert pos cur s.
  induction fuel as [|fuel IH]; intros pos cur s Hcur Hs; simpl.
  { constructor; [|constructor]. apply Forall_app. split; [|done].
    by apply Forall_reverse. }
  assert (Hstep : Forall (Forall P)
                    match s with
                    | [] => [reverse cur]
                    | c :: s' => Re.split_from fuel r (S pos) (c :: cur) s'
                    end).
  { destruct Hs as [|c s Hc Hs].
    - constructor; [|constructor]. by apply Forall_reverse.
    - apply IH; [by constructor | done]. }
  destruct (Re.match_at r pos s) as [m|] eqn:Hm; [|done].
  destruct (pos <? Re.m_end m)%nat; [|done].
  apply match_at_no_group in Hm as (n & _ & _ & ->); [|done].
  constructor; [by apply Forall_reverse|].
  apply IH; [constructor | by apply Forall_drop].
Qed.

(** ** The symbol extractor on ASCII text *)

Lemma bold_dollar_one_group : one_symbol_group bold_dollar_pattern.
Proof. cbn. naive_solver. Qed.

Lemma dollar_one_group : one_symbol_group dollar_pattern.
Proof. cbn. naive_solver. Qed.

Lemma markdown_one_group : one_symbol_group markdown_pattern.
Proof. cbn. naive_solver. Qed.

Lemma paren_one_group : one_symbol_group paren_pattern.
Proof. cbn. naive_solver. Qed.

(** The upper-cased form of at most 20 ASCII characters. *)
Lemma upper_short_ascii tbl x :
  Forall is_ascii x → (List.length x ≤ 20)%nat →
  (List.length (upper tbl x) ≤ 20)%nat
  ∧ Forall (λ c, is_ascii c ∧ is_ascii_lower c = false) (upper tbl x)
  ∧ upper tbl x = upper no_unicode_case x.
Proof.
  intros Hx Hlen. rewrite !upper_ascii by done.
  split; [by rewrite length_fmap|]. split; [|done].
  apply Forall_fmap. eapply Forall_impl; [exact Hx|].
  intros c Hc. by apply ascii_upper_not_lower.
Qed.

Lemma symbol_label_ascii lbl :
  symbol_label lbl → Forall is_ascii lbl ∧ (List.length lbl ≤ 20)%nat.
Proof.
  intros [Hall Hlen]. split; [|lia].
  eapply Forall_impl; [exact Hall|]. apply symbol_class_ascii.
Qed.

Lemma upper_label tbl lbl :
  symbol_label lbl →
  (List.length (upper tbl lbl) ≤ 20)%nat
  ∧ Forall (λ c, is_ascii c ∧ is_ascii_lower c = false) (upper tbl lbl)
  ∧ upper tbl lbl = upper no_unicode_case lbl.
Proof. intros [Ha Hl]%symbol_label_ascii. by apply upper_short_ascii. Qed.

Lemma upper_stripped_label tbl lbl :
  symbol_label lbl →
  (List.length (upper tbl (strip lbl)) ≤ 20)%nat
  ∧ Forall (λ c, is_ascii c ∧ is_ascii_lower c = false) (upper tbl (strip lbl))
  ∧ upper tbl (strip lbl) = upper no_unicode_case (strip lbl).
Proof.
  intros [Ha Hl]%symbol_label_ascii. apply upper_short_ascii.
  - by apply strip_chars_Forall.
  - etrans; [apply strip_chars_length | done].
Qed.

(** X1: on text of ASCII characters the extracted symbol has at most 20
    characters, all ASCII and none a lower-case letter, and it does not
    depend on the case table of the runtime. *)
Theorem extract_token_symbol_ascii :
  ∀ (unicode_upper : N → pystr) (text : pystr),
    Forall is_ascii text →
    (List.length (extract_token_symbol unicode_upper text) ≤ 20)%nat
    ∧ Forall (λ c, is_ascii c ∧ is_ascii_lower c = false)
        (extract_token_symbol unicode_upper text)
    ∧ extract_token_symbol unicode_upper text
      = extract_token_symbol no_unicode_case text.
Proof.
  intros tbl text Htext. unfold extract_token_symbol.
  assert (Hnil : (List.length (@nil N) ≤ 20)%nat
                 ∧ Forall (λ c, is_ascii c ∧ is_ascii_lower c = false) []
                 ∧ @nil N = []).
  { split; [simpl; lia|]. split; [constructor | done]. }
  destruct text as [|c0 text0] eqn:Heq; [exact Hnil|].
  rewrite <- Heq in *. clear Heq.
  destruct (Re.search bold_dollar_pattern text) as [m|] eqn:H1.
  { apply upper_stripped_label.
    exact (search_symbol_group _ _ _ bold_dollar_one_group H1). }
  destruct (Re.search dollar_pattern text) as [m|] eqn:H2.
  { apply upper_label. exact (search_symbol_group _ _ _ dollar_one_group H2). }
  destruct (Re.search markdown_pattern text) as [m|] eqn:H3.
  { apply upper_stripped_label.
    exact (search_symbol_group _ _ _ markdown_one_group H3). }
  destruct (Re.search paren_pattern text) as [m|] eqn:H4.
  { apply upper_stripped_label.
    exact (search_symbol_group _ _ _ paren_one_group H4). }
  assert (Hparts : Forall (Forall is_ascii)
            (Re.split separator_pattern (Re.sub leading_glyphs_pattern [] text))).
  { apply split_from_Forall; [done | constructor |].
    apply sub_from_Forall; [done | constructor | done]. }
  destruct (Re.split _ _) as [|part parts]; [exact Hnil|].
  apply Forall_cons in Hparts as [Hpart _].
  pose proof (strip_chars_Forall is_ascii punctuation part Hpart) as Hsym.
  destruct (strip_chars punctuation part) as [|c sym] eqn:Hstrip;
    [exact Hnil|].
  apply upper_short_ascii.
  - unfold slice_to. by apply Forall_take.
  - unfold slice_to. rewrite length_take. lia.
Qed.

Lemma extract_token_symbol_ascii_witness :
  let text := lit "new gem (doge coin) live" in
  Forall is_ascii text
  ∧ (List.length (extract_token_symbol no_unicode_case text) ≤ 20)%nat
  ∧ extract_token_symbol no_unicode_case text = lit "DOGE COIN".
Proof.
  intros text.
  assert (Htext : Forall is_ascii text).
  { apply Forall_forall. intros c Hc. apply (bool_decide_unpack _).
    revert c Hc. apply Forall_forall. vm_compute. repeat constructor. }
  split; [exact Htext|].
  destruct (extract_token_symbol_ascii no_unicode_case text Htext) as (Hlen & _ & _).
  split; [exact Hlen|]. vm_compute. reflexivity.
Defined.

(** ** The address extractor *)

Lemma extract_token_address_unfold e :
  extract_token_address e
  = match Re.search SOLANA_PATTERN (embed_text e) with
    | Some m => Re.group0 m
    | None =>
        match Re.search ETHEREUM_PATTERN (embed_text e) with
        | Some m => Re.group0 m
        | None => lit "unknown"
        end
    end.
Proof. reflexivity. Qed.

Lemma search_occurs r text m :
  no_group r → Re.search r text = Some m →
  ∃ pre post, text = pre ++ Re.group0 m ++ post.
Proof.
  intros Hng Hs. apply search_from_inv in Hs as (pre & s' & -> & Hm).
  apply match_at_no_group in Hm as (n & _ & -> & _); [|done].
  exists pre, (drop n s'). by rewrite take_drop.
Qed.

(** X2: the extracted address is ["unknown"], or it occurs in the text
    of the embed and is either 32 to 44 base-58 characters or ["0x"] with
    40 hex digits. *)
Theorem extract_token_address_shape :
  ∀ e : embed,
    let a := extract_token_address e in
    a = lit "unknown"
    ∨ ((∃ pre post, embed_text e = pre ++ a ++ post)
       ∧ (((32 ≤ List.length a ≤ 44)%nat ∧ Forall (λ c, base58_class c = true) a)
          ∨ ∃ h, a = lit "0x" ++ h ∧ List.length h = 40%nat
                 ∧ Forall (λ c, hex_class c = true) h)).
Proof.
  intros e a. unfold a. rewrite extract_token_address_unfold.
  destruct (Re.search SOLANA_PATTERN (embed_text e)) as [m|] eqn:Hsol.
  { right. split; [apply (search_occurs SOLANA_PATTERN); [exact I | exact Hsol]|]. left.
    apply search_from_inv in Hsol as (pre & s' & _ & Hm).
    unfold Re.match_at, SOLANA_PATTERN in Hm. simpl in Hm.
    apply rep_class_inv in Hm as (n & Hlo & Hhi & Hn & Hall & [= <-]).
    specialize (Hhi 44%nat eq_refl). simpl.
    match goal with
    | |- context [take ?j s'] => replace j with n by lia
    end.
    rewrite length_take. split; [lia | done]. }
  destruct (Re.search ETHEREUM_PATTERN (embed_text e)) as [m|] eqn:Heth; [|by left].
  right. split; [apply (search_occurs ETHEREUM_PATTERN); [cbn; done | exact Heth]|]. right.
  apply search_from_inv in Heth as (pre & s' & _ & Hm).
  unfold Re.match_at, ETHEREUM_PATTERN in Hm. simpl in Hm.
  destruct s' as [|c1 s']; [done|]. destruct (c1 =? 48)%N eqn:H1; [|done].
  destruct s' as [|c2 s']; [done|]. destruct (c2 =? 120)%N eqn:H2; [|done].
  apply N.eqb_eq in H1, H2. subst c1 c2.
  apply rep_class_inv in Hm as (n & Hlo & Hhi & Hn & Hall & [= <-]).
  specialize (Hhi 40%nat eq_refl). assert (n = 40%nat) as -> by lia. simpl.
  match goal with
  | |- context [take ?j (48%N :: 120%N :: s')] => replace j with 42%nat by lia
  end.
  exists (take 40 s'). split; [done|]. split; [|done].
  rewrite length_take. lia.
Qed.

Lemma nonzero_hex_base58 c : nonzero_hex c = true → base58_class c = true.
Proof.
  unfold nonzero_hex, base58_class, in_range.
  rewrite !orb_true_iff, !andb_true_iff, !N.leb_le. lia.
Qed.

(** X3: the base-58 pattern is tried before the hex pattern, and [x] is a
    base-58 character; so for a text that is ["0x"] with 40 hex digits
    none of which is 0, ended or followed by a character outside the
    base-58 class, the address comes back as ["x"] and the 40 digits. *)
Theorem extract_token_address_zero_free_hex :
  ∀ (e : embed) (h rest : pystr),
    embed_text e = lit "0x" ++ h ++ rest →
    List.length h = 40%nat →
    Forall (λ c, nonzero_hex c = true) h →
    match rest with [] => True | c :: _ => base58_class c = false end →
    extract_token_address e = lit "x" ++ h.
Proof.
  intros e h rest Htext Hlen Hh Hrest.
  rewrite extract_token_address_unfold, Htext.
  change (lit "0x" ++ h ++ rest) with (48%N :: 120%N :: h ++ rest).
  unfold Re.search. simpl Re.search_from.
  change (Re.match_at SOLANA_PATTERN 0 (48%N :: 120%N :: h ++ rest)) with (@None Re.rmatch_result).
  cbv iota.
  assert (Hm : Re.match_at SOLANA_PATTERN 1 (120%N :: h ++ rest)
               = Some (Re.MatchResult 1 42 (120%N :: h) None rest)).
  { unfold Re.match_at, SOLANA_PATTERN, Re.between.
    apply (rep_class_run base58_class 32 44 1 (120%N :: h) rest None).
    - constructor; [done|]. eapply Forall_impl; [exact Hh|].
      apply nonzero_hex_base58.
    - simpl. lia.
    - done.
    - simpl. rewrite Hlen. simpl. do 2 f_equal.
      rewrite <- Hlen. by rewrite take_app_length. }
  rewrite Hm. reflexivity.
Qed.

Lemma extract_token_address_zero_free_hex_witness :
  let h := lit "1234567891abcdefABCDEF1234567891abcdef12" in
  let e := Embed (lit "") (lit "0x" ++ h) [(lit " chain", lit " eth")] (lit "") in
  embed_text e = lit "0x" ++ h ++ lit " chain eth"
  ∧ extract_token_address e = lit "x" ++ h.
Proof.
  intros h e. split; [vm_compute; reflexivity|].
  apply (extract_token_address_zero_free_hex e h (lit " chain eth")).
  - vm_compute. reflexivity.
  - vm_compute. reflexivity.
  - apply Forall_forall. intros c Hc. apply (bool_decide_unpack _).
    revert c Hc. apply Forall_forall. vm_compute. repeat constructor.
  - vm_compute. reflexivity.
Defined.

(** ** What a counted vote does *)

Lemma open_token_voters vt a sym u :
  voters vt (open_token a sym u)
  = voters vt (default (TokenData 0 0 [] [] None) (tokens u !! a)).
Proof. unfold open_token. destruct (tokens u !! a); by destruct vt. Qed.

Lemma open_token_count vt a sym u :
  token_count vt (open_token a sym u)
  = token_count vt (default (TokenData 0 0 [] [] None) (tokens u !! a)).
Proof. unfold open_token. destruct (tokens u !! a); by destruct vt. Qed.

(** The accounting of lines 570-582 for each vote type [k]: one off where
    the voter stood in the list of [k], one on where [k] is the new vote. *)
Lemma cast_vote_spec voter vt a sym u :
  let t0 := open_token a sym u in
  ∃ u' t',
    cast_vote voter vt a sym u
    = (contains voter (goodvoters t0) || contains voter (badvoters t0), u')
    ∧ tokens u' = <[a := t']> (tokens u)
    ∧ symbol t' = Some sym
    ∧ ∀ k,
        user_count k u'
        = user_count k u - indicator (contains voter (voters k t0))
          + indicator (bool_decide (k = vt))
        ∧ token_count k t'
          = token_count k t0 - indicator (contains voter (voters k t0))
            + indicator (bool_decide (k = vt))
        ∧ voters k t'
          = (if contains voter (voters k t0)
             then list_remove voter (voters k t0) else voters k t0)
            ++ (if bool_decide (k = vt) then [voter] else []).
Proof.
  intros t0. unfold cast_vote. fold t0.
  assert (Hsym : symbol t0 = Some sym) by apply open_token_symbol.
  destruct u as [g b m], t0 as [tg tb gv bv s0]. simpl in Hsym. subst s0.
  change (foldl (remove_existing voter)
            (false, UserData g b m, TokenData tg tb gv bv (Some sym)) [Good; Bad])
    with (remove_existing voter
            (remove_existing voter
               (false, UserData g b m, TokenData tg tb gv bv (Some sym)) Good) Bad).
  unfold remove_existing. simpl.
  destruct (contains voter gv) eqn:Hg; simpl;
    destruct (contains voter bv) eqn:Hb; simpl;
    destruct vt; simpl;
    (eexists _, _; split; [reflexivity|]; split; [reflexivity|];
     split; [reflexivity|];
     intros [|]; simpl; rewrite ?Hg, ?Hb; simpl;
     rewrite ?app_nil_r; repeat split; lia).
Qed.

(** The state a counted vote leaves. *)
Lemma on_reaction_add_counted env ev s info :
  counted ev s info →
  (on_reaction_add env ev s).1
  = BotState
      (<[str_of_int (author info) :=
           (cast_vote (ra_user ev) (vote_of_emoji (ra_emoji ev))
              (info_token_address info) (token_symbol info)
              (standing_user s info)).2]> (reputation s))
      (OrdDict.set (ra_stamp ev).1 (vote_record ev info) (reputation_log s))
      (<[(ra_stamp ev).1 := vote_record ev info]> (current_votes s))
      (disabled_voters s) (reputation_log_channels s) (token_messages s).
Proof.
  intros (Hbot & Hdis & Hinfo & Hother & Hglyph). unfold on_reaction_add.
  rewrite Hbot, Hinfo, Hglyph. simpl.
  rewrite (bool_decide_eq_false_2 _ Hdis), (bool_decide_eq_false_2 _ Hother).
  fold (standing_user s info).
  destruct (cast_vote _ _ _ _ _) as [e u].
  destruct (log_channel _ _ _); [destruct (log_send_fails env)|]; reflexivity.
Qed.

(** X4: a counted vote of a voter who stands in neither voter list of
    the token raises the author's and the token's counter of the vote's
    type by one and leaves the other counters, appends the voter to the
    list of that type, sets the symbol of the tracked message, and writes
    an active record under the generated id into the log and into
    [current_votes]. *)
Theorem first_vote_is_counted_once :
  ∀ env ev s info,
    counted ev s info →
    ra_user ev ∉ goodvoters (standing_token s info) →
    ra_user ev ∉ badvoters (standing_token s info) →
    let vt := vote_of_emoji (ra_emoji ev) in
    let u := standing_user s info in
    let t := standing_token s info in
    let s' := (on_reaction_add env ev s).1 in
    ∃ u' t',
      reputation s' !! str_of_int (author info) = Some u'
      ∧ tokens u' !! info_token_address info = Some t'
      ∧ user_count vt u' = user_count vt u + 1
      ∧ user_count (opposite vt) u' = user_count (opposite vt) u
      ∧ token_count vt t' = token_count vt t + 1
      ∧ token_count (opposite vt) t' = token_count (opposite vt) t
      ∧ voters vt t' = voters vt t ++ [ra_user ev]
      ∧ voters (opposite vt) t' = voters (opposite vt) t
      ∧ symbol t' = Some (token_symbol info)
      ∧ OrdDict.get (ra_stamp ev).1 (reputation_log s') = Some (vote_record ev info)
      ∧ current_votes s' !! (ra_stamp ev).1 = Some (vote_record ev info).
Proof.
  intros env ev s info Hcounted Hg Hb vt u t s'.
  unfold s'. rewrite (on_reaction_add_counted env ev s info Hcounted). simpl.
  destruct (cast_vote_spec (ra_user ev) vt (info_token_address info)
              (token_symbol info) u) as (u' & t' & Hcast & Htok & Hsym & Hk).
  fold vt u. rewrite Hcast. simpl.
  assert (Hin : ∀ k, contains (ra_user ev)
                       (voters k (open_token (info_token_address info)
                                    (token_symbol info) u)) = false).
  { intros k. rewrite open_token_voters. apply contains_false.
    destruct k; [exact Hg | exact Hb]. }
  exists u', t'. split; [apply lookup_insert_eq|].
  split; [rewrite Htok; apply lookup_insert_eq|].
  destruct (Hk vt) as (Hu1 & Ht1 & Hv1).
  destruct (Hk (opposite vt)) as (Hu2 & Ht2 & Hv2).
  rewrite Hin in Hu1, Ht1, Hv1, Hu2, Ht2, Hv2.
  rewrite bool_decide_eq_true_2 in Hu1, Ht1, Hv1 by done.
  rewrite bool_decide_eq_false_2 in Hu2, Ht2, Hv2 by (by destruct vt).
  rewrite open_token_count in Ht1, Ht2. rewrite open_token_voters in Hv1, Hv2.
  unfold indicator in *. rewrite app_nil_r in Hv2.
  split; [lia|]. split; [lia|].
  split; [rewrite Ht1; unfold t, standing_token; fold u; lia|].
  split; [rewrite Ht2; unfold t, standing_token; fold u; lia|].
  split; [exact Hv1|]. split; [exact Hv2|]. split; [exact Hsym|].
  split; [apply ord_get_set_eq | apply lookup_insert_eq].
Qed.

Lemma first_vote_is_counted_once_witness :
  let s := mem (run no_unicode_case [OnMessage Scene.call]) in
  let ev := ReactionAdd Scene.vera false Scene.voting_message GREEN Scene.guild
              (lit "v1", lit "2025-01-01T00:00:00+00:00") in
  let info := MessageInfo Scene.alice (lit "unknown") (lit "unknown") in
  counted ev s info
  ∧ ∃ u' t',
      reputation (on_reaction_add Scene.quiet ev s).1 !! str_of_int Scene.alice = Some u'
      ∧ tokens u' !! lit "unknown" = Some t'
      ∧ good u' = 1 ∧ bad u' = 0 ∧ tgood t' = 1 ∧ tbad t' = 0
      ∧ goodvoters t' = [Scene.vera] ∧ badvoters t' = [].
Proof.
  intros s ev info.
  assert (Hc : counted ev s info).
  { split; [reflexivity|]. split; [vm_compute; discriminate|].
    split; [vm_compute; reflexivity|]. split; [discriminate | reflexivity]. }
  split; [exact Hc|].
  destruct (first_vote_is_counted_once Scene.quiet ev s info Hc)
    as (u' & t' & Hu & Ht & Hg & Hb & Htg & Htb & Hgv & Hbv & _).
  - vm_compute. intros Hin. inversion Hin.
  - vm_compute. intros Hin. inversion Hin.
  - exists u', t'. split; [exact Hu|]. split; [exact Ht|].
    split; [exact Hg|]. split; [exact Hb|]. split; [exact Htg|].
    split; [exact Htb|]. split; [exact Hgv | exact Hbv].
Defined.

(** X5: a counted vote of a voter who stands in the list of the other
    type moves the voter: on the author's entry and on the token's the
    counter of the old type goes down by one and the counter of the new
    type up by one, and the voter leaves the old list and is appended to
    the new one. *)
Theorem vote_switch_moves_one_vote :
  ∀ env ev s info,
    counted ev s info →
    let vt := vote_of_emoji (ra_emoji ev) in
    let u := standing_user s info in
    let t := standing_token s info in
    ra_user ev ∈ voters (opposite vt) t →
    ra_user ev ∉ voters vt t →
    let s' := (on_reaction_add env ev s).1 in
    ∃ u' t',
      reputation s' !! str_of_int (author info) = Some u'
      ∧ tokens u' !! info_token_address info = Some t'
      ∧ user_count vt u' = user_count vt u + 1
      ∧ user_count (opposite vt) u' = user_count (opposite vt) u - 1
      ∧ token_count vt t' = token_count vt t + 1
      ∧ token_count (opposite vt) t' = token_count (opposite vt) t - 1
      ∧ voters vt t' = voters vt t ++ [ra_user ev]
      ∧ voters (opposite vt) t'
        = list_remove (ra_user ev) (voters (opposite vt) t).
Proof.
  intros env ev s info Hcounted vt u t Hopp Hnew s'.
  unfold s'. rewrite (on_reaction_add_counted env ev s info Hcounted). simpl.
  destruct (cast_vote_spec (ra_user ev) vt (info_token_address info)
              (token_symbol info) u) as (u' & t' & Hcast & Htok & Hsym & Hk).
  fold vt u. rewrite Hcast. simpl.
  assert (Hc1 : contains (ra_user ev)
                  (voters vt (open_token (info_token_address info)
                                (token_symbol info) u)) = false).
  { rewrite open_token_voters. apply contains_false. exact Hnew. }
  assert (Hc2 : contains (ra_user ev)
                  (voters (opposite vt)
                     (open_token (info_token_address info)
                        (token_symbol info) u)) = true).
  { rewrite open_token_voters. apply contains_true. exact Hopp. }
  exists u', t'. split; [apply lookup_insert_eq|].
  split; [rewrite Htok; apply lookup_insert_eq|].
  destruct (Hk vt) as (Hu1 & Ht1 & Hv1).
  destruct (Hk (opposite vt)) as (Hu2 & Ht2 & Hv2).
  rewrite Hc1 in Hu1, Ht1, Hv1. rewrite Hc2 in Hu2, Ht2, Hv2.
  rewrite bool_decide_eq_true_2 in Hu1, Ht1, Hv1 by done.
  rewrite bool_decide_eq_false_2 in Hu2, Ht2, Hv2 by (by destruct vt).
  rewrite open_token_count in Ht1, Ht2. rewrite open_token_voters in Hv1, Hv2.
  unfold indicator in *. rewrite app_nil_r in Hv2.
  split; [lia|]. split; [lia|].
  split; [rewrite Ht1; unfold t, standing_token; fold u; lia|].
  split; [rewrite Ht2; unfold t, standing_token; fold u; lia|].
  split; [exact Hv1 | exact Hv2].
Qed.

Lemma vote_switch_moves_one_vote_witness :
  let s := mem (run no_unicode_case
                  [OnMessage Scene.call; Scene.adds Scene.vera RED "v1"]) in
  let ev := ReactionAdd Scene.vera false Scene.voting_message GREEN Scene.guild
              (lit "v2", lit "2025-01-02T00:00:00+00:00") in
  let info := MessageInfo Scene.alice (lit "unknown") (lit "unknown") in
  counted ev s info
  ∧ Scene.vera ∈ badvoters (standing_token s info)
  ∧ ∃ u' t',
      reputation (on_reaction_add Scene.quiet ev s).1 !! str_of_int Scene.alice = Some u'
      ∧ tokens u' !! lit "unknown" = Some t'
      ∧ good u' = 1 ∧ bad u' = 0 ∧ tgood t' = 1 ∧ tbad t' = 0
      ∧ goodvoters t' = [Scene.vera] ∧ badvoters t' = [].
Proof.
  intros s ev info.
  assert (Hc : counted ev s info).
  { split; [reflexivity|]. split; [vm_compute; discriminate|].
    split; [vm_compute; reflexivity|]. split; [discriminate | reflexivity]. }
  assert (Hin : Scene.vera ∈ badvoters (standing_token s info)).
  { vm_compute. apply list_elem_of_here. }
  split; [exact Hc|]. split; [exact Hin|].
  destruct (vote_switch_moves_one_vote Scene.quiet ev s info Hc Hin)
    as (u' & t' & Hu & Ht & Hg & Hb & Htg & Htb & Hgv & Hbv).
  - vm_compute. intros Hno. inversion Hno.
  - exists u', t'. split; [exact Hu|]. split; [exact Ht|].
    split; [exact Hg|]. split; [exact Hb|]. split; [exact Htg|].
    split; [exact Htb|]. split; [exact Hgv|].
    refine (eq_trans Hbv _). vm_compute. reflexivity.
Defined.

(** ** What a retraction does *)

Lemma on_raw_reaction_remove_retracted env ev s info u t :
  retracted ev s info u t →
  let vt := vote_of_emoji (rr_emoji_name ev) in
  let test := matches (rr_user ev) (author info) (info_token_address info) vt
                (rr_message ev) in
  (on_raw_reaction_remove env ev s).1
  = BotState
      (<[str_of_int (author info) :=
           retract_vote (rr_user ev) vt (info_token_address info) u t]>
         (reputation s))
      (update_logs test (reputation_log s) (current_votes s)).1
      (update_logs test (reputation_log s) (current_votes s)).2
      (disabled_voters s) (reputation_log_channels s) (token_messages s).
Proof.
  intros (Hguild & Hdis & Hmember & Hinfo & Hother & Hglyph & Hu & Ht & Hin) vt test.
  unfold on_raw_reaction_remove.
  rewrite Hguild, Hmember, Hinfo, Hglyph, Hu, Ht. simpl.
  rewrite (bool_decide_eq_false_2 _ Hdis), (bool_decide_eq_false_2 _ Hother).
  rewrite (proj2 (contains_true _ _) Hin). fold vt test.
  destruct (update_logs test (reputation_log s) (current_votes s)) as [log cur].
  destruct (log_channel _ _ _); [destruct (log_send_fails env)|]; reflexivity.
Qed.

(** The handler either leaves everything as it is, with no effect, or it
    retracts. *)
Lemma on_raw_reaction_remove_cases env ev s :
  on_raw_reaction_remove env ev s = (s, [])
  ∨ ∃ info u t, retracted ev s info u t.
Proof.
  unfold on_raw_reaction_remove, retracted.
  destruct (rr_guild_found ev); simpl; [|by left].
  case_bool_decide as Hdis; [by left|].
  destruct (rr_member ev) as [|[|]]; [by left | by left |].
  destruct (token_messages s !! rr_message ev) as [info|]; [|by left].
  case_bool_decide as Hother; [by left|].
  destruct (is_vote_emoji (rr_emoji_name ev)) eqn:Hglyph; simpl; [|by left].
  destruct (reputation s !! _) as [u|] eqn:Hu; [|by left].
  destruct (tokens u !! _) as [t|] eqn:Ht; [|by left].
  destruct (contains _ _) eqn:Hin; [|by left].
  right. exists info, u, t. apply contains_true in Hin. done.
Qed.

Lemma OrdDict_get_fmap {A B} (f : A → B) (d : OrdDict.t pystr A) vid :
  OrdDict.get vid (prod_map id f <$> d) = f <$> OrdDict.get vid d.
Proof.
  induction d as [|[k v] d IH]; simpl; [done|].
  destruct (decide (k = vid)); [done | exact IH].
Qed.

Lemma matched_first test log vid v :
  OrdDict.get vid log = Some v → test v = true → matched test log vid = true.
Proof.
  unfold matched. induction log as [|[k v'] log IH]; simpl; [done|].
  destruct (decide (k = vid)) as [->|Hne].
  - intros [= ->] Htest. by rewrite bool_decide_eq_true_2, Htest.
  - intros Hget Htest. rewrite (IH Hget Htest). apply orb_true_r.
Qed.

Lemma retract_vote_spec voter vt a u t :
  ∃ t',
    tokens (retract_vote voter vt a u t) = <[a := t']> (tokens u)
    ∧ symbol t' = symbol t
    ∧ ∀ k,
        user_count k (retract_vote voter vt a u t)
        = (if bool_decide (k = vt) then Z.max 0 (user_count k u - 1)
           else user_count k u)
        ∧ token_count k t'
          = (if bool_decide (k = vt) then Z.max 0 (token_count k t - 1)
             else token_count k t)
        ∧ voters k t'
          = (if bool_decide (k = vt) then list_remove voter (voters k t)
             else voters k t).
Proof.
  unfold retract_vote, floor_decrement. eexists. split.
  { simpl. by rewrite tokens_set_user_count. }
  split; [by rewrite symbol_set_count, symbol_set_voters|].
  intros k. destruct k, vt, u, t; simpl; done.
Qed.

(** X6: a first vote followed by the removal of the same reaction gives
    the author's and the token's counters and voter lists back as they
    stood, provided the two counters of the vote's type were not below
    zero; the record written for the vote, active after the vote, is
    marked reversed by the removal (its flag is [true] afterwards, its
    other fields are as written) and is out of [current_votes]. *)
Theorem first_vote_then_removal_restores :
  ∀ env env' ev s info u t,
    counted ev s info →
    reputation s !! str_of_int (author info) = Some u →
    tokens u !! info_token_address info = Some t →
    ra_user ev ∉ goodvoters t →
    ra_user ev ∉ badvoters t →
    0 ≤ user_count (vote_of_emoji (ra_emoji ev)) u →
    0 ≤ token_count (vote_of_emoji (ra_emoji ev)) t →
    let s1 := (on_reaction_add env ev s).1 in
    let s2 := (on_raw_reaction_remove env' (removal_of ev) s1).1 in
    ∃ u2 t2,
      reputation s2 !! str_of_int (author info) = Some u2
      ∧ tokens u2 !! info_token_address info = Some t2
      ∧ good u2 = good u ∧ bad u2 = bad u
      ∧ tgood t2 = tgood t ∧ tbad t2 = tbad t
      ∧ goodvoters t2 = goodvoters t ∧ badvoters t2 = badvoters t
      ∧ reversed <$> OrdDict.get (ra_stamp ev).1 (reputation_log s1) = Some false
      ∧ (∃ v', OrdDict.get (ra_stamp ev).1 (reputation_log s2) = Some v'
               ∧ reversed v' = true
               ∧ v' = Vote (ra_stamp ev).1 (ra_user ev) (author info)
                        (info_token_address info) (vote_of_emoji (ra_emoji ev))
                        (ra_message ev) (ra_stamp ev).2 true)
      ∧ current_votes s2 !! (ra_stamp ev).1 = None.
Proof.
  intros env env' ev s info u t Hcounted Hu Ht Hg Hb Hcu Hct s1 s2.
  pose proof Hcounted as (Hbot & Hdis & Hinfo & Hother & Hglyph).
  set (vt := vote_of_emoji (ra_emoji ev)) in *.
  set (a := info_token_address info) in *.
  set (key := str_of_int (author info)) in *.
  assert (Hsu : standing_user s info = u).
  { unfold standing_user. fold key. by rewrite Hu. }
  assert (Hs1 : s1 = BotState
            (<[key := (cast_vote (ra_user ev) vt a (token_symbol info) u).2]>
               (reputation s))
            (OrdDict.set (ra_stamp ev).1 (vote_record ev info) (reputation_log s))
            (<[(ra_stamp ev).1 := vote_record ev info]> (current_votes s))
            (disabled_voters s) (reputation_log_channels s) (token_messages s)).
  { unfold s1. rewrite (on_reaction_add_counted env ev s info Hcounted).
    by rewrite Hsu. }
  destruct (cast_vote_spec (ra_user ev) vt a (token_symbol info) u)
    as (u1 & t1 & Hcast & Htok1 & Hsym1 & Hk1).
  rewrite Hcast in Hs1. simpl in Hs1.
  assert (Hopen : ∀ k, voters k (open_token a (token_symbol info) u) = voters k t
                       ∧ token_count k (open_token a (token_symbol info) u)
                         = token_count k t).
  { intros k. by rewrite open_token_voters, open_token_count, Ht. }
  assert (Hin : ∀ k, contains (ra_user ev) (voters k t) = false).
  { intros k. apply contains_false. destruct k; [exact Hg | exact Hb]. }
  assert (Hret : retracted (removal_of ev) s1 info u1 t1).
  { rewrite Hs1. unfold retracted, removal_of. simpl.
    repeat split; try done.
    - apply lookup_insert_eq.
    - rewrite Htok1. apply lookup_insert_eq.
    - fold vt. destruct (Hk1 vt) as (_ & _ & ->).
      rewrite bool_decide_eq_true_2 by done.
      apply elem_of_app. right. apply list_elem_of_here. }
  unfold s2. rewrite (on_raw_reaction_remove_retracted env' _ s1 info u1 t1 Hret).
  simpl. fold vt a key.
  destruct (retract_vote_spec (ra_user ev) vt a u1 t1) as (t2 & Htok2 & Hsym2 & Hk2).
  exists (retract_vote (ra_user ev) vt a u1 t1), t2.
  split; [apply lookup_insert_eq|].
  split; [rewrite Htok2; apply lookup_insert_eq|].
  assert (Hcounts : ∀ k,
            user_count k (retract_vote (ra_user ev) vt a u1 t1) = user_count k u
            ∧ token_count k t2 = token_count k t
            ∧ voters k t2 = voters k t).
  { intros k. destruct (Hk1 k) as (Hu1 & Ht1 & Hv1).
    destruct (Hk2 k) as (Hu2 & Ht2 & Hv2).
    destruct (Hopen k) as [Hov Hoc].
    rewrite ?Hov, ?Hoc, ?Hin in Hu1, Ht1, Hv1.
    rewrite Hu2, Ht2, Hv2, Hu1, Ht1, Hv1. unfold indicator.
    case_bool_decide as Hkvt.
    - subst k. split; [lia|]. split; [lia|].
      apply list_remove_last. apply contains_false, Hin.
    - by rewrite app_nil_r, !Z.sub_0_r, !Z.add_0_r. }
  destruct (Hcounts Good) as (HuG & HtG & HvG).
  destruct (Hcounts Bad) as (HuB & HtB & HvB). simpl in *.
  repeat (split; [done|]).
  assert (Htest : matches (ra_user ev) (author info) a vt (ra_message ev)
                    (vote_record ev info) = true).
  { unfold matches, vote_record. simpl.
    by rewrite !bool_decide_eq_true_2. }
  assert (Hget : OrdDict.get (ra_stamp ev).1 (reputation_log s1)
                 = Some (vote_record ev info)).
  { rewrite Hs1. simpl. apply ord_get_set_eq. }
  split; [by rewrite Hget|]. split.
  - exists (set_reversed true (vote_record ev info)). split.
    + rewrite update_logs_log, OrdDict_get_fmap, Hget. simpl.
      unfold mark_reversed. by rewrite Htest.
    + split; reflexivity.
  - rewrite update_logs_current.
    by rewrite (matched_first _ _ _ _ Hget Htest).
Qed.

Lemma first_vote_then_removal_restores_witness :
  let s := mem (run no_unicode_case
                  [OnMessage Scene.call; Scene.adds Scene.walt GREEN "v0"]) in
  let ev := ReactionAdd Scene.vera false Scene.voting_message GREEN Scene.guild
              (lit "v1", lit "2025-01-01T00:00:00+00:00") in
  let s1 := (on_reaction_add Scene.quiet ev s).1 in
  let s2 := (on_raw_reaction_remove Scene.quiet (removal_of ev) s1).1 in
  ∃ u2 t2,
    reputation s2 !! str_of_int Scene.alice = Some u2
    ∧ tokens u2 !! lit "unknown" = Some t2
    ∧ good u2 = 1 ∧ bad u2 = 0 ∧ tgood t2 = 1 ∧ tbad t2 = 0
    ∧ goodvoters t2 = [Scene.walt] ∧ badvoters t2 = []
    ∧ reversed <$> OrdDict.get (lit "v1") (reputation_log s1) = Some false
    ∧ reversed <$> OrdDict.get (lit "v1") (reputation_log s2) = Some true
    ∧ current_votes s2 !! lit "v1" = None.
Proof.
  intros s ev s1 s2.
  pose (t := TokenData 1 0 [Scene.walt] [] (Some (lit "unknown"))).
  pose (u := UserData 1 0 {[lit "unknown" := t]}).
  pose (info := MessageInfo Scene.alice (lit "unknown") (lit "unknown")).
  assert (Hc : counted ev s info).
  { split; [reflexivity|]. split; [vm_compute; discriminate|].
    split; [vm_compute; reflexivity|]. split; [discriminate | reflexivity]. }
  assert (Hg : Scene.vera ∉ goodvoters t).
  { apply (bool_decide_unpack _). vm_compute. exact I. }
  assert (Hb : Scene.vera ∉ badvoters t).
  { apply (bool_decide_unpack _). vm_compute. exact I. }
  destruct (first_vote_then_removal_restores Scene.quiet Scene.quiet ev s info u t Hc)
    as (u2 & t2 & Hu & Ht & H1 & H2 & H3 & H4 & H5 & H6 & Hactive
        & (v' & Hlog & Hrev & _) & Hcur);
    [vm_compute; reflexivity | vm_compute; reflexivity | exact Hg | exact Hb
    | vm_compute; discriminate | vm_compute; discriminate |].
  exists u2, t2. split; [exact Hu|]. split; [exact Ht|].
  split; [exact H1|]. split; [exact H2|]. split; [exact H3|]. split; [exact H4|].
  split; [exact H5|]. split; [exact H6|]. split; [exact Hactive|].
  split; [|exact Hcur].
  exact (eq_trans (f_equal (fmap reversed) Hlog) (f_equal Some Hrev)).
Defined.

(** X7: on well-formed aggregates a removal delivered a second time
    changes nothing and has no effect; and a removal by someone who does
    not stand in the voter list of the glyph's type changes nothing,
    whatever records the log holds. *)
Theorem repeated_removal_is_ignored :
  ∀ env env' ev s,
    reputation_ok (reputation s) →
    on_raw_reaction_remove env' ev (on_raw_reaction_remove env ev s).1
    = ((on_raw_reaction_remove env ev s).1, [])
    ∧ ((∀ info u t,
          token_messages s !! rr_message ev = Some info →
          reputation s !! str_of_int (author info) = Some u →
          tokens u !! info_token_address info = Some t →
          rr_user ev ∉ voters (vote_of_emoji (rr_emoji_name ev)) t) →
       on_raw_reaction_remove env ev s = (s, [])).
Proof.
  intros env env' ev s Hrep.
  assert (Hnone : ∀ env0 s0,
            (∀ info u t,
               token_messages s0 !! rr_message ev = Some info →
               reputation s0 !! str_of_int (author info) = Some u →
               tokens u !! info_token_address info = Some t →
               rr_user ev ∉ voters (vote_of_emoji (rr_emoji_name ev)) t) →
            on_raw_reaction_remove env0 ev s0 = (s0, [])).
  { intros env0 s0 Hout.
    destruct (on_raw_reaction_remove_cases env0 ev s0)
      as [Hsame|(info & u & t & Hret)]; [done|].
    destruct Hret as (_ & _ & _ & Hinfo & _ & _ & Hu & Ht & Hin).
    by destruct (Hout info u t Hinfo Hu Ht). }
  split; [|apply Hnone].
  destruct (on_raw_reaction_remove_cases env ev s)
    as [Hsame|(info & u & t & Hret)].
  { rewrite Hsame. simpl.
    destruct (on_raw_reaction_remove_cases env' ev s)
      as [Hsame'|(info & u & t & Hret)]; [done|].
    exfalso. unfold on_raw_reaction_remove in Hsame.
    destruct Hret as (Hguild & Hdis & Hmember & Hinfo & Hother & Hglyph & Hu & Ht & Hin).
    rewrite Hguild, Hmember, Hinfo, Hglyph, Hu, Ht in Hsame. simpl in Hsame.
    rewrite (bool_decide_eq_false_2 _ Hdis), (bool_decide_eq_false_2 _ Hother) in Hsame.
    rewrite (proj2 (contains_true _ _) Hin) in Hsame.
    destruct (update_logs _ _ _) as [log cur].
    assert (Hrepu : ∀ r : bot_state * list effect, r = (s, []) → r.2 = []) by (by intros ? ->).
    destruct (log_channel _ _ _); [destruct (log_send_fails env)|];
      apply Hrepu in Hsame; discriminate. }
  rewrite (on_raw_reaction_remove_retracted env ev s info u t Hret).
  apply Hnone. simpl.
  destruct Hret as (_ & _ & _ & Hinfo & _ & _ & Hu & Ht & Hin).
  intros info' u' t'. rewrite Hinfo. intros [= <-].
  rewrite lookup_insert_eq. intros [= <-].
  destruct (retract_vote_spec (rr_user ev) (vote_of_emoji (rr_emoji_name ev))
              (info_token_address info) u t) as (t2 & Htok2 & _ & Hk2).
  rewrite Htok2, lookup_insert_eq. intros [= <-].
  destruct (Hk2 (vote_of_emoji (rr_emoji_name ev))) as (_ & _ & ->).
  rewrite bool_decide_eq_true_2 by done.
  apply list_remove_not_elem_of, token_ok_voters. by eapply Hrep.
Qed.

Lemma repeated_removal_is_ignored_witness :
  let s := mem (run no_unicode_case
                  [OnMessage Scene.call; Scene.adds Scene.vera GREEN "v1"]) in
  let s1 := (on_raw_reaction_remove Scene.quiet Scene.vera_removes_green s).1 in
  reputation_ok (reputation s)
  ∧ s1 ≠ s
  ∧ on_raw_reaction_remove Scene.quiet Scene.vera_removes_green s1 = (s1, []).
Proof.
  intros s s1.
  assert (Hok : reputation_ok (reputation s)) by apply run_ok.
  split; [exact Hok|]. split; [vm_compute; discriminate|].
  exact (proj1 (repeated_removal_is_ignored Scene.quiet Scene.quiet
                  Scene.vera_removes_green s Hok)).
Defined.

(** ** Properties of every entry, kept by the handlers *)

Lemma on_reaction_add_cases env ev s :
  on_reaction_add env ev s = (s, [])
  ∨ (∃ info, ra_user ev = author info
             ∧ on_reaction_add env ev s
               = (s, reject_self_vote env (ra_message ev) (ra_user ev)))
  ∨ ∃ info, counted ev s info.
Proof.
  unfold on_reaction_add, counted.
  destruct (ra_user_bot ev); simpl; [by left|].
  case_bool_decide as Hdis; [by left|].
  destruct (token_messages s !! ra_message ev) as [info|]; [|by left].
  case_bool_decide as Hother; [right; left; by exists info|].
  destruct (is_vote_emoji (ra_emoji ev)) eqn:Hglyph; simpl; [|by left].
  right. right. by exists info.
Qed.

Lemma rep_Forall_insert P key u rep :
  rep_Forall P rep → P u → rep_Forall P (<[key := u]> rep).
Proof.
  intros Hrep Hu key' u'. rewrite lookup_insert.
  case_decide; [by intros [= <-]|]. apply Hrep.
Qed.

Lemma rep_Forall_standing P s info :
  P empty_user → rep_Forall P (reputation s) → P (standing_user s info).
Proof.
  intros Hempty Hrep. unfold standing_user.
  destruct (reputation s !! _) as [u|] eqn:Hu; simpl; [by eapply Hrep | done].
Qed.

Section Kept.
Variable P : user_data → Prop.
Hypothesis P_empty : P empty_user.
Hypothesis P_backfill : ∀ u, P u → P (backfill_user u).
Hypothesis P_retract :
  ∀ v vt a u t, P u → tokens u !! a = Some t → P (retract_vote v vt a u t).
Hypothesis P_remove :
  ∀ v u, P u →
    P (remove_from_token v
         (set_user_count (vote_type v)
            (floor_decrement (user_count (vote_type v) u)) u)).
Hypothesis P_add_one : ∀ vt u, P u → P (set_user_count vt (user_count vt u + 1) u).

Lemma kept_by_removal env ev s :
  rep_Forall P (reputation s) →
  rep_Forall P (reputation (on_raw_reaction_remove env ev s).1).
Proof.
  intros Hrep.
  destruct (on_raw_reaction_remove_cases env ev s)
    as [->|(info & u & t & Hret)]; [done|].
  rewrite (on_raw_reaction_remove_retracted env ev s info u t Hret). simpl.
  destruct Hret as (_ & _ & _ & _ & _ & _ & Hu & Ht & _).
  apply rep_Forall_insert; [done|]. apply P_retract; [by eapply Hrep | done].
Qed.

Lemma kept_by_repremove is_admin vote_ids s :
  rep_Forall P (reputation s) →
  rep_Forall P (reputation (repremove is_admin vote_ids s).1).
Proof.
  intros Hrep. unfold repremove. destruct (negb is_admin); [done|].
  assert (Hfold : ∀ ids acc, rep_Forall P (reputation acc.1) →
            rep_Forall P (reputation (foldl repremove_round acc ids).1)).
  { induction ids as [|vid ids IH]; intros acc Hacc; simpl; [done|].
    apply IH. destruct acc as [s0 res]. simpl in *.
    destruct (OrdDict.get vid (reputation_log s0)) as [v|]; [|done].
    destruct (reversed v); [done|]. simpl.
    unfold remove_from_counts.
    destruct (reputation s0 !! _) as [u|] eqn:Hu; [|done].
    apply rep_Forall_insert; [done|]. apply P_remove. by eapply Hacc. }
  specialize (Hfold (raw_ids vote_ids) (s, RemovalResults [] [] []) Hrep).
  destruct (foldl _ _ _) as [s' res]. done.
Qed.

Lemma kept_by_repadd env is_admin caller guild user amount vt fresh s :
  rep_Forall P (reputation s) →
  rep_Forall P
    (reputation (repadd env is_admin caller guild user amount vt fresh s).1).
Proof.
  intros Hrep. unfold repadd. destruct (negb is_admin); [done|].
  case_bool_decide; [done|].
  set (s0 := match reputation s !! str_of_int user with
             | Some _ => s | None => _ end).
  assert (Hs0 : rep_Forall P (reputation s0)).
  { unfold s0. destruct (reputation s !! str_of_int user); [done|].
    simpl. by apply rep_Forall_insert. }
  assert (Hfold : ∀ sts s1, rep_Forall P (reputation s1) →
            rep_Forall P (reputation (foldl (repadd_round user caller vt) s1 sts))).
  { induction sts as [|st sts IH]; intros s1 Hs1; simpl; [done|].
    apply IH. intros key u. unfold repadd_round. simpl. rewrite lookup_alter.
    case_decide; [|apply Hs1]. subst key.
    destruct (reputation s1 !! str_of_int user) as [u0|] eqn:Hu0; simpl; [|done].
    intros [= <-]. apply P_add_one. by eapply Hs1. }
  specialize (Hfold (fresh <$> seq 0 (Z.to_nat amount)) s0 Hs0).
  destruct (log_channel _ _ _); [destruct (log_send_fails env)|]; done.
Qed.

Lemma kept_by_load d s :
  rep_Forall P (reputation s) →
  (∀ r, reputation_json d = Some r → rep_Forall P r) →
  rep_Forall P (reputation (load_data d s)).
Proof.
  intros Hs Hd. unfold load_data.
  destruct (reputation_json d) as [r|]; [|done].
  specialize (Hd r eq_refl).
  destruct (reputation_log_json d); [|done].
  destruct (disabled_voters_json d); [|done].
  destruct (reputation_log_channels_json d); [|done].
  destruct (current_votes_json d); [|done].
  simpl. intros key u. rewrite lookup_fmap.
  destruct (r !! key) as [u0|] eqn:Hu0; simpl; [|done].
  intros [= <-]. apply P_backfill. by eapply Hd.
Qed.

Lemma kept_by_commit w r :
  world_Forall P w → rep_Forall P (reputation r.1) → world_Forall P (commit w r).1.
Proof.
  intros [_ Hdisk] Hr. split; simpl; [done|].
  destruct (saved r.2); [|done]. simpl. by intros ? [= <-].
Qed.

(** Every handler keeps the property, the reaction-add handler provided
    the vote accounting keeps it. *)
Lemma kept_by_step tbl w e :
  (is_reaction_add e = true →
   ∀ v vt a sym u, P u → P (cast_vote v vt a sym u).2) →
  world_Forall P w → world_Forall P (step tbl w e).1.
Proof.
  intros Hcast Hw. pose proof Hw as [Hmem Hdisk]. destruct e; simpl.
  - apply kept_by_commit; [done|]. by rewrite on_message_reputation.
  - apply kept_by_commit; [done|].
    destruct (on_reaction_add_cases env ev (mem w))
      as [->|[(info & _ & ->)|(info & Hcounted)]]; [done | done |].
    rewrite (on_reaction_add_counted env ev _ info Hcounted). simpl.
    apply rep_Forall_insert; [done|]. apply Hcast; [done|].
    by apply rep_Forall_standing.
  - apply kept_by_commit; [done|]. by apply kept_by_removal.
  - apply kept_by_commit; [done|]. by apply kept_by_repadd.
  - apply kept_by_commit; [done|]. unfold replogs. by destruct (negb _).
  - apply kept_by_commit; [done|]. unfold repdisable. by destruct (negb _).
  - apply kept_by_commit; [done|]. by apply kept_by_repremove.
  - split; simpl; [|done]. by apply kept_by_load.
  - split; simpl; [|done]. apply kept_by_load; [|done].
    intros key u. simpl. by rewrite lookup_empty.
Qed.
End Kept.

Lemma user_nonneg_retract v vt a u t :
  user_nonneg u → tokens u !! a = Some t → user_nonneg (retract_vote v vt a u t).
Proof.
  intros (Hg & Hb & Htok) Ht.
  destruct (retract_vote_spec v vt a u t) as (t' & Htok' & _ & Hk).
  destruct (Hk Good) as (HuG & HtG & _). destruct (Hk Bad) as (HuB & HtB & _).
  destruct (Htok a t Ht) as [Htg Htb].
  change (good u) with (user_count Good u) in Hg.
  change (bad u) with (user_count Bad u) in Hb.
  change (tgood t) with (token_count Good t) in Htg.
  change (tbad t) with (token_count Bad t) in Htb.
  unfold user_nonneg.
  change (good (retract_vote v vt a u t))
    with (user_count Good (retract_vote v vt a u t)).
  change (bad (retract_vote v vt a u t))
    with (user_count Bad (retract_vote v vt a u t)).
  rewrite HuG, HuB.
  split; [destruct (bool_decide (Good = vt)); lia|].
  split; [destruct (bool_decide (Bad = vt)); lia|].
  intros a' t0. rewrite Htok', lookup_insert.
  destruct (decide (a = a')) as [_|_].
  - intros [= <-].
    change (tgood t') with (token_count Good t').
    change (tbad t') with (token_count Bad t').
    rewrite HtG, HtB.
    split; [destruct (bool_decide (Good = vt)) | destruct (bool_decide (Bad = vt))];
      lia.
  - apply Htok.
Qed.

Lemma user_nonneg_remove v u :
  user_nonneg u →
  user_nonneg
    (remove_from_token v
       (set_user_count (vote_type v)
          (floor_decrement (user_count (vote_type v) u)) u)).
Proof.
  intros (Hg & Hb & Htok).
  set (u1 := set_user_count _ _ u).
  assert (Hu1 : user_nonneg u1).
  { unfold u1, floor_decrement, user_nonneg. destruct (vote_type v); simpl;
      (split; [lia|]); (split; [lia|]); exact Htok. }
  destruct Hu1 as (Hg1 & Hb1 & Htok1).
  unfold remove_from_token. case_bool_decide; [|done].
  destruct (tokens u1 !! token_address v) as [t|] eqn:Ht; [|done].
  destruct (Htok1 _ _ Ht) as [Htg Htb].
  split; [done|]. split; [done|]. intros a' t0. simpl. rewrite lookup_insert.
  destruct (decide (token_address v = a')) as [_|_]; [|apply Htok1].
  intros [= <-]. unfold floor_decrement.
  destruct (contains _ _), (vote_type v), t; simpl in *; lia.
Qed.

Lemma user_nonneg_add_one vt u :
  user_nonneg u → user_nonneg (set_user_count vt (user_count vt u + 1) u).
Proof.
  intros (Hg & Hb & Htok). unfold user_nonneg.
  destruct vt; simpl; (split; [lia|]); (split; [lia|]); exact Htok.
Qed.

Lemma user_nonneg_backfill u : user_nonneg u → user_nonneg (backfill_user u).
Proof.
  intros (Hg & Hb & Htok). split; [done|]. split; [done|].
  intros a t. rewrite backfill_user_lookup.
  destruct (tokens u !! a) as [t0|] eqn:Ht0; simpl; [|done].
  intros [= <-]. unfold backfill_token.
  destruct (Htok a t0 Ht0) as [Htg Htb]. by destruct (symbol t0).
Qed.

Lemma user_nonneg_empty : user_nonneg empty_user.
Proof.
  unfold user_nonneg. simpl. split; [lia|]. split; [lia|].
  intros a t. by rewrite lookup_empty.
Qed.

(** X8: every handler other than the reaction-add handler keeps all
    counters at zero or above: if no counter in memory or in the saved
    file is below zero before the event, none is after it. *)
Theorem counters_stay_nonnegative_outside_reaction_add :
  ∀ (unicode_upper : N → pystr) (w : world) (e : event),
    is_reaction_add e = false →
    world_Forall user_nonneg w →
    world_Forall user_nonneg (step unicode_upper w e).1.
Proof.
  intros tbl w e Hnot Hw.
  apply (kept_by_step user_nonneg user_nonneg_empty user_nonneg_backfill
           user_nonneg_retract user_nonneg_remove user_nonneg_add_one tbl w e);
    [by rewrite Hnot | done].
Qed.

Lemma counters_stay_nonnegative_outside_reaction_add_witness :
  let fresh := λ i : nat,
    (lit "a" ++ str_of_int (Z.of_nat i), lit "2025-02-01T00:00:00+00:00") in
  let w := (step no_unicode_case boot
              (RepAdd Scene.quiet true 7 Scene.guild Scene.alice 1 Good fresh)).1 in
  world_Forall user_nonneg w
  ∧ world_Forall user_nonneg
      (step no_unicode_case
         (step no_unicode_case w (Scene.admin_removes "a0")).1
         (Scene.admin_removes "a0")).1.
Proof.
  intros fresh w.
  assert (Hboot : world_Forall user_nonneg boot).
  { split; [intros key u Hu; simpl in Hu | intros r Hr; discriminate].
    rewrite lookup_empty in Hu. discriminate. }
  assert (Hw : world_Forall user_nonneg w).
  { apply counters_stay_nonnegative_outside_reaction_add; [reflexivity | exact Hboot]. }
  split; [exact Hw|].
  apply counters_stay_nonnegative_outside_reaction_add; [reflexivity|].
  apply counters_stay_nonnegative_outside_reaction_add; [reflexivity | exact Hw].
Defined.

(** ** Symbols are always written *)

Lemma user_symbols_empty : user_symbols empty_user.
Proof. intros a t. simpl. by rewrite lookup_empty. Qed.

Lemma user_symbols_backfill u : user_symbols u → user_symbols (backfill_user u).
Proof.
  intros Hu a t. rewrite backfill_user_lookup.
  destruct (tokens u !! a) as [t0|] eqn:Ht0; simpl; [|done].
  intros [= <-]. unfold backfill_token.
  destruct (symbol t0) eqn:Hs; [by rewrite Hs | done].
Qed.

Lemma user_symbols_retract v vt a u t :
  user_symbols u → tokens u !! a = Some t → user_symbols (retract_vote v vt a u t).
Proof.
  intros Hu Ht a' t0.
  destruct (retract_vote_spec v vt a u t) as (t' & -> & Hsym & _).
  rewrite lookup_insert. destruct (decide (a = a')) as [_|_]; [|apply Hu].
  intros [= <-]. rewrite Hsym. by eapply Hu.
Qed.

Lemma user_symbols_remove v u :
  user_symbols u →
  user_symbols
    (remove_from_token v
       (set_user_count (vote_type v)
          (floor_decrement (user_count (vote_type v) u)) u)).
Proof.
  intros Hu. set (u1 := set_user_count _ _ u).
  assert (Hu1 : user_symbols u1).
  { intros a t. unfold u1. rewrite tokens_set_user_count. apply Hu. }
  unfold remove_from_token. case_bool_decide; [|done].
  destruct (tokens u1 !! token_address v) as [t|] eqn:Ht; [|done].
  intros a' t0. simpl. rewrite lookup_insert.
  destruct (decide (token_address v = a')) as [_|_]; [|apply Hu1].
  intros [= <-].
  destruct (contains _ _);
    rewrite ?symbol_set_voters, symbol_set_count; by eapply Hu1.
Qed.

Lemma user_symbols_add_one vt u :
  user_symbols u → user_symbols (set_user_count vt (user_count vt u + 1) u).
Proof. intros Hu a t. rewrite tokens_set_user_count. apply Hu. Qed.

Lemma user_symbols_cast v vt a sym u :
  user_symbols u → user_symbols (cast_vote v vt a sym u).2.
Proof.
  intros Hu a' t0.
  destruct (cast_vote_spec v vt a sym u) as (u' & t' & Hcast & Htok & Hsym & _).
  rewrite Hcast. simpl. rewrite Htok.
  rewrite lookup_insert. destruct (decide (a = a')) as [_|_]; [|apply Hu].
  intros [= <-]. by rewrite Hsym.
Qed.

Lemma run_symbols tbl es : world_Forall user_symbols (run tbl es).
Proof.
  unfold run. assert (Hboot : world_Forall user_symbols boot).
  { split; simpl; [|done]. intros key u. by rewrite lookup_empty. }
  revert Hboot. generalize boot. induction es as [|e es IH]; intros w Hw; simpl; [done|].
  apply IH.
  apply (kept_by_step user_symbols user_symbols_empty user_symbols_backfill
           user_symbols_retract user_symbols_remove user_symbols_add_one tbl w e);
    [|done].
  intros _. apply user_symbols_cast.
Qed.

(** X9: in every state the machine reaches from its first start every
    token entry has a symbol, so the backfill of [load_data] changes
    nothing: loading what [save_data] wrote gives back the reputation
    data, the vote log, the active votes and the disabled voters exactly,
    and leaves the tracked messages of the loading process alone. *)
Theorem reachable_state_survives_reload :
  ∀ (unicode_upper : N → pystr) (es : list event) (s0 : bot_state),
    let s := mem (run unicode_upper es) in
    let s' := load_data (save_data s) s0 in
    (∀ key u a t, reputation s !! key = Some u → tokens u !! a = Some t →
       symbol t ≠ None)
    ∧ reputation s' = reputation s
    ∧ reputation_log s' = reputation_log s
    ∧ current_votes s' = current_votes s
    ∧ disabled_voters s' = disabled_voters s
    ∧ token_messages s' = token_messages s0.
Proof.
  intros tbl es s0 s s'.
  assert (Hsym : ∀ key u a t, reputation s !! key = Some u →
            tokens u !! a = Some t → symbol t ≠ None).
  { intros key u a t Hu Ht. destruct (run_symbols tbl es) as [Hmem _].
    by apply (Hmem key u Hu a t). }
  split; [exact Hsym|]. split.
  - change (reputation s') with (backfill_user <$> reputation s).
    apply map_eq. intros key. rewrite lookup_fmap.
    destruct (reputation s !! key) as [u|] eqn:Hu; simpl; [|done].
    f_equal. apply backfill_user_id. intros a t Ht. by eapply Hsym.
  - split; [reflexivity|]. split; [reflexivity|].
    split; [apply list_to_set_elements_L | reflexivity].
Qed.

(** ** The active votes and the log *)

Section OrdDictKeys.
Context {V : Type}.
Implicit Types (d : OrdDict.t pystr V).

Lemma ord_get_None d k : OrdDict.get k d = None ↔ k ∉ d.*1.
Proof.
  induction d as [|[k' v] d IH]; simpl.
  - split; [intros _; apply not_elem_of_nil | done].
  - destruct (decide (k' = k)) as [->|Hne].
    + split; [done|]. intros Hnot. destruct Hnot. apply list_elem_of_here.
    + rewrite IH, not_elem_of_cons. split; [by split | by intros [_ ?]].
Qed.

Lemma ord_set_keys d k v :
  (OrdDict.set k v d).*1 = if decide (k ∈ d.*1) then d.*1 else d.*1 ++ [k].
Proof.
  induction d as [|[k' v'] d IH].
  - destruct (decide (k ∈ ([] : OrdDict.t pystr V).*1)) as [Hin|_]; [|done].
    by apply elem_of_nil in Hin.
  - change (((k', v') :: d).*1) with (k' :: d.*1).
    change (OrdDict.set k v ((k', v') :: d))
      with (if decide (k' = k) then (k', v) :: d else (k', v') :: OrdDict.set k v d).
    destruct (decide (k' = k)) as [->|Hne].
    + destruct (decide (k ∈ k :: d.*1)) as [_|Hnot]; [done|].
      destruct Hnot. apply list_elem_of_here.
    + change (((k', v') :: OrdDict.set k v d).*1)
        with (k' :: (OrdDict.set k v d).*1).
      rewrite IH. destruct (decide (k ∈ d.*1)) as [Hin|Hnot].
      * destruct (decide (k ∈ k' :: d.*1)) as [_|Hnot']; [done|].
        destruct Hnot'. by apply list_elem_of_further.
      * destruct (decide (k ∈ k' :: d.*1)) as [Hin'|_]; [|done].
        apply elem_of_cons in Hin' as [->|Hin']; done.
Qed.

Lemma ord_set_NoDup d k v : NoDup d.*1 → NoDup (OrdDict.set k v d).*1.
Proof.
  intros Hd. rewrite ord_set_keys. destruct (decide (k ∈ d.*1)); [done|].
  apply NoDup_app. split; [done|]. split; [|apply NoDup_singleton].
  intros x Hx ->%list_elem_of_singleton. done.
Qed.
End OrdDictKeys.

Lemma active_record_set log vid v vid' :
  active_record (OrdDict.set vid v log) vid'
  = if decide (vid = vid') then (if reversed v then None else Some v)
    else active_record log vid'.
Proof.
  unfold active_record. destruct (decide (vid = vid')) as [->|Hne].
  - by rewrite ord_get_set_eq.
  - by rewrite ord_get_set_ne.
Qed.

Lemma synced_write log cur vid v :
  reversed v = false →
  ledger_synced log cur →
  ledger_synced (OrdDict.set vid v log) (<[vid := v]> cur).
Proof.
  intros Hv [Hnd Hsync]. split; [by apply ord_set_NoDup|].
  intros vid'. rewrite active_record_set, lookup_insert, Hv.
  destruct (decide (vid = vid')); [done | apply Hsync].
Qed.

Lemma synced_reverse log cur vid v :
  ledger_synced log cur →
  ledger_synced (OrdDict.set vid (set_reversed true v) log) (delete vid cur).
Proof.
  intros [Hnd Hsync]. split; [by apply ord_set_NoDup|].
  intros vid'. rewrite active_record_set, lookup_delete. simpl.
  destruct (decide (vid = vid')); [done | apply Hsync].
Qed.

Lemma matched_NoDup test log vid :
  NoDup log.*1 →
  matched test log vid
  = match OrdDict.get vid log with Some v => test v | None => false end.
Proof.
  unfold matched. induction log as [|[k v] log IH]; simpl; [done|].
  intros [Hk Hnd]%NoDup_cons. destruct (decide (k = vid)) as [->|Hne].
  - rewrite bool_decide_eq_true_2 by done. simpl.
    rewrite IH by done. apply ord_get_None in Hk. rewrite Hk.
    apply orb_false_r.
  - rewrite bool_decide_eq_false_2 by done. simpl. by apply IH.
Qed.

Lemma synced_update_logs test log cur :
  ledger_synced log cur →
  ledger_synced (update_logs test log cur).1 (update_logs test log cur).2.
Proof.
  intros [Hnd Hsync]. split.
  - rewrite update_logs_log.
    assert (Hkeys : (prod_map id (mark_reversed test) <$> log).*1 = log.*1).
    { clear. induction log as [|[k v] log IH]; [done|].
      cbn. f_equal. exact IH. }
    by rewrite Hkeys.
  - intros vid. rewrite update_logs_current, matched_NoDup by done.
    unfold active_record. rewrite update_logs_log, OrdDict_get_fmap, Hsync.
    unfold active_record, mark_reversed.
    destruct (OrdDict.get vid log) as [v|]; simpl; [|done].
    destruct (test v); simpl; [done|]. done.
Qed.

Lemma track_first_embed_frame tbl m i es s :
  let s' := (track_first_embed tbl m i es s).1 in
  reputation s' = reputation s ∧ reputation_log s' = reputation_log s
  ∧ current_votes s' = current_votes s ∧ disabled_voters s' = disabled_voters s
  ∧ reputation_log_channels s' = reputation_log_channels s.
Proof.
  revert i s. induction es as [|e es IH]; intros i s; simpl; [done|].
  destruct (footer_text e); [apply IH|].
  destruct (split_ws _) as [|username ?].
  { specialize (IH (S i) s). by destruct (track_first_embed tbl m (S i) es s). }
  destruct (guild_members m) as [members|].
  2: { specialize (IH (S i) s). by destruct (track_first_embed tbl m (S i) es s). }
  destruct (find_member _ _) as [member|]; [|apply IH].
  destruct (post m i) as [|id [| |]].
  - specialize (IH (S i) s). by destruct (track_first_embed tbl m (S i) es s).
  - done.
  - match goal with
    | |- context [track_first_embed tbl m (S i) es ?s1] =>
        specialize (IH (S i) s1); by destruct (track_first_embed tbl m (S i) es s1)
    end.
  - match goal with
    | |- context [track_first_embed tbl m (S i) es ?s1] =>
        specialize (IH (S i) s1); by destruct (track_first_embed tbl m (S i) es s1)
    end.
Qed.

Lemma synced_on_reaction_add env ev s :
  ledger_synced (reputation_log s) (current_votes s) →
  ledger_synced (reputation_log (on_reaction_add env ev s).1)
    (current_votes (on_reaction_add env ev s).1).
Proof.
  intros Hs.
  destruct (on_reaction_add_cases env ev s)
    as [->|[(info & _ & ->)|(info & Hcounted)]]; [done | done |].
  rewrite (on_reaction_add_counted env ev s info Hcounted). simpl.
  by apply synced_write.
Qed.

Lemma synced_removal env ev s :
  ledger_synced (reputation_log s) (current_votes s) →
  ledger_synced (reputation_log (on_raw_reaction_remove env ev s).1)
    (current_votes (on_raw_reaction_remove env ev s).1).
Proof.
  intros Hs.
  destruct (on_raw_reaction_remove_cases env ev s)
    as [->|(info & u & t & Hret)]; [done|].
  rewrite (on_raw_reaction_remove_retracted env ev s info u t Hret). simpl.
  by apply synced_update_logs.
Qed.

Lemma synced_repremove is_admin vote_ids s :
  ledger_synced (reputation_log s) (current_votes s) →
  ledger_synced (reputation_log (repremove is_admin vote_ids s).1)
    (current_votes (repremove is_admin vote_ids s).1).
Proof.
  intros Hs. unfold repremove. destruct (negb is_admin); [done|].
  assert (Hfold : ∀ ids acc,
            ledger_synced (reputation_log acc.1) (current_votes acc.1) →
            ledger_synced (reputation_log (foldl repremove_round acc ids).1)
              (current_votes (foldl repremove_round acc ids).1)).
  { induction ids as [|vid ids IH]; intros acc Hacc; simpl; [done|].
    apply IH. destruct acc as [s0 res]. simpl in *.
    destruct (OrdDict.get vid (reputation_log s0)) as [v|]; [|done].
    destruct (reversed v); [done|]. simpl. by apply synced_reverse. }
  specialize (Hfold (raw_ids vote_ids) (s, RemovalResults [] [] []) Hs).
  destruct (foldl _ _ _) as [s' res]. done.
Qed.

Lemma synced_repadd env is_admin caller guild user amount vt fresh s :
  ledger_synced (reputation_log s) (current_votes s) →
  ledger_synced
    (reputation_log (repadd env is_admin caller guild user amount vt fresh s).1)
    (current_votes (repadd env is_admin caller guild user amount vt fresh s).1).
Proof.
  intros Hs. unfold repadd. destruct (negb is_admin); [done|].
  case_bool_decide; [done|].
  set (s0 := match reputation s !! str_of_int user with
             | Some _ => s | None => _ end).
  assert (Hs0 : ledger_synced (reputation_log s0) (current_votes s0)).
  { unfold s0. by destruct (reputation s !! str_of_int user). }
  assert (Hfold : ∀ sts s1,
            ledger_synced (reputation_log s1) (current_votes s1) →
            ledger_synced
              (reputation_log (foldl (repadd_round user caller vt) s1 sts))
              (current_votes (foldl (repadd_round user caller vt) s1 sts))).
  { induction sts as [|st sts IH]; intros s1 Hs1; simpl; [done|].
    apply IH. unfold repadd_round. simpl. by apply synced_write. }
  specialize (Hfold (fresh <$> seq 0 (Z.to_nat amount)) s0 Hs0).
  destruct (log_channel _ _ _); [destruct (log_send_fails env)|]; done.
Qed.

Lemma synced_commit w r :
  world_synced w →
  ledger_synced (reputation_log r.1) (current_votes r.1) →
  world_synced (commit w r).1.
Proof.
  intros [_ Hdisk] Hr. split; simpl; [done|].
  destruct (saved r.2); [|done]. right. by exists r.1.
Qed.

Lemma synced_load w s :
  world_synced w →
  ledger_synced (reputation_log s) (current_votes s) →
  ledger_synced (reputation_log (load_data (disk w) s))
    (current_votes (load_data (disk w) s)).
Proof.
  intros [_ [->|(s0 & -> & Hs0)]] Hs; [done|]. exact Hs0.
Qed.

Lemma synced_step tbl w e : world_synced w → world_synced (step tbl w e).1.
Proof.
  intros Hw. pose proof Hw as [Hmem Hdisk]. destruct e; simpl.
  - apply synced_commit; [done|]. unfold on_message.
    case_bool_decide; [|done].
    destruct (track_first_embed_frame tbl m 0 (embeds m) (mem w))
      as (_ & -> & -> & _). done.
  - apply synced_commit; [done|]. by apply synced_on_reaction_add.
  - apply synced_commit; [done|]. by apply synced_removal.
  - apply synced_commit; [done|]. by apply synced_repadd.
  - apply synced_commit; [done|]. unfold replogs. by destruct (negb _).
  - apply synced_commit; [done|]. unfold repdisable. by destruct (negb _).
  - apply synced_commit; [done|]. by apply synced_repremove.
  - split; simpl; [|done]. by apply synced_load.
  - split; simpl; [|done]. apply synced_load; [done|].
    split; [constructor | done].
Qed.

Lemma run_synced tbl es : world_synced (run tbl es).
Proof.
  unfold run. assert (Hboot : world_synced boot).
  { split; [|by left]. split; [constructor | done]. }
  revert Hboot. generalize boot.
  induction es as [|e es IH]; intros w Hw; simpl; [done|].
  by apply IH, synced_step.
Qed.

(** X10: in every state the machine reaches from its first start,
    [current_votes] holds exactly the records of the log that are not
    reversed: an id is in [current_votes] with a record if and only if the
    log has that record under the id and the record is not reversed. *)
Theorem current_votes_are_the_unreversed_records :
  ∀ (unicode_upper : N → pystr) (es : list event) (vid : pystr) (v : vote),
    let s := mem (run unicode_upper es) in
    current_votes s !! vid = Some v
    ↔ OrdDict.get vid (reputation_log s) = Some v ∧ reversed v = false.
Proof.
  intros tbl es vid v s.
  destruct (run_synced tbl es) as [[_ Hsync] _]. fold s in Hsync. rewrite Hsync.
  unfold active_record. destruct (OrdDict.get vid (reputation_log s)) as [v0|].
  - destruct (reversed v0) eqn:Hr.
    + split; [done|]. intros [[= ->] Hv]. congruence.
    + split; [by intros [= <-] | by intros [? _]].
  - split; [done | by intros [? _]].
Qed.

(** ** Admin additions *)

Lemma set_user_count_twice vt n n' u :
  set_user_count vt n (set_user_count vt n' u) = set_user_count vt n u.
Proof. by destruct vt. Qed.

Lemma set_user_count_id vt u : set_user_count vt (user_count vt u) u = u.
Proof. by destruct vt, u. Qed.

Lemma repadd_fold_reputation user caller vt sts s u :
  reputation s !! str_of_int user = Some u →
  reputation (foldl (repadd_round user caller vt) s sts)
  = <[str_of_int user :=
        set_user_count vt (user_count vt u + Z.of_nat (List.length sts)) u]>
      (reputation s).
Proof.
  revert s u. induction sts as [|st sts IH]; intros s u Hu; simpl.
  - rewrite Z.add_0_r, set_user_count_id. symmetry. by apply insert_id.
  - set (u1 := set_user_count vt (user_count vt u + 1) u).
    assert (Hrep1 : reputation (repadd_round user caller vt s st)
                    = <[str_of_int user := u1]> (reputation s)).
    { unfold repadd_round. simpl. apply map_eq. intros key.
      rewrite lookup_alter, lookup_insert.
      destruct (decide (str_of_int user = key)) as [<-|]; [|done].
      by rewrite Hu. }
    rewrite (IH _ u1) by (rewrite Hrep1; apply lookup_insert_eq).
    rewrite Hrep1, insert_insert_eq. f_equal. unfold u1.
    rewrite user_count_set_same, set_user_count_twice. f_equal. lia.
Qed.

Lemma repadd_fold_other user caller vt sts s vid :
  vid ∉ sts.*1 →
  OrdDict.get vid (reputation_log (foldl (repadd_round user caller vt) s sts))
  = OrdDict.get vid (reputation_log s)
  ∧ current_votes (foldl (repadd_round user caller vt) s sts) !! vid
    = current_votes s !! vid.
Proof.
  revert s. induction sts as [|st sts IH]; intros s Hnot; simpl; [done|].
  rewrite fmap_cons, not_elem_of_cons in Hnot. destruct Hnot as [Hne Hnot].
  destruct (IH (repadd_round user caller vt s st) Hnot) as [-> ->].
  unfold repadd_round. simpl.
  split; [by apply ord_get_set_ne | by apply lookup_insert_ne].
Qed.

Lemma repadd_fold_record user caller vt sts s st :
  NoDup sts.*1 → st ∈ sts →
  OrdDict.get st.1 (reputation_log (foldl (repadd_round user caller vt) s sts))
  = Some (admin_record user caller vt st)
  ∧ current_votes (foldl (repadd_round user caller vt) s sts) !! st.1
    = Some (admin_record user caller vt st).
Proof.
  revert s. induction sts as [|st0 sts IH]; intros s Hnd Hin; simpl.
  { by apply elem_of_nil in Hin. }
  rewrite fmap_cons in Hnd. apply NoDup_cons in Hnd as [Hfirst Hnd].
  apply elem_of_cons in Hin as [->|Hin]; [|by apply IH].
  destruct (repadd_fold_other user caller vt sts
              (repadd_round user caller vt s st0) st0.1 Hfirst) as [-> ->].
  unfold repadd_round. simpl.
  split; [apply ord_get_set_eq | apply lookup_insert_eq].
Qed.

Lemma repadd_state env caller guild user amount vt fresh s :
  0 < amount →
  (repadd env true caller guild user amount vt fresh s).1
  = foldl (repadd_round user caller vt)
      (set_reputation
         (<[str_of_int user := default empty_user (reputation s !! str_of_int user)]>
            (reputation s)) s)
      (fresh <$> seq 0 (Z.to_nat amount)).
Proof.
  intros Hpos. unfold repadd. simpl.
  rewrite bool_decide_eq_false_2 by lia.
  assert (Hs0 : match reputation s !! str_of_int user with
                | Some _ => s
                | None => set_reputation
                            (<[str_of_int user := empty_user]> (reputation s)) s
                end
                = set_reputation
                    (<[str_of_int user :=
                         default empty_user (reputation s !! str_of_int user)]>
                       (reputation s)) s).
  { destruct (reputation s !! str_of_int user) as [u|] eqn:Hu; simpl; [|done].
    rewrite insert_id by done. by destruct s. }
  rewrite Hs0.
  destruct (log_channel _ _ _); [destruct (log_send_fails env)|]; reflexivity.
Qed.

Lemma repadd_adds_the_amount_helper env caller guild user amount vt fresh s :
  0 < amount →
  let r := repadd env true caller guild user amount vt fresh s in
  let u := default empty_user (reputation s !! str_of_int user) in
  let stamps := fresh <$> seq 0 (Z.to_nat amount) in
  reputation r.1
  = <[str_of_int user := set_user_count vt (user_count vt u + amount) u]>
      (reputation s)
  ∧ (NoDup stamps.*1 →
     ∀ st, st ∈ stamps →
       OrdDict.get st.1 (reputation_log r.1)
       = Some (admin_record user caller vt st)
       ∧ current_votes r.1 !! st.1 = Some (admin_record user caller vt st)).
Proof.
  intros Hpos r u stamps. unfold r. rewrite repadd_state by done. fold stamps u.
  set (s0 := set_reputation _ s). split.
  - rewrite (repadd_fold_reputation user caller vt stamps s0 u)
      by (unfold s0; simpl; apply lookup_insert_eq).
    unfold s0. simpl. rewrite insert_insert_eq. do 3 f_equal.
    unfold stamps. rewrite length_fmap, length_seq. lia.
  - intros Hnd st Hst. by apply repadd_fold_record.
Qed.

(** X11: [repadd] by someone who is no administrator, or with an amount
    that is not positive, changes nothing.  With a positive amount it
    raises the user's counter of the given type by exactly the amount,
    creating the user's entry when there is none, and leaves every other
    counter and every token entry alone; when the generated ids differ
    from one another, each is afterwards in the log and in
    [current_votes] with an active record for the pseudo-token
    ["admin_added"] and message 0. *)
Theorem repadd_adds_the_amount :
  ∀ env is_admin caller guild user amount vt fresh s,
    let r := repadd env is_admin caller guild user amount vt fresh s in
    let u := default empty_user (reputation s !! str_of_int user) in
    let stamps := fresh <$> seq 0 (Z.to_nat amount) in
    (is_admin = false ∨ amount ≤ 0 → r.1 = s)
    ∧ (is_admin = true → 0 < amount →
       reputation r.1
       = <[str_of_int user := set_user_count vt (user_count vt u + amount) u]>
           (reputation s)
       ∧ (NoDup stamps.*1 →
          ∀ st, st ∈ stamps →
            OrdDict.get st.1 (reputation_log r.1)
            = Some (admin_record user caller vt st)
            ∧ current_votes r.1 !! st.1 = Some (admin_record user caller vt st))).
Proof.
  intros env is_admin caller guild user amount vt fresh s r u stamps. split.
  - unfold r, repadd. intros [->|Hle]; [done|].
    destruct (negb is_admin); [done|]. by rewrite bool_decide_eq_true_2.
  - intros -> Hpos.
    exact (repadd_adds_the_amount_helper env caller guild user amount vt fresh s Hpos).
Qed.

Lemma repadd_adds_the_amount_witness :
  let fresh := λ i : nat, (lit "a" ++ str_of_int (Z.of_nat i), lit "2025-02-01T00:00:00+00:00") in
  let r := repadd Scene.quiet true 7 Scene.guild Scene.alice 3 Good fresh initial_state in
  reputation r.1 = {[str_of_int Scene.alice := UserData 3 0 ∅]}
  ∧ current_votes r.1 !! lit "a2"
    = Some (admin_record Scene.alice 7 Good (lit "a2", lit "2025-02-01T00:00:00+00:00")).
Proof.
  intros fresh r.
  destruct (repadd_adds_the_amount Scene.quiet true 7 Scene.guild Scene.alice 3
              Good fresh initial_state) as [_ Hadd].
  destruct (Hadd eq_refl ltac:(lia)) as [Hrep Hrec].
  split.
  - fold r in Hrep. rewrite Hrep. vm_compute. reflexivity.
  - apply (Hrec ltac:(apply (bool_decide_unpack _); vm_compute; exact I)
             (lit "a2", lit "2025-02-01T00:00:00+00:00")).
    apply (bool_decide_unpack _). vm_compute. exact I.
Defined.

Lemma remove_from_counts_admin v rep u :
  token_address v = lit "admin_added" →
  rep !! str_of_int (author_id v) = Some u →
  1 ≤ user_count (vote_type v) u →
  remove_from_counts v rep
  = <[str_of_int (author_id v) :=
        set_user_count (vote_type v) (user_count (vote_type v) u - 1) u]> rep.
Proof.
  intros Hadmin Hu Hc. unfold remove_from_counts, remove_from_token.
  rewrite Hu, Hadmin. rewrite bool_decide_eq_false_2 by (by intros []).
  unfold floor_decrement. do 2 f_equal. lia.
Qed.

(** Removing, one after the other, distinct active records that [repadd]
    wrote for one user and one type, while the counter covers them. *)
Lemma repremove_fold_admin user vt ids s res u :
  NoDup ids →
  (∀ vid, vid ∈ ids →
     ∃ v, OrdDict.get vid (reputation_log s) = Some v ∧ reversed v = false
          ∧ author_id v = user ∧ vote_type v = vt
          ∧ token_address v = lit "admin_added") →
  reputation s !! str_of_int user = Some u →
  Z.of_nat (List.length ids) ≤ user_count vt u →
  let r := foldl repremove_round (s, res) ids in
  r.2 = RemovalResults (success res ++ ids) (invalid res) (already_reversed res)
  ∧ reputation r.1
    = <[str_of_int user :=
          set_user_count vt (user_count vt u - Z.of_nat (List.length ids)) u]>
        (reputation s)
  ∧ ∀ vid, vid ∈ ids → current_votes r.1 !! vid = None.
Proof.
  revert s res u. induction ids as [|vid ids IH]; intros s res u Hnd Hrec Hu Hlen r.
  { unfold r. simpl. rewrite !app_nil_r, Z.sub_0_r, set_user_count_id.
    split; [by destruct res|]. split; [symmetry; by apply insert_id|].
    intros vid Hin. by apply elem_of_nil in Hin. }
  apply NoDup_cons in Hnd as [Hfirst Hnd].
  destruct (Hrec vid (list_elem_of_here _ _)) as (v & Hget & Hrev & Hauthor & Hvt & Hadmin).
  simpl in Hlen.
  set (u1 := set_user_count vt (user_count vt u - 1) u).
  set (s1 := BotState (<[str_of_int user := u1]> (reputation s))
               (OrdDict.set vid (set_reversed true v) (reputation_log s))
               (delete vid (current_votes s)) (disabled_voters s)
               (reputation_log_channels s) (token_messages s)).
  assert (Hround : repremove_round (s, res) vid
                   = (s1, RemovalResults (success res ++ [vid]) (invalid res)
                            (already_reversed res))).
  { rewrite (repremove_round_active _ _ _ v) by done.
    rewrite (remove_from_counts_admin v _ u); rewrite ?Hauthor, ?Hvt; try done.
    lia. }
  unfold r.
  change (foldl repremove_round (s, res) (vid :: ids))
    with (foldl repremove_round (repremove_round (s, res) vid) ids).
  rewrite Hround.
  destruct (IH s1 (RemovalResults (success res ++ [vid]) (invalid res)
                     (already_reversed res)) u1) as (Hres & Hrep & Hcur).
  - done.
  - intros vid' Hin'. destruct (Hrec vid' (list_elem_of_further _ _ _ Hin'))
      as (v' & Hget' & Hv').
    exists v'. split; [|done]. unfold s1. simpl.
    rewrite ord_get_set_ne; [done|]. intros ->. done.
  - unfold s1. simpl. apply lookup_insert_eq.
  - unfold u1. rewrite user_count_set_same. lia.
  - rewrite Hres, Hrep. simpl. rewrite <- app_assoc. simpl.
    split; [done|]. split.
    + unfold s1, u1. simpl. rewrite insert_insert_eq, user_count_set_same,
        set_user_count_twice. do 2 f_equal. lia.
    + intros vid' [->|Hin']%elem_of_cons; [|by apply Hcur].
      assert (Hkeep : ∀ ids' acc, vid ∉ ids' →
                current_votes acc.1 !! vid = None →
                current_votes (foldl repremove_round acc ids').1 !! vid = None).
      { clear. induction ids' as [|i ids' IH]; intros acc Hnot Hnone; simpl; [done|].
        rewrite not_elem_of_cons in Hnot. destruct Hnot as [Hne Hnot].
        apply IH; [done|]. destruct acc as [s0 res0]. simpl in *.
        destruct (OrdDict.get i (reputation_log s0)) as [v0|]; [|done].
        destruct (reversed v0); [done|]. simpl.
        by rewrite lookup_delete_ne. }
      apply Hkeep; [done|]. unfold s1. simpl. apply lookup_delete_eq.
Qed.

(** X12: what [repadd] adds, [repremove] takes back.  When the generated
    ids differ from one another and the user's counter of the type is not
    below zero, adding a positive amount and then removing exactly those
    ids reports all of them as removed, leaves none of them in
    [current_votes], and puts the user's entry back as it stood (the blank
    entry where the user had none). *)
Theorem repadd_then_repremove_restores :
  ∀ env caller guild user amount vt fresh vote_ids s,
    let u := default empty_user (reputation s !! str_of_int user) in
    let stamps := fresh <$> seq 0 (Z.to_nat amount) in
    0 < amount →
    NoDup stamps.*1 →
    raw_ids vote_ids = stamps.*1 →
    0 ≤ user_count vt u →
    let s1 := (repadd env true caller guild user amount vt fresh s).1 in
    let r := repremove true vote_ids s1 in
    r.2 = [DataSaved; Responded (RemovalReport stamps.*1 [] [])]
    ∧ reputation r.1 = <[str_of_int user := u]> (reputation s)
    ∧ ∀ vid, vid ∈ stamps.*1 → current_votes r.1 !! vid = None.
Proof.
  intros env caller guild user amount vt fresh vote_ids s u stamps
    Hpos Hnd Hraw Hc s1 r.
  destruct (repadd_adds_the_amount_helper env caller guild user amount vt fresh s Hpos)
    as (Hrep1 & Hrec1).
  fold u stamps s1 in Hrep1, Hrec1.
  destruct (repremove_fold_admin user vt stamps.*1 s1 (RemovalResults [] [] [])
              (set_user_count vt (user_count vt u + amount) u))
    as (Hres & Hrep & Hcur).
  - done.
  - intros vid Hin. apply list_elem_of_fmap in Hin as (st & -> & Hst).
    exists (admin_record user caller vt st).
    destruct (Hrec1 Hnd st Hst) as [Hget _]. done.
  - rewrite Hrep1. apply lookup_insert_eq.
  - rewrite user_count_set_same, length_fmap. unfold stamps.
    rewrite length_fmap, length_seq. lia.
  - unfold r, repremove. simpl negb. cbv iota. rewrite Hraw.
    destruct (foldl repremove_round (s1, RemovalResults [] [] []) stamps.*1)
      as [s2 res2]. simpl in Hres, Hrep, Hcur. subst res2. simpl.
    split; [done|]. split; [|done].
    rewrite Hrep, Hrep1, insert_insert_eq, user_count_set_same,
      set_user_count_twice.
    rewrite length_fmap. unfold stamps. rewrite length_fmap, length_seq.
    replace (user_count vt u + amount - Z.of_nat (Z.to_nat amount))
      with (user_count vt u) by lia.
    by rewrite set_user_count_id.
Qed.

Lemma repadd_then_repremove_restores_witness :
  let fresh := λ i : nat,
    (lit "a" ++ str_of_int (Z.of_nat i), lit "2025-02-01T00:00:00+00:00") in
  let s := mem (run no_unicode_case
                  [OnMessage Scene.call; Scene.adds Scene.vera GREEN "v1"]) in
  let s1 := (repadd Scene.quiet true 7 Scene.guild Scene.alice 2 Good fresh s).1 in
  let r := repremove true (lit "a0, a1") s1 in
  reputation s1 ≠ reputation s
  ∧ r.2 = [DataSaved; Responded (RemovalReport [lit "a0"; lit "a1"] [] [])]
  ∧ reputation r.1 = reputation s.
Proof.
  intros fresh s s1 r.
  split; [vm_compute; discriminate|].
  destruct (repadd_then_repremove_restores Scene.quiet 7 Scene.guild Scene.alice 2
              Good fresh (lit "a0, a1") s) as (Hrep & Hback & _).
  - lia.
  - apply (bool_decide_unpack _). vm_compute. exact I.
  - vm_compute. reflexivity.
  - vm_compute. discriminate.
  - split; [exact Hrep|]. fold s1 r in Hback. rewrite Hback.
    vm_compute. reflexivity.
Defined.

(** ** The report of an admin removal *)

Lemma repremove_round_keeps_unknown acc vid vid' :
  OrdDict.get vid' (reputation_log (repremove_round acc vid).1) = None
  ↔ OrdDict.get vid' (reputation_log acc.1) = None.
Proof.
  destruct acc as [s res]. simpl.
  destruct (OrdDict.get vid (reputation_log s)) as [v|] eqn:Hv; [|done].
  destruct (reversed v); [done|]. simpl.
  destruct (decide (vid = vid')) as [<-|Hne].
  - rewrite ord_get_set_eq, Hv. done.
  - by rewrite ord_get_set_ne.
Qed.

Lemma repremove_fold_report ids s res :
  let r := foldl repremove_round (s, res) ids in
  success r.2 ++ already_reversed r.2 ++ invalid r.2
  ≡ₚ (success res ++ already_reversed res ++ invalid res) ++ ids
  ∧ invalid r.2
    = invalid res
      ++ filter (λ vid, OrdDict.get vid (reputation_log s) = None) ids
  ∧ ((∀ vid, vid ∈ ids → OrdDict.get vid (reputation_log s) = None) → r.1 = s).
Proof.
  revert s res. induction ids as [|vid ids IH]; intros s res r.
  { unfold r. simpl. rewrite !app_nil_r. done. }
  unfold r.
  change (foldl repremove_round (s, res) (vid :: ids))
    with (foldl repremove_round (repremove_round (s, res) vid) ids).
  destruct (repremove_round (s, res) vid) as [s1 res1] eqn:Hround.
  destruct (IH s1 res1) as (Hperm & Hinv & Hsame).
  assert (Hkeep : ∀ vid', OrdDict.get vid' (reputation_log s1) = None
                          ↔ OrdDict.get vid' (reputation_log s) = None).
  { intros vid'. pose proof (repremove_round_keeps_unknown (s, res) vid vid') as H.
    by rewrite Hround in H. }
  assert (Hfilter : filter (λ vid, OrdDict.get vid (reputation_log s1) = None) ids
                    = filter (λ vid, OrdDict.get vid (reputation_log s) = None) ids).
  { apply list_filter_iff. intros vid'. apply Hkeep. }
  rewrite Hperm, Hinv, Hfilter. clear Hperm Hinv.
  unfold repremove_round in Hround.
  destruct (OrdDict.get vid (reputation_log s)) as [v|] eqn:Hv.
  - rewrite filter_cons_False by (by rewrite Hv).
    destruct (reversed v); injection Hround as <- <-; simpl.
    + split; [|split; [done|]].
      * rewrite <- !app_assoc. do 2 apply Permutation_app_head.
        simpl. apply Permutation_middle.
      * intros Hall. specialize (Hall vid (list_elem_of_here _ _)). congruence.
    + split; [|split; [done|]].
      * rewrite <- !app_assoc. apply Permutation_app_head. simpl.
        rewrite !(app_assoc (already_reversed res)).
        apply Permutation_middle.
      * intros Hall. specialize (Hall vid (list_elem_of_here _ _)). congruence.
  - rewrite filter_cons_True by done.
    injection Hround as <- <-. simpl.
    split; [|split].
    + by rewrite <- !app_assoc.
    + by rewrite <- app_assoc.
    + intros Hall. apply Hsame. intros vid' Hin'.
      apply Hall. by apply list_elem_of_further.
Qed.

(** X13: the report of [repremove] sorts every submitted id into one of
    its three lists, each id as often as it was submitted; its list of
    invalid ids is, in the order given, the ids that the log does not
    have; a call in which every id is unknown changes nothing; and the
    empty text counts as one id, the empty string. *)
Theorem repremove_report_partitions_the_ids :
  ∀ (vote_ids : pystr) (s : bot_state),
    let r := repremove true vote_ids s in
    (∃ removed already unknown,
       r.2 = [DataSaved; Responded (RemovalReport removed already unknown)]
       ∧ removed ++ already ++ unknown ≡ₚ raw_ids vote_ids
       ∧ unknown
         = filter (λ vid, OrdDict.get vid (reputation_log s) = None)
             (raw_ids vote_ids))
    ∧ ((∀ vid, vid ∈ raw_ids vote_ids →
          OrdDict.get vid (reputation_log s) = None) → r.1 = s)
    ∧ raw_ids [] = [[]].
Proof.
  intros vote_ids s r. unfold r, repremove. simpl negb. cbv iota.
  destruct (repremove_fold_report (raw_ids vote_ids) s (RemovalResults [] [] []))
    as (Hperm & Hinv & Hsame).
  destruct (foldl repremove_round _ _) as [s' res]. simpl in *.
  split; [|split; [exact Hsame | reflexivity]].
  exists (success res), (already_reversed res), (invalid res).
  split; [done|]. split; done.
Qed.

(** ** Disabling a voter *)

(** X14: [repdisable] is a switch.  Two calls by an administrator for
    the same user give the state back as it was; after the first call for
    a user who was enabled, neither a reaction that user adds nor one that
    user removes changes anything or has any effect. *)
Theorem repdisable_toggles :
  ∀ (user : Z) (s : bot_state),
    let s1 := (repdisable true user s).1 in
    (repdisable true user s1).1 = s
    ∧ (user ∉ disabled_voters s →
       (∀ env ev, ra_user ev = user → on_reaction_add env ev s1 = (s1, []))
       ∧ (∀ env ev, rr_user ev = user → on_raw_reaction_remove env ev s1 = (s1, []))).
Proof.
  intros user s s1. split.
  - unfold s1, repdisable. simpl. destruct s as [rep log cur dv ch tm]. simpl.
    f_equal. destruct (decide (user ∈ dv)) as [Hin|Hnot].
    + rewrite (bool_decide_eq_true_2 _ Hin). simpl.
      rewrite (bool_decide_eq_false_2 (user ∈ dv ∖ {[user]})); simpl.
      * apply set_eq. intros x.
        rewrite elem_of_union, elem_of_difference, elem_of_singleton.
        destruct (decide (x = user)) as [->|Hx]; intuition congruence.
      * rewrite elem_of_difference, elem_of_singleton. tauto.
    + rewrite (bool_decide_eq_false_2 _ Hnot). simpl.
      rewrite (bool_decide_eq_true_2 (user ∈ dv ∪ {[user]})); simpl.
      * apply set_eq. intros x.
        rewrite elem_of_difference, elem_of_union, elem_of_singleton.
        destruct (decide (x = user)) as [->|Hx]; intuition congruence.
      * rewrite elem_of_union, elem_of_singleton. by right.
  - intros Hnot.
    assert (Hdis : user ∈ disabled_voters s1).
    { unfold s1, repdisable. simpl.
      rewrite (bool_decide_eq_false_2 _ Hnot). simpl.
      rewrite elem_of_union, elem_of_singleton. by right. }
    split.
    + intros env ev <-. unfold on_reaction_add.
      rewrite (bool_decide_eq_true_2 _ Hdis). by rewrite orb_true_r.
    + intros env ev <-. unfold on_raw_reaction_remove.
      rewrite (bool_decide_eq_true_2 _ Hdis). by rewrite orb_true_r.
Qed.

Lemma repdisable_toggles_witness :
  let s := mem (run no_unicode_case [OnMessage Scene.call]) in
  let s1 := (repdisable true Scene.vera s).1 in
  (Scene.vera ∉ disabled_voters s)
  ∧ (repdisable true Scene.vera s1).1 = s
  ∧ on_reaction_add Scene.quiet
      (ReactionAdd Scene.vera false Scene.voting_message GREEN Scene.guild
         (lit "v1", lit "2025-01-01T00:00:00+00:00")) s1 = (s1, []).
Proof.
  intros s s1.
  assert (Hnot : Scene.vera ∉ disabled_voters s) by (vm_compute; discriminate).
  destruct (repdisable_toggles Scene.vera s) as [Hback Hblock].
  destruct (Hblock Hnot) as [Hadd _].
  split; [exact Hnot|]. split; [exact Hback|]. by apply Hadd.
Defined.

(** ** The audit channel *)

Lemma load_channels_text_keys l guild :
  OrdDict.get (IntKey guild) (load_channels l) = None.
Proof.
  unfold load_channels.
  assert (Hfold : ∀ (l0 : list (pystr * Z)) (d : OrdDict.t guild_key Z),
            OrdDict.get (IntKey guild) d = None →
            OrdDict.get (IntKey guild)
              (foldl (λ d kv, OrdDict.set (StrKey kv.1) kv.2 d) d l0) = None).
  { clear. induction l0 as [|kv l0 IH]; intros d Hd; simpl; [done|].
    apply IH. by rewrite ord_get_set_ne. }
  by apply Hfold.
Qed.

(** X15: after [replogs] by an administrator the guild's audit channel is
    the one given, provided its id is not 0 and the guild has it, and the
    channels of other guilds are as before; but [load_data] reads the
    saved table with text keys, so after loading what [save_data] wrote no
    guild has an audit channel, and a counted vote then only saves. *)
Theorem audit_channel_set_then_lost_on_reload :
  ∀ (env : platform) (guild channel : Z) (s s0 : bot_state),
    let s1 := (replogs true guild channel s).1 in
    let s2 := load_data (save_data s1) s0 in
    log_channel env guild s1
    = (if bool_decide (channel ≠ 0) && channel_exists env channel
       then Some channel else None)
    ∧ (∀ g, g ≠ guild → log_channel env g s1 = log_channel env g s)
    ∧ (∀ g, log_channel env g s2 = None)
    ∧ (∀ ev info, counted ev s2 info → (on_reaction_add env ev s2).2 = [DataSaved]).
Proof.
  intros env guild channel s s0 s1 s2.
  assert (Hlost : ∀ g, log_channel env g s2 = None).
  { intros g. unfold log_channel, s2. simpl. by rewrite load_channels_text_keys. }
  split; [|split; [|split; [exact Hlost|]]].
  - unfold log_channel, s1. simpl. by rewrite ord_get_set_eq.
  - intros g Hg. unfold log_channel, s1. simpl.
    rewrite ord_get_set_ne; [done|]. by intros [= ->].
  - intros ev info (Hbot & Hdis & Hinfo & Hother & Hglyph).
    unfold on_reaction_add. rewrite Hbot, Hinfo, Hglyph. simpl.
    rewrite (bool_decide_eq_false_2 _ Hdis), (bool_decide_eq_false_2 _ Hother).
    destruct (cast_vote _ _ _ _ _) as [e u].
    assert (Hnone : ∀ s3, reputation_log_channels s3 = reputation_log_channels s2 →
              log_channel env (ra_guild ev) s3 = None).
    { intros s3 Hs3. unfold log_channel. rewrite Hs3.
      unfold s2. simpl. by rewrite load_channels_text_keys. }
    by rewrite Hnone.
Qed.

(** ** Loading with files missing *)

(** X16: [load_data] reads the five files in a fixed order and stops at
    the first that is missing.  Without [reputation.json] nothing is
    loaded; when a later file is missing the reputation data are taken
    from the file as they are, with no symbol filled in; in every case the
    tracked messages stay, and a second load of the same files changes
    nothing more. *)
Theorem load_data_stops_at_missing_file :
  ∀ (d : files) (s : bot_state),
    (reputation_json d = None → load_data d s = s)
    ∧ (∀ r, reputation_json d = Some r →
         reputation_log_json d = None ∨ disabled_voters_json d = None
         ∨ reputation_log_channels_json d = None ∨ current_votes_json d = None →
         reputation (load_data d s) = r)
    ∧ token_messages (load_data d s) = token_messages s
    ∧ load_data d (load_data d s) = load_data d s.
Proof.
  intros d s. unfold load_data.
  destruct (reputation_json d) as [r|]; [|done].
  destruct (reputation_log_json d) as [l|];
    [|split; [done|]; split; [by intros ? [= <-]|]; done].
  destruct (disabled_voters_json d) as [dv|];
    [|split; [done|]; split; [by intros ? [= <-]|]; done].
  destruct (reputation_log_channels_json d) as [ch|];
    [|split; [done|]; split; [by intros ? [= <-]|]; done].
  destruct (current_votes_json d) as [cv|];
    [|split; [done|]; split; [by intros ? [= <-]|]; done].
  split; [done|]. split; [|done].
  intros r' _ [H1|[H2|[H3|H4]]]; discriminate.
Qed.

(** ** Tracking a voting message *)




(** A message with two embeds for alice; the first reaction on the first
    post fails, so both posts are tracked. *)
Example on_message_tracks_again_after_failed_reaction :
  let m := Message SPECIAL_USER_ID (lit "")
             [Embed (lit "First call") (lit "") [] (lit "alice today");
              Embed (lit "Second call") (lit "") [] (lit "alice later")]
             (Some [(lit "alice", Scene.alice)])
             (λ i, match i with
                   | O => Posted 5000 GreenFails
                   | _ => Posted 5001 BothAdded
                   end) in
  let r := on_message no_unicode_case m initial_state in
  token_messages r.1
  = {[5000 := MessageInfo Scene.alice (lit "unknown") (lit "unknown");
      5001 := MessageInfo Scene.alice (lit "unknown") (lit "unknown")]}
  ∧ r.2 = [RepMessagePosted 5000 Scene.alice 0 0; ErrorLogged;
           RepMessagePosted 5001 Scene.alice 0 0;
           ReactionAdded 5001 GREEN; ReactionAdded 5001 RED].
Proof. vm_compute. split; reflexivity. Qed.

(** ** Listings: the leaderboard, the profile and the vote manager *)

Section SortFacts.
Context {A K : Type}.
Variable klt : K → K → bool.
Variable key : A → K.

Lemma insert_by_perm x l : insert_by klt key x l ≡ₚ x :: l.
Proof.
  induction l as [|y l IH]; simpl; [done|].
  destruct (klt (key y) (key x)); [|done].
  rewrite IH. apply Permutation_swap.
Qed.

Lemma sort_by_perm l : sort_by klt key l ≡ₚ l.
Proof.
  induction l as [|x l IH]; simpl; [done|].
  by rewrite insert_by_perm, IH.
Qed.

Lemma sort_by_nil l : sort_by klt key l = [] ↔ l = [].
Proof.
  split; [|by intros ->]. intros Hnil.
  apply Permutation_nil_r. rewrite <- Hnil. symmetry. apply sort_by_perm.
Qed.

Hypothesis klt_asym : ∀ a b, klt a b = true → klt b a = false.
Hypothesis klt_neg_trans :
  ∀ a b c, klt a b = false → klt b c = false → klt a c = false.

Lemma insert_by_sorted x l :
  StronglySorted (λ a b, klt (key b) (key a) = false) l →
  StronglySorted (λ a b, klt (key b) (key a) = false) (insert_by klt key x l).
Proof.
  induction l as [|y l IH]; intros Hl; simpl.
  - by repeat constructor.
  - apply StronglySorted_cons in Hl as [Hy Hl].
    destruct (klt (key y) (key x)) eqn:Hyx.
    + apply StronglySorted_cons. split; [|by apply IH].
      rewrite insert_by_perm. constructor; [by apply klt_asym | done].
    + apply StronglySorted_cons. split.
      * constructor; [done|]. eapply Forall_impl; [exact Hy|].
        intros z Hz. simpl in Hz. by apply (klt_neg_trans _ (key y)).
      * apply StronglySorted_cons. by split.
Qed.

Lemma sort_by_sorted l :
  StronglySorted (λ a b, klt (key b) (key a) = false) (sort_by klt key l).
Proof.
  induction l as [|x l IH]; simpl; [constructor|]. by apply insert_by_sorted.
Qed.

Context `{EqDecision K}.

Lemma insert_by_stable k x l :
  filter (λ y, key y = k) (insert_by klt key x l) = filter (λ y, key y = k) (x :: l).
Proof.
  induction l as [|y l IH]; simpl; [done|].
  destruct (klt (key y) (key x)) eqn:Hyx; [|done].
  assert (Hne : key y ≠ key x).
  { intros Heq. rewrite Heq in Hyx. pose proof (klt_asym _ _ Hyx). congruence. }
  destruct (decide (key y = k)) as [Hy|Hy].
  - rewrite (filter_cons_True _ y) by done. rewrite IH.
    rewrite (filter_cons_False _ x) by congruence.
    rewrite (filter_cons_False _ x) by congruence.
    by rewrite (filter_cons_True _ y).
  - rewrite (filter_cons_False _ y) by done. rewrite IH.
    destruct (decide (key x = k)) as [Hx|Hx].
    + rewrite !(filter_cons_True _ x) by done.
      by rewrite (filter_cons_False _ y).
    + rewrite !(filter_cons_False _ x) by done.
      by rewrite (filter_cons_False _ y).
Qed.

Lemma sort_by_stable k l :
  filter (λ y, key y = k) (sort_by klt key l) = filter (λ y, key y = k) l.
Proof.
  induction l as [|x l IH]; simpl; [done|].
  rewrite insert_by_stable.
  destruct (decide (key x = k)) as [Hx|Hx].
  - rewrite !(filter_cons_True _ x) by done. by rewrite IH.
  - rewrite !(filter_cons_False _ x) by done. exact IH.
Qed.
End SortFacts.

Lemma tuple_lt_asym a b : tuple_lt a b = true → tuple_lt b a = false.
Proof.
  destruct a as [[a1 a2] a3], b as [[b1 b2] b3]. unfold tuple_lt.
  destruct (Z.ltb_spec a1 b1), (Z.ltb_spec b1 a1), (Z.eqb_spec a1 b1),
    (Z.eqb_spec b1 a1), (Z.ltb_spec a2 b2), (Z.ltb_spec b2 a2),
    (Z.eqb_spec a2 b2), (Z.eqb_spec b2 a2), (Z.ltb_spec a3 b3),
    (Z.ltb_spec b3 a3); simpl; intros; try done; lia.
Qed.

Lemma tuple_lt_neg_trans a b c :
  tuple_lt a b = false → tuple_lt b c = false → tuple_lt a c = false.
Proof.
  destruct a as [[a1 a2] a3], b as [[b1 b2] b3], c as [[c1 c2] c3]. unfold tuple_lt.
  destruct (Z.ltb_spec a1 b1), (Z.eqb_spec a1 b1), (Z.ltb_spec a2 b2),
    (Z.eqb_spec a2 b2), (Z.ltb_spec a3 b3); simpl; try done;
  destruct (Z.ltb_spec b1 c1), (Z.eqb_spec b1 c1), (Z.ltb_spec b2 c2),
    (Z.eqb_spec b2 c2), (Z.ltb_spec b3 c3); simpl; try done;
  destruct (Z.ltb_spec a1 c1), (Z.eqb_spec a1 c1), (Z.ltb_spec a2 c2),
    (Z.eqb_spec a2 c2), (Z.ltb_spec a3 c3); simpl; intros; try done; lia.
Qed.

Lemma board_before_key a b :
  tuple_lt (board_key b) (board_key a) = false ↔ board_before a b.
Proof.
  unfold board_key, board_before, tuple_lt.
  destruct (Z.ltb_spec (- be_score b) (- be_score a)),
    (Z.eqb_spec (- be_score b) (- be_score a)),
    (Z.ltb_spec (- be_good b) (- be_good a)),
    (Z.eqb_spec (- be_good b) (- be_good a)),
    (Z.ltb_spec (be_bad b) (be_bad a)); simpl; split; intros; try done; lia.
Qed.

Lemma str_lt_irrefl a : str_lt a a = false.
Proof.
  induction a as [|x a IH]; simpl; [done|].
  rewrite N.ltb_irrefl, N.eqb_refl. exact IH.
Qed.

Lemma str_lt_asym a b : str_lt a b = true → str_lt b a = false.
Proof.
  revert b. induction a as [|x a IH]; intros [|y b]; simpl; try done.
  destruct (N.ltb_spec x y), (N.ltb_spec y x), (N.eqb_spec x y), (N.eqb_spec y x);
    simpl; try done; try lia. apply IH.
Qed.

Lemma str_lt_neg_trans a b c :
  str_lt a b = false → str_lt b c = false → str_lt a c = false.
Proof.
  revert b c. induction a as [|x a IH]; intros [|y b] [|z c]; simpl; try done.
  destruct (N.ltb_spec x y), (N.eqb_spec x y); simpl; try done;
  destruct (N.ltb_spec y z), (N.eqb_spec y z); simpl; try done;
  destruct (N.ltb_spec x z), (N.eqb_spec x z); simpl; try done; try lia.
  apply IH.
Qed.

Lemma dict_items_lookup {V} (order : list pystr) (d : gmap pystr V) k v :
  (k, v) ∈ dict_items order d ↔ k ∈ order ∧ d !! k = Some v.
Proof.
  unfold dict_items. rewrite list_elem_of_omap. split.
  - intros (k' & Hin & Hk). destruct (d !! k') as [v'|] eqn:Hd; [|done].
    simpl in Hk. by injection Hk as -> ->.
  - intros [Hin Hd]. exists k. split; [done|]. by rewrite Hd.
Qed.

Lemma dict_items_keys {V} (d : gmap pystr V) (l : list (pystr * V)) :
  (∀ kv, kv ∈ l → d !! kv.1 = Some kv.2) → dict_items l.*1 d = l.
Proof.
  induction l as [|[k v] l IH]; intros Hl; [done|].
  pose proof (Hl (k, v) (list_elem_of_here _ _)) as Hk. simpl in Hk.
  unfold dict_items. simpl. rewrite Hk. simpl.
  f_equal. apply IH. intros kv Hkv. by apply Hl, list_elem_of_further.
Qed.

Lemma dict_items_perm {V} (order : list pystr) (d : gmap pystr V) :
  iterates order d → dict_items order d ≡ₚ map_to_list d.
Proof.
  intros Hit. unfold dict_items. rewrite Hit.
  change (dict_items (map_to_list d).*1 d ≡ₚ map_to_list d).
  rewrite dict_items_keys; [done|].
  intros [k v] Hkv. by apply elem_of_map_to_list.
Qed.

Lemma sorted_weaken {A} (R R' : A → A → Prop) l :
  (∀ a b, R a b → R' a b) → StronglySorted R l → StronglySorted R' l.
Proof.
  intros Himpl. induction 1 as [|x l Hl IH Hx]; constructor; [done|].
  eapply Forall_impl; [exact Hx|]. intros y. apply Himpl.
Qed.

Lemma sorted_shown_hidden {A} (R : A → A → Prop) n l x y :
  StronglySorted R l → x ∈ take n l → y ∈ drop n l → R x y.
Proof.
  intros Hl Hx Hy. rewrite <- (take_drop n l) in Hl.
  by apply (StronglySorted_app_1_elem_of _ _ _ _ _ Hl).
Qed.

(** X18: the leaderboard.  Its participants are the entries of
    [bot.reputation] whose key names a member of the guild and whose two
    counters are not both zero; the rows are the first ten of them by
    score (downwards), then by upvotes (downwards), then by downvotes;
    participants of equal standing keep the order of the dictionary; the
    thumbnail is a participant of the highest score and the last line
    counts all participants, also those not shown. *)
Theorem repboard_ranks_the_participants :
  ∀ (get_member : pystr → option Z) (order : list pystr) (s : bot_state),
    let entries := omap (board_row get_member) (dict_items order (reputation s)) in
    (∀ e, e ∈ entries ↔
          ∃ k u, k ∈ order ∧ reputation s !! k = Some u
                 ∧ get_member k = Some (be_member e)
                 ∧ ¬ (good u = 0 ∧ bad u = 0)
                 ∧ e = BoardEntry (be_member e) (good u - bad u) (good u) (bad u))
    ∧ (entries = [] → repboard get_member order s = NoParticipants)
    ∧ (entries ≠ [] →
       ∃ top ranked,
         repboard get_member order s
         = Board (be_member top) (take 10 (top :: ranked)) (List.length entries)
         ∧ top :: ranked ≡ₚ entries
         ∧ StronglySorted board_before (top :: ranked)
         ∧ (∀ k, filter (λ e, board_key e = k) (top :: ranked)
                 = filter (λ e, board_key e = k) entries)
         ∧ (∀ e, e ∈ entries → be_score e ≤ be_score top)
         ∧ (∀ shown hidden,
              shown ∈ take 10 (top :: ranked) → hidden ∈ drop 10 (top :: ranked) →
              board_before shown hidden)).
Proof.
  intros get_member order s entries.
  assert (Hsorted : StronglySorted board_before (sort_by tuple_lt board_key entries)).
  { apply (sorted_weaken (λ a b, tuple_lt (board_key b) (board_key a) = false)).
    - intros a b Hab. by apply board_before_key.
    - apply sort_by_sorted; [apply tuple_lt_asym | apply tuple_lt_neg_trans]. }
  split; [|split].
  - intros e. unfold entries. rewrite list_elem_of_omap. split.
    + intros ([k u] & Hin & Hrow). apply dict_items_lookup in Hin as [Hin Hu].
      unfold board_row in Hrow. simpl in Hrow.
      destruct (get_member k) as [member|] eqn:Hm; [|done].
      destruct (bool_decide (good u = 0) && bool_decide (bad u = 0)) eqn:Hz; [done|].
      injection Hrow as <-. exists k, u. simpl.
      split; [done|]. split; [done|]. split; [done|]. split; [|done].
      intros [Hg Hb]. by rewrite !bool_decide_eq_true_2 in Hz.
    + intros (k & u & Hin & Hu & Hm & Hnz & ->).
      exists (k, u). split; [by apply dict_items_lookup|].
      unfold board_row. simpl. simpl in Hm. rewrite Hm.
      destruct (bool_decide (good u = 0) && bool_decide (bad u = 0)) eqn:Hz; [|done].
      apply andb_prop in Hz as [Hg Hb].
      apply bool_decide_eq_true in Hg, Hb. by destruct Hnz.
  - intros Hnil. unfold repboard. fold entries. by rewrite Hnil.
  - intros Hne. unfold repboard. fold entries.
    pose proof (sort_by_perm tuple_lt board_key entries) as Hperm.
    pose proof (sort_by_stable tuple_lt board_key tuple_lt_asym) as Hstable.
    destruct (sort_by tuple_lt board_key entries) as [|top ranked] eqn:Hsort.
    { apply Permutation_nil_l in Hperm. by destruct Hne. }
    exists top, ranked. split; [by rewrite <- Hperm|].
    split; [done|]. split; [done|]. split.
    { intros k. rewrite <- Hsort. apply Hstable. }
    split.
    + intros e He. rewrite <- Hperm in He.
      apply StronglySorted_cons in Hsorted as [Htop _].
      apply elem_of_cons in He as [->|He]; [lia|].
      rewrite Forall_forall in Htop. specialize (Htop e He).
      unfold board_before in Htop. lia.
    + intros shown hidden. by apply sorted_shown_hidden.
Qed.

Lemma dict_items_nil {V} (order : list pystr) (d : gmap pystr V) :
  iterates order d → dict_items order d = [] ↔ d = ∅.
Proof.
  intros Hit. rewrite <- map_to_list_empty_iff. split; intros Hnil.
  - apply Permutation_nil_r. rewrite <- Hnil. symmetry. by apply dict_items_perm.
  - apply Permutation_nil_r. rewrite <- Hnil. by apply dict_items_perm.
Qed.

Lemma dict_items_length {V} (order : list pystr) (d : gmap pystr V) :
  iterates order d → List.length (dict_items order d) = size d.
Proof.
  intros Hit. rewrite (Permutation_length (dict_items_perm order d Hit)).
  apply length_map_to_list.
Qed.

(** X19: the profile that [rep] shows for a user (the caller when no user
    is given).  The totals are the user's two counters and their
    difference; the "Top Tokens" field is there exactly when the user has a
    token entry, and holds the five entries with the most votes, fewer
    when there are fewer, the most voted first; entries with equally many
    votes keep the order of the dictionary, and no entry left out has more
    votes than one shown. *)
Theorem profile_shows_the_top_five_tokens :
  ∀ (order : list pystr) (caller : Z) (user : option Z) (s : bot_state),
    let u := default empty_user (reputation s !! str_of_int (default caller user)) in
    iterates order (tokens u) →
    let p := rep order caller user s in
    (total_good p = good u ∧ total_bad p = bad u ∧ total_score p = good u - bad u)
    ∧ (top_tokens p = None ↔ tokens u = ∅)
    ∧ ∀ fields, top_tokens p = Some fields →
        ∃ shown hidden,
          fields = token_field_of <$> shown
          ∧ shown ++ hidden ≡ₚ map_to_list (tokens u)
          ∧ List.length shown = Nat.min 5 (size (tokens u))
          ∧ StronglySorted (λ a b, token_votes b ≤ token_votes a) (shown ++ hidden)
          ∧ ∀ n, filter (λ kv, token_votes kv = n) (shown ++ hidden)
                 = filter (λ kv, token_votes kv = n) (dict_items order (tokens u)).
Proof.
  intros order caller user s u Hit p.
  assert (Hasym : ∀ a b, reversed_order Z.ltb a b = true → reversed_order Z.ltb b a = false).
  { intros a b. unfold reversed_order. rewrite Z.ltb_lt, Z.ltb_ge. lia. }
  assert (Htrans : ∀ a b c, reversed_order Z.ltb a b = false →
            reversed_order Z.ltb b c = false → reversed_order Z.ltb a c = false).
  { intros a b c. unfold reversed_order. rewrite !Z.ltb_ge. lia. }
  set (entries := dict_items order (tokens u)).
  set (sorted := sort_by (reversed_order Z.ltb) token_votes entries).
  assert (Hperm : sorted ≡ₚ entries) by apply sort_by_perm.
  assert (Hp : top_tokens p
               = match sorted with
                 | [] => None
                 | _ => Some (token_field_of <$> take 5 sorted)
                 end) by reflexivity.
  split; [done|]. split.
  - rewrite Hp. rewrite <- (dict_items_nil order (tokens u) Hit). fold entries.
    rewrite <- (sort_by_nil (reversed_order Z.ltb) token_votes entries). fold sorted.
    by destruct sorted.
  - intros fields Hfields. rewrite Hp in Hfields.
    assert (Hshown : fields = token_field_of <$> take 5 sorted).
    { destruct sorted; [done|]. by injection Hfields as <-. }
    exists (take 5 sorted), (drop 5 sorted). rewrite take_drop.
    split; [exact Hshown|]. split.
    { rewrite Hperm. by apply dict_items_perm. }
    split.
    { rewrite length_take. rewrite (Permutation_length Hperm).
      unfold entries. by rewrite dict_items_length. }
    split.
    + apply (sorted_weaken
               (λ a b, reversed_order Z.ltb (token_votes b) (token_votes a) = false)).
      * intros a b. unfold reversed_order. rewrite Z.ltb_ge. lia.
      * by apply sort_by_sorted.
    + intros n. by apply sort_by_stable.
Qed.

Lemma profile_shows_the_top_five_tokens_witness :
  let order := [lit "0xAbCdEf0123"; lit "unknown"; lit "So1anaAddr"] in
  let p := rep order Scene.alice None Scene.legacy_state in
  iterates order (tokens (default empty_user
                            (reputation Scene.legacy_state !! str_of_int Scene.alice)))
  ∧ total_score p = 1
  ∧ top_tokens p
    = Some [TokenField (lit "0xAbCd...") (Some (lit "0xAbCdEf0123")) 1 0 1;
            TokenField (lit "unknow...") None 1 0 1;
            TokenField (lit "SOL") (Some (lit "So1anaAddr")) 0 1 (-1)].
Proof.
  intros order p.
  assert (Hit : iterates order
                  (tokens (default empty_user
                             (reputation Scene.legacy_state !! str_of_int Scene.alice)))).
  { unfold iterates. apply (bool_decide_unpack _). vm_compute. exact I. }
  split; [exact Hit|].
  destruct (profile_shows_the_top_five_tokens order Scene.alice None
              Scene.legacy_state Hit) as [(_ & _ & Hscore) _].
  split; [exact Hscore|]. vm_compute. reflexivity.
Defined.

(** X20: the vote manager on a state the machine reaches.  It answers
    "No votes found" exactly when [current_votes] is empty; otherwise,
    unless a timestamp among them is refused by [fromisoformat], it shows
    the ten newest votes of [current_votes], fewer when there are fewer,
    the newest first, votes of one timestamp in the order of the
    dictionary; none of the votes shown is reversed, each is a record of
    the log, and no vote left out is newer than one shown. *)
Theorem repmanager_lists_the_newest_active_votes :
  ∀ (unicode_upper : N → pystr) (es : list event)
    (fromisoformat_ok : pystr → bool) (order : list pystr),
    let s := mem (run unicode_upper es) in
    iterates order (current_votes s) →
    let reply := repmanager fromisoformat_ok order true s in
    (reply = NoVotesFound ↔ current_votes s = ∅)
    ∧ ∀ fields, reply = VoteManager fields →
        ∃ shown hidden,
          fields = (λ v, VoteField v (vote_symbol s v)) <$> shown
          ∧ shown ++ hidden ≡ₚ (map_to_list (current_votes s)).*2
          ∧ List.length shown = Nat.min 10 (size (current_votes s))
          ∧ StronglySorted not_older (shown ++ hidden)
          ∧ (∀ t, filter (λ v, timestamp v = t) (shown ++ hidden)
                  = filter (λ v, timestamp v = t)
                      (dict_items order (current_votes s)).*2)
          ∧ ∀ v, v ∈ shown →
                 reversed v = false
                 ∧ fromisoformat_ok (timestamp v) = true
                 ∧ ∃ vid, OrdDict.get vid (reputation_log s) = Some v.
Proof.
  intros tbl es ok order s Hit reply.
  assert (Hasym : ∀ a b, reversed_order str_lt a b = true → reversed_order str_lt b a = false).
  { intros a b. unfold reversed_order. apply str_lt_asym. }
  assert (Htrans : ∀ a b c, reversed_order str_lt a b = false →
            reversed_order str_lt b c = false → reversed_order str_lt a c = false).
  { intros a b c. unfold reversed_order. intros Hab Hbc.
    by apply (str_lt_neg_trans c b a). }
  set (entries := (dict_items order (current_votes s)).*2).
  set (sorted := sort_by (reversed_order str_lt) timestamp entries).
  assert (Hperm : sorted ≡ₚ entries) by apply sort_by_perm.
  assert (Hentries : entries ≡ₚ (map_to_list (current_votes s)).*2).
  { unfold entries. by rewrite (dict_items_perm order _ Hit). }
  assert (Hreply : reply
                   = match sorted with
                     | [] => NoVotesFound
                     | _ =>
                         if forallb (λ v, ok (timestamp v)) (take 10 sorted)
                         then VoteManager ((λ v, VoteField v (vote_symbol s v))
                                             <$> take 10 sorted)
                         else ManagerRaised
                     end) by reflexivity.
  split.
  - rewrite Hreply. rewrite <- map_to_list_empty_iff. split.
    + intros Hnone. assert (Hnil : sorted = []).
      { destruct sorted; [done|]. by destruct (forallb _ _). }
      rewrite Hnil in Hperm. rewrite <- Hperm in Hentries.
      apply Permutation_nil_l in Hentries. symmetry in Hentries.
      by apply fmap_nil_inv in Hentries.
    + intros Hnil. rewrite Hnil in Hentries. simpl in Hentries.
      rewrite Hentries in Hperm. apply Permutation_nil_r in Hperm.
      by rewrite Hperm.
  - intros fields Hfields. rewrite Hreply in Hfields.
    assert (Hshown : forallb (λ v, ok (timestamp v)) (take 10 sorted) = true
                     ∧ fields = (λ v, VoteField v (vote_symbol s v)) <$> take 10 sorted).
    { destruct sorted; [done|]. destruct (forallb _ _); [|done].
      split; [done|]. by injection Hfields as <-. }
    destruct Hshown as [Hok Hshown].
    exists (take 10 sorted), (drop 10 sorted). rewrite take_drop.
    split; [exact Hshown|]. split; [by rewrite Hperm|].
    split.
    { rewrite length_take. rewrite (Permutation_length Hperm).
      rewrite (Permutation_length Hentries).
      by rewrite length_fmap, length_map_to_list. }
    split.
    { apply (sorted_weaken
               (λ a b, reversed_order str_lt (timestamp b) (timestamp a) = false)).
      - intros a b Hab. exact Hab.
      - by apply sort_by_sorted. }
    split; [intros t; by apply sort_by_stable|].
    intros v Hv.
    assert (Hin : v ∈ (map_to_list (current_votes s)).*2).
    { rewrite <- Hentries, <- Hperm. by apply (subseteq_take 10). }
    apply list_elem_of_fmap in Hin as ([vid v'] & -> & Hin). simpl.
    apply elem_of_map_to_list in Hin.
    destruct (run_synced tbl es) as [[_ Hsync] _]. fold s in Hsync.
    rewrite Hsync in Hin. unfold active_record in Hin.
    destruct (OrdDict.get vid (reputation_log s)) as [v0|] eqn:Hlog; [|done].
    destruct (reversed v0) eqn:Hrev; [done|]. injection Hin as ->.
    split; [done|]. split; [|by exists vid].
    apply Is_true_true_2, forallb_True in Hok. rewrite Forall_forall in Hok.
    apply Is_true_true_1. by apply (Hok v').
Qed.

Lemma repmanager_lists_the_newest_active_votes_witness :
  let es := [OnMessage Scene.call;
             Scene.adds_at Scene.vera GREEN "v1" "2025-01-01T00:00:00+00:00";
             Scene.adds_at Scene.walt RED "v2" "2025-01-02T00:00:00+00:00"] in
  let s := mem (run no_unicode_case es) in
  let order := [lit "v1"; lit "v2"] in
  let reply := repmanager (λ _, true) order true s in
  iterates order (current_votes s)
  ∧ (reply = NoVotesFound ↔ current_votes s = ∅)
  ∧ ∃ fields,
      reply = VoteManager fields
      ∧ (vote_id ∘ vf_vote) <$> fields = [lit "v2"; lit "v1"]
      ∧ ∀ f, f ∈ fields → reversed (vf_vote f) = false.
Proof.
  intros es s order reply.
  assert (Hit : iterates order (current_votes s)).
  { unfold iterates. apply (bool_decide_unpack _). vm_compute. exact I. }
  destruct (repmanager_lists_the_newest_active_votes no_unicode_case es
              (λ _, true) order Hit) as [Hnone Hshown].
  split; [exact Hit|]. split; [exact Hnone|].
  assert (Hreply : ∃ fields, reply = VoteManager fields
                     ∧ (vote_id ∘ vf_vote) <$> fields = [lit "v2"; lit "v1"]).
  { eexists. split; vm_compute; reflexivity. }
  destruct Hreply as (fields & Hreply & Hids).
  exists fields. split; [exact Hreply|]. split; [exact Hids|].
  destruct (Hshown fields Hreply) as (shown & hidden & -> & _ & _ & _ & _ & Hactive).
  intros f Hf. apply list_elem_of_fmap in Hf as (v & -> & Hv). simpl.
  by destruct (Hactive v Hv) as [Hrev _].
Defined.
